(** * gemini-cli-as-api: streaming client and credential lifecycle

    A shallow embedding of the two classes that carry the logic of the
    repository, [AuthManager] (OAuth2 token cache and refresh) and
    [GeminiApiClient] (SSE decoding, retry / fallback, aggregation),
    together with [AutoModelSwitchingHelper], the sanitizer of tool
    schemas, the API key middleware and the stream transformer.

    JavaScript [async] functions and [async] generators are embedded as
    terms of a small free monad [Prog]: every effect the code performs on
    its surroundings (the clock, the token file, the network, the private
    fields of the objects) is an operation of [Op], and [run] interprets a
    program against a [World] that scripts what the surroundings answer.
    The same terms are interleaved by [EventLoop], so the sequential and
    the concurrent readings share one definition.  Texts are the bytes of
    their UTF-8 encoding; the token counts are JavaScript numbers, the
    binary64 values of [SpecFloat].

    The file has three parts: the model, the vocabulary in which the
    properties are stated, and the properties. *)

From Stdlib Require Import ZArith List String Ascii Bool Lia.
From Stdlib Require Import DecimalString FunctionalExtensionality.
From Stdlib Require SpecFloat.
Import ListNotations.
Local Open Scope string_scope.
Local Open Scope Z_scope.

Set Implicit Arguments.
Set Warnings "-register-all".

(** ** Text helpers: the [String.prototype] methods the code calls *)

Definition LF : ascii := "010"%char.
Definition DQ : ascii := "034"%char.
Definition nl : string := String LF EmptyString.
Definition dq : string := String DQ EmptyString.

(** [`${n}`] for an integer. *)
Definition show_Z (n : Z) : string := NilZero.string_of_int (Z.to_int n).

(** [s.split] at line feeds: never empty; the last element is the text after the
    last line feed. *)
Fixpoint split_lines (s : string) : list string :=
  match s with
  | EmptyString => [EmptyString]
  | String c rest =>
      if Ascii.eqb c LF then EmptyString :: split_lines rest
      else match split_lines rest with
           | [] => [String c EmptyString]
           | l :: ls => String c l :: ls
           end
  end.

(** A text is held as the bytes of its UTF-8 encoding.  The white space
    and the line terminators that [String.prototype.trim] strips are the
    six of ASCII, in one byte; U+00A0, in two bytes; and, in three bytes,
    U+1680, U+2000 to U+200A, U+2028, U+2029, U+202F, U+205F, U+3000 and
    U+FEFF. *)
Definition is_space (c : ascii) : bool :=
  let n := nat_of_ascii c in
  (Nat.eqb n 9 || Nat.eqb n 10 || Nat.eqb n 11 || Nat.eqb n 12
   || Nat.eqb n 13 || Nat.eqb n 32)%bool.

Definition is_space2 (c1 c2 : ascii) : bool :=
  (Nat.eqb (nat_of_ascii c1) 194 && Nat.eqb (nat_of_ascii c2) 160)%bool.

Definition is_space3 (c1 c2 c3 : ascii) : bool :=
  let n1 := nat_of_ascii c1 in
  let n2 := nat_of_ascii c2 in
  let n3 := nat_of_ascii c3 in
  ((Nat.eqb n1 225 && Nat.eqb n2 154 && Nat.eqb n3 128)
   || (Nat.eqb n1 226 && Nat.eqb n2 128
       && ((Nat.leb 128 n3 && Nat.leb n3 138)
           || Nat.eqb n3 168 || Nat.eqb n3 169 || Nat.eqb n3 175))
   || (Nat.eqb n1 226 && Nat.eqb n2 129 && Nat.eqb n3 159)
   || (Nat.eqb n1 227 && Nat.eqb n2 128 && Nat.eqb n3 128)
   || (Nat.eqb n1 239 && Nat.eqb n2 187 && Nat.eqb n3 191))%bool.

(** Every character of the text is white space. *)
Fixpoint all_space (s : string) : bool :=
  match s with
  | EmptyString => true
  | String c1 rest1 =>
      if is_space c1 then all_space rest1
      else
        match rest1 with
        | String c2 rest2 =>
            if is_space2 c1 c2 then all_space rest2
            else
              match rest2 with
              | String c3 rest3 => is_space3 c1 c2 c3 && all_space rest3
              | EmptyString => false
              end
        | EmptyString => false
        end
  end.

(** [line.trim()] is the empty string. *)
Definition trim_is_empty (line : string) : bool := all_space line.

(** [s.startsWith(p)]. *)
Definition startsWith (p s : string) : bool := String.prefix p s.

(** [s.substring(n)]. *)
Definition substring_from (n : nat) (s : string) : string :=
  String.substring n (String.length s - n) s.

(** A string is truthy when it is not empty. *)
Definition truthy_string (s : string) : bool :=
  match s with EmptyString => false | _ => true end.

(** [s.includes(sub)]. *)
Fixpoint includes (sub s : string) : bool :=
  String.prefix sub s
  || match s with
     | EmptyString => false
     | String _ rest => includes sub rest
     end.

(** ** Numbers *)

(** A JavaScript number is a binary64 value of IEEE 754; [+] rounds to
    the nearest, ties to even. *)
Module Number.

Definition t : Type := SpecFloat.spec_float.

Definition zero : t := SpecFloat.S754_zero false.

(** [a + b] *)
Definition plus (a b : t) : t := SpecFloat.SFadd 53 1024 a b.

(** The number nearest to an integer. *)
Definition of_Z (n : Z) : t := SpecFloat.binary_normalize 53 1024 n 0 false.

(** An integer as it stands, before any rounding. *)
Definition unrounded (n : Z) : t :=
  match n with
  | Z0 => SpecFloat.S754_zero false
  | Zpos p => SpecFloat.S754_finite false p 0
  | Zneg p => SpecFloat.S754_finite true p 0
  end.

(** The number nearest to [mantissa * 10 ^ exponent]: what [JSON.parse]
    makes of a number written that way. *)
Definition of_decimal (mantissa exponent : Z) : t :=
  if 0 <=? exponent then of_Z (mantissa * 10 ^ exponent)
  else SpecFloat.SFdiv 53 1024 (unrounded mantissa) (unrounded (10 ^ (- exponent))).

(** [!x] for a number: zero of either sign, and [NaN]. *)
Definition falsy (x : t) : bool :=
  match x with
  | SpecFloat.S754_zero _ | SpecFloat.S754_nan => true
  | _ => false
  end.

End Number.

(** ** Values that JavaScript code throws *)

Inductive JsValue : Type :=
| JsError (name message : string)   (* an instance of [Error] *)
| JsString (s : string).            (* a bare string used as a reason *)

(** [e instanceof Error ? e.message : String(e)]. *)
Definition errorMessage (e : JsValue) : string :=
  match e with
  | JsError _ m => m
  | JsString s => s
  end.

(** [new Error(m)]. *)
Definition newError (m : string) : JsValue := JsError "Error" m.

Definition JsValue_eqb (a b : JsValue) : bool :=
  match a, b with
  | JsError n m, JsError n' m' => String.eqb n n' && String.eqb m m'
  | JsString s, JsString s' => String.eqb s s'
  | _, _ => false
  end.

(** ** JSON values and [JSON.parse] *)

Module Json.

(** A number is kept as written: [mantissa * 10 ^ exponent]. *)
Inductive t : Type :=
| Null
| Bool (b : bool)
| Num (mantissa exponent : Z)
| Str (s : string)
| Arr (items : list t)
| Obj (fields : list (string * t)).

Definition int (n : Z) : t := Num n 0.

Definition truthy (j : t) : bool :=
  match j with
  | Null => false
  | Bool b => b
  | Num m e => negb (Number.falsy (Number.of_decimal m e))
  | Str s => truthy_string s
  | Arr _ | Obj _ => true
  end.

(** Property read on an object; the last of duplicated keys wins. *)
Fixpoint assoc (k : string) (fields : list (string * t)) : option t :=
  match fields with
  | [] => None
  | (k', v) :: rest =>
      match assoc k rest with
      | Some v' => Some v'
      | None => if String.eqb k k' then Some v else None
      end
  end.

Definition get (k : string) (j : t) : option t :=
  match j with
  | Obj fields => assoc k fields
  | _ => None
  end.

Definition is_ws (c : ascii) : bool :=
  let n := nat_of_ascii c in
  (Nat.eqb n 32 || Nat.eqb n 9 || Nat.eqb n 10 || Nat.eqb n 13)%bool.

Fixpoint skip_ws (s : list ascii) : list ascii :=
  match s with
  | c :: rest => if is_ws c then skip_ws rest else s
  | [] => []
  end.

Definition digit_of (c : ascii) : option Z :=
  let n := nat_of_ascii c in
  if (Nat.leb 48 n && Nat.leb n 57)%bool then Some (Z.of_nat n - 48) else None.

Definition hex_of (c : ascii) : option Z :=
  let n := nat_of_ascii c in
  if (Nat.leb 48 n && Nat.leb n 57)%bool then Some (Z.of_nat n - 48)
  else if (Nat.leb 65 n && Nat.leb n 70)%bool then Some (Z.of_nat n - 55)
  else if (Nat.leb 97 n && Nat.leb n 102)%bool then Some (Z.of_nat n - 87)
  else None.

(** Digits at the head of [s]: their value on top of [acc], how many
    there were, and what follows. *)
Fixpoint digits (s : list ascii) (acc : Z) (count : Z) : Z * Z * list ascii :=
  match s with
  | c :: rest =>
      match digit_of c with
      | Some d => digits rest (10 * acc + d) (count + 1)
      | None => (acc, count, s)
      end
  | [] => (acc, count, [])
  end.

Definition byte (n : Z) : ascii := ascii_of_nat (Z.to_nat n).

(** The UTF-8 bytes of a code point of the basic plane. *)
Definition utf8 (cp : Z) : string :=
  if cp <? 128 then String (byte cp) EmptyString
  else if cp <? 2048 then
    String (byte (192 + cp / 64)) (String (byte (128 + cp mod 64)) EmptyString)
  else
    String (byte (224 + cp / 4096))
      (String (byte (128 + (cp / 64) mod 64))
         (String (byte (128 + cp mod 64)) EmptyString)).

(** The characters of a string after its opening quote. *)
Fixpoint string_body (s : list ascii) (acc : string) : option (string * list ascii) :=
  match s with
  | [] => None
  | c :: rest =>
      if Ascii.eqb c DQ then Some (acc, rest)
      else if Ascii.eqb c "\"%char then
        match rest with
        | e :: rest' =>
            let plain (x : ascii) := string_body rest' (acc ++ String x EmptyString) in
            if Ascii.eqb e DQ then plain DQ
            else if Ascii.eqb e "\"%char then plain "\"%char
            else if Ascii.eqb e "/"%char then plain "/"%char
            else if Ascii.eqb e "b"%char then plain "008"%char
            else if Ascii.eqb e "f"%char then plain "012"%char
            else if Ascii.eqb e "n"%char then plain "010"%char
            else if Ascii.eqb e "r"%char then plain "013"%char
            else if Ascii.eqb e "t"%char then plain "009"%char
            else if Ascii.eqb e "u"%char then
              match rest' with
              | h1 :: ((h2 :: ((h3 :: ((h4 :: rest'') as r3)) as r2)) as r1) =>
                  match hex_of h1, hex_of h2, hex_of h3, hex_of h4 with
                  | Some a, Some b, Some c', Some d =>
                      string_body rest'' (acc ++ utf8 (((a * 16 + b) * 16 + c') * 16 + d))
                  | _, _, _, _ => None
                  end
              | _ => None
              end
            else None
        | [] => None
        end
      else if Nat.ltb (nat_of_ascii c) 32 then None
      else string_body rest (acc ++ String c EmptyString)
  end.

(** [-? int frac? exp?] *)
Definition number (s : list ascii) : option (t * list ascii) :=
  let '(neg, s1) :=
    match s with
    | c :: rest => if Ascii.eqb c "-"%char then (true, rest) else (false, s)
    | [] => (false, s)
    end in
  let '(ip, n_int, s2) := digits s1 0 0 in
  let leading_zero :=
    match s1 with
    | c :: _ => Ascii.eqb c "0"%char
    | [] => false
    end in
  if (n_int =? 0) || (leading_zero && (1 <? n_int)) then None else
  let frac :=
    match s2 with
    | c :: rest =>
        if Ascii.eqb c "."%char then
          let '(m, n_frac, s3) := digits rest ip 0 in
          if n_frac =? 0 then None else Some (m, n_frac, s3)
        else Some (ip, 0, s2)
    | [] => Some (ip, 0, s2)
    end in
  match frac with
  | None => None
  | Some (m, n_frac, s3) =>
      let signed := if neg then - m else m in
      match s3 with
      | c :: rest =>
          if Ascii.eqb c "e"%char || Ascii.eqb c "E"%char then
            let '(eneg, s4) :=
              match rest with
              | c' :: rest' =>
                  if Ascii.eqb c' "-"%char then (true, rest')
                  else if Ascii.eqb c' "+"%char then (false, rest')
                  else (false, rest)
              | [] => (false, rest)
              end in
            let '(e, n_exp, s5) := digits s4 0 0 in
            if n_exp =? 0 then None
            else Some (Num signed ((if eneg then - e else e) - n_frac), s5)
          else Some (Num signed (- n_frac), s3)
      | [] => Some (Num signed (- n_frac), s3)
      end
  end.

Fixpoint expect (lit : list ascii) (s : list ascii) : option (list ascii) :=
  match lit, s with
  | [], _ => Some s
  | c :: lit', d :: s' => if Ascii.eqb c d then expect lit' s' else None
  | _ :: _, [] => None
  end.

(** One value at the head of [s] (after white space); [fuel] bounds the
    nesting and the number of members, the length of the text is enough. *)
Fixpoint value (fuel : nat) (s : list ascii) : option (t * list ascii) :=
  match fuel with
  | O => None
  | S fuel' =>
      match skip_ws s with
      | [] => None
      | c :: rest =>
          if Ascii.eqb c "{"%char then
            match skip_ws rest with
            | c' :: rest' =>
                if Ascii.eqb c' "}"%char then Some (Obj [], rest')
                else members fuel' (skip_ws rest) []
            | [] => None
            end
          else if Ascii.eqb c "["%char then
            match skip_ws rest with
            | c' :: rest' =>
                if Ascii.eqb c' "]"%char then Some (Arr [], rest')
                else elements fuel' (skip_ws rest) []
            | [] => None
            end
          else if Ascii.eqb c DQ then
            match string_body rest EmptyString with
            | Some (str, rest') => Some (Str str, rest')
            | None => None
            end
          else if Ascii.eqb c "t"%char then
            option_map (fun r => (Bool true, r)) (expect (list_ascii_of_string "rue") rest)
          else if Ascii.eqb c "f"%char then
            option_map (fun r => (Bool false, r)) (expect (list_ascii_of_string "alse") rest)
          else if Ascii.eqb c "n"%char then
            option_map (fun r => (Null, r)) (expect (list_ascii_of_string "ull") rest)
          else number (c :: rest)
      end
  end
with elements (fuel : nat) (s : list ascii) (acc : list t) : option (t * list ascii) :=
  match fuel with
  | O => None
  | S fuel' =>
      match value fuel' s with
      | Some (v, rest) =>
          match skip_ws rest with
          | c :: rest' =>
              if Ascii.eqb c ","%char then elements fuel' rest' (acc ++ [v])
              else if Ascii.eqb c "]"%char then Some (Arr (acc ++ [v]), rest')
              else None
          | [] => None
          end
      | None => None
      end
  end
with members (fuel : nat) (s : list ascii) (acc : list (string * t)) : option (t * list ascii) :=
  match fuel with
  | O => None
  | S fuel' =>
      match skip_ws s with
      | c :: rest =>
          if Ascii.eqb c DQ then
            match string_body rest EmptyString with
            | Some (key, rest1) =>
                match skip_ws rest1 with
                | c1 :: rest2 =>
                    if Ascii.eqb c1 ":"%char then
                      match value fuel' rest2 with
                      | Some (v, rest3) =>
                          match skip_ws rest3 with
                          | c3 :: rest4 =>
                              if Ascii.eqb c3 ","%char then members fuel' rest4 (acc ++ [(key, v)])
                              else if Ascii.eqb c3 "}"%char then Some (Obj (acc ++ [(key, v)]), rest4)
                              else None
                          | [] => None
                          end
                      | None => None
                      end
                    else None
                | [] => None
                end
            | None => None
            end
          else None
      | [] => None
      end
  end.

(** [JSON.parse(text)]: [None] stands for the [SyntaxError] it throws. *)
Definition parse (text : string) : option t :=
  let s := list_ascii_of_string text in
  match value (S (List.length s)) s with
  | Some (v, rest) =>
      match skip_ws rest with
      | [] => Some v
      | _ :: _ => None
      end
  | None => None
  end.

End Json.

Definition SyntaxError : JsValue := JsError "SyntaxError" "JSON Parse error".

(** The [TypeError] of a property read on [null], or of a call of
    something that is no function. *)
Definition TypeError (message : string) : JsValue := JsError "TypeError" message.


(** ** Data of the credential manager ([auth.ts], [types.ts]) *)

Module CachedTokenData.
Record t : Type := mk {
  access_token : string;
  refresh_token : option string;
  expiry_date : Z;
  cached_at : Z
}.
End CachedTokenData.

Module OAuth2Credentials.
Record t : Type := mk {
  access_token : string;
  refresh_token : string;
  scope : string;
  token_type : string;
  id_token : string;
  expiry_date : Z
}.
End OAuth2Credentials.

Module TokenRefreshResponse.
Record t : Type := mk {
  access_token : string;
  expires_in : Z;
  refresh_token : option string
}.
End TokenRefreshResponse.

(** [if (x)] for an optional string: present and not empty. *)
Definition truthy_opt (x : option string) : bool :=
  match x with
  | Some s => truthy_string s
  | None => false
  end.

(** The text of [/app/data/token-cache.json] as [JSON.parse] reads it:
    the empty text that [clearTokenCache] writes is [NotJson]. *)
Inductive FileText : Type :=
| NotJson
| TokenJson (d : CachedTokenData.t).

(** The value of [process.env.GCP_SERVICE_ACCOUNT] as [JSON.parse] reads
    it. *)
Inductive SeedText : Type :=
| SeedMalformed
| SeedJson (c : OAuth2Credentials.t).

(** The configuration the two classes read: [process.env] for the
    manager, the [Env] object for the client.  A variable that is unset
    or empty is [None]. *)
Record Env : Type := mkEnv {
  GCP_SERVICE_ACCOUNT : option SeedText;
  GEMINI_PROJECT_ID : option string;
  ENABLE_AUTO_MODEL_SWITCHING : option string
}.

(** ** Data of the streaming client *)

(** The request handed to [fetch]: [model], [project] and the request
    body, which the retry logic never looks into. *)
Record StreamRequest : Type := mkStreamRequest {
  model : string;
  project : string;
  request : Json.t
}.

(** [{ ...streamRequest, model: m }]. *)
Definition with_model (r : StreamRequest) (m : string) : StreamRequest :=
  {| model := m; project := project r; request := request r |}.

Definition StreamRequest_eqb_model (a b : StreamRequest) : bool :=
  String.eqb (model a) (model b).

(** What a response of the three endpoints carries. *)
Inductive RefreshReply : Type :=
| RefreshNotOk (errorText : string)
| RefreshOk (data : TokenRefreshResponse.t).

Record EndpointReply : Type := mkEndpointReply {
  ep_status : Z;
  ep_text : string
}.

(** What the body of a streaming response does next, [delay]
    milliseconds after the previous event. *)
Inductive ReadEvent : Type :=
| Arrives (delay : Z) (value : string)
| Closes (delay : Z)
| Errors (delay : Z) (e : JsValue).

(** The future of a response body.  When the list is used up nothing
    arrives any more: the body stalls. *)
Definition Body : Type := list ReadEvent.

Record StreamReply : Type := mkStreamReply {
  status : Z;
  errorText : string;
  body : option Body
}.

(** [response.ok] *)
Definition ok (status : Z) : bool := (200 <=? status) && (status <=? 299).

(** A promise settles. *)
Inductive Settled (R : Type) : Type :=
| Fulfilled (r : R)
| Rejected (e : JsValue).
Arguments Fulfilled {R} r.
Arguments Rejected {R} e.

(** [reader.read()] settles, or stays pending for ever. *)
Inductive ReadResult : Type :=
| ReadValue (value : string)
| ReadDone
| ReadRejected (e : JsValue)
| ReadPending.

(** A scripted answer and the time it takes. *)
Record Timed (R : Type) : Type := mkTimed {
  latency : Z;
  answer : Settled R
}.

(** A network request as the servers see it. *)
Inductive NetRequest : Type :=
| ReqRefresh (refresh_token : string)
| ReqEndpoint (method : string) (body : Json.t) (bearer : option string)
| ReqStream (req : StreamRequest) (bearer : option string).

(** What cancelling a reader does to a [read()] that is pending.  The
    Streams Standard closes the stream (ReadableStreamCancel runs
    ReadableStreamClose), which fulfils the pending read with
    [{ done: true }]; [RejectsPendingRead] is a runtime that rejects it
    with the reason instead. *)
Inductive CancelSemantics : Type :=
| ClosesStream
| RejectsPendingRead.

(** ** The world *)

Record World : Type := mkWorld {
  clock : Z;                                   (* [Date.now()] *)
  accessToken : option string;                 (* [AuthManager.accessToken] *)
  projectId : option string;                   (* [GeminiApiClient.projectId] *)
  tokenFile : option FileText;                 (* the cache file, [None] when absent *)
  storage_fails : bool;                        (* the store is down: every file operation throws *)
  cancel_semantics : CancelSemantics;
  refresh_replies : list (Timed RefreshReply);
  endpoint_replies : list (Timed EndpointReply);
  stream_replies : list (Timed StreamReply);
  requests : list NetRequest                   (* issued so far, oldest first *)
}.

Definition fetch_failed : JsValue := JsError "TypeError" "fetch failed".
Definition AbortError : JsValue := JsError "AbortError" "The operation was aborted.".
Definition storage_error : JsValue := JsError "Error" "EIO: i/o error".

(** ** Operations *)

Inductive Op : Type -> Type :=
| DateNow : Op Z
| GetAccessToken : Op (option string)
| SetAccessToken (t : option string) : Op unit
| GetProjectId : Op (option string)
| SetProjectId (p : option string) : Op unit
| FileExists : Op (Settled bool)
| FileRead : Op (Settled FileText)
| FileWrite (text : FileText) : Op (Settled unit)
| FetchRefresh (refresh_token : string) : Op (Settled RefreshReply)
| FetchEndpoint (method : string) (body : Json.t) (bearer : option string)
    : Op (Settled EndpointReply)
| FetchStream (req : StreamRequest) (bearer : option string) (abortAfter : Z)
    : Op (Settled StreamReply)
| ReaderRead (next : option ReadEvent) (idleTimeoutMs : option Z) (reason : string)
    : Op ReadResult.

Definition tick (d : Z) (w : World) : World :=
  mkWorld (clock w + d) (accessToken w) (projectId w) (tokenFile w) (storage_fails w)
    (cancel_semantics w) (refresh_replies w) (endpoint_replies w) (stream_replies w)
    (requests w).

Definition set_accessToken (t : option string) (w : World) : World :=
  mkWorld (clock w) t (projectId w) (tokenFile w) (storage_fails w)
    (cancel_semantics w) (refresh_replies w) (endpoint_replies w) (stream_replies w)
    (requests w).

Definition set_projectId (p : option string) (w : World) : World :=
  mkWorld (clock w) (accessToken w) p (tokenFile w) (storage_fails w)
    (cancel_semantics w) (refresh_replies w) (endpoint_replies w) (stream_replies w)
    (requests w).

Definition set_tokenFile (f : option FileText) (w : World) : World :=
  mkWorld (clock w) (accessToken w) (projectId w) f (storage_fails w)
    (cancel_semantics w) (refresh_replies w) (endpoint_replies w) (stream_replies w)
    (requests w).

Definition sent (r : NetRequest) (w : World) : World :=
  mkWorld (clock w) (accessToken w) (projectId w) (tokenFile w) (storage_fails w)
    (cancel_semantics w) (refresh_replies w) (endpoint_replies w) (stream_replies w)
    (requests w ++ [r]).

Definition pop_refresh (w : World) : World :=
  mkWorld (clock w) (accessToken w) (projectId w) (tokenFile w) (storage_fails w)
    (cancel_semantics w) (tl (refresh_replies w)) (endpoint_replies w) (stream_replies w)
    (requests w).

Definition pop_endpoint (w : World) : World :=
  mkWorld (clock w) (accessToken w) (projectId w) (tokenFile w) (storage_fails w)
    (cancel_semantics w) (refresh_replies w) (tl (endpoint_replies w)) (stream_replies w)
    (requests w).

Definition pop_stream (w : World) : World :=
  mkWorld (clock w) (accessToken w) (projectId w) (tokenFile w) (storage_fails w)
    (cancel_semantics w) (refresh_replies w) (endpoint_replies w) (tl (stream_replies w))
    (requests w).

(** The next scripted answer; a request nobody scripted fails at once. *)
Definition next_reply {R : Type} (script : list (Timed R)) : Timed R :=
  match script with
  | r :: _ => r
  | [] => mkTimed 0 (Rejected fetch_failed)
  end.

(** The idle timer of [parseSSEStream] goes off when the next event is
    more than [idleTimeoutMs] away; [if (idleTimeoutMs)] arms it only for
    a number that is not zero. *)
Definition timer_armed (idleTimeoutMs : option Z) : option Z :=
  match idleTimeoutMs with
  | Some t => if t =? 0 then None else Some t
  | None => None
  end.

Definition event_delay (e : ReadEvent) : Z :=
  match e with
  | Arrives d _ | Closes d | Errors d _ => d
  end.

Definition event_result (e : ReadEvent) : ReadResult :=
  match e with
  | Arrives _ v => ReadValue v
  | Closes _ => ReadDone
  | Errors _ err => ReadRejected err
  end.

(** The read that the timer callback [reader.cancel(reason)] interrupts. *)
Definition cancelled_read (sem : CancelSemantics) (reason : string) : ReadResult :=
  match sem with
  | ClosesStream => ReadDone
  | RejectsPendingRead => ReadRejected (JsString reason)
  end.

Definition reader_read (next : option ReadEvent) (idleTimeoutMs : option Z)
    (reason : string) (w : World) : ReadResult * World :=
  match next, timer_armed idleTimeoutMs with
  | Some e, Some t =>
      if t <? event_delay e
      then (cancelled_read (cancel_semantics w) reason, tick t w)
      else (event_result e, tick (event_delay e) w)
  | Some e, None => (event_result e, tick (event_delay e) w)
  | None, Some t => (cancelled_read (cancel_semantics w) reason, tick t w)
  | None, None => (ReadPending, w)
  end.

(** A file operation: it gives [r] and leaves [w'], unless the store is
    down.  A store that is down refuses reads and writes alike. *)
Definition file_op {R : Type} (w : World) (r : R) (w' : World) : Settled R * World :=
  if storage_fails w then (Rejected storage_error, w) else (Fulfilled r, w').

Definition handle {R : Type} (op : Op R) (w : World) : R * World :=
  match op in Op R return R * World with
  | DateNow => (clock w, w)
  | GetAccessToken => (accessToken w, w)
  | SetAccessToken t => (tt, set_accessToken t w)
  | GetProjectId => (projectId w, w)
  | SetProjectId p => (tt, set_projectId p w)
  | FileExists =>
      file_op w (match tokenFile w with Some _ => true | None => false end) w
  | FileRead =>
      match tokenFile w with
      | Some text => file_op w text w
      | None => (Rejected storage_error, w)
      end
  | FileWrite text => file_op w tt (set_tokenFile (Some text) w)
  | FetchRefresh rt =>
      let r := next_reply (refresh_replies w) in
      (answer r, tick (latency r) (pop_refresh (sent (ReqRefresh rt) w)))
  | FetchEndpoint m b bearer =>
      let r := next_reply (endpoint_replies w) in
      (answer r, tick (latency r) (pop_endpoint (sent (ReqEndpoint m b bearer) w)))
  | FetchStream req bearer abortAfter =>
      let r := next_reply (stream_replies w) in
      let w' := pop_stream (sent (ReqStream req bearer) w) in
      if latency r <? abortAfter
      then (answer r, tick (latency r) w')
      else (Rejected AbortError, tick abortAfter w')
  | ReaderRead next idle reason => reader_read next idle reason w
  end.

(** ** Programs *)

Inductive Prog (Y A : Type) : Type :=
| Ret (a : A)                                   (* return *)
| Throw (e : JsValue)                           (* throw *)
| Hang                                          (* an await that never settles *)
| Yield (y : Y) (k : Prog Y A)                  (* yield, then go on *)
| Vis (R : Type) (op : Op R) (k : R -> Prog Y A).
Arguments Ret {Y A} a.
Arguments Throw {Y A} e.
Arguments Hang {Y A}.
Arguments Yield {Y A} y k.
Arguments Vis {Y A R} op k.

Fixpoint bind {Y A B : Type} (m : Prog Y A) (f : A -> Prog Y B) : Prog Y B :=
  match m with
  | Ret a => f a
  | Throw e => Throw e
  | Hang => Hang
  | Yield y k => Yield y (bind k f)
  | Vis op k => Vis op (fun r => bind (k r) f)
  end.

(** [try { m } catch (e) { h e }] *)
Fixpoint tryCatch {Y A : Type} (m : Prog Y A) (h : JsValue -> Prog Y A) : Prog Y A :=
  match m with
  | Ret a => Ret a
  | Throw e => h e
  | Hang => Hang
  | Yield y k => Yield y (tryCatch k h)
  | Vis op k => Vis op (fun r => tryCatch (k r) h)
  end.

(** [for await (const y of g) { s = body s y }], the loop state threaded
    through; what the body yields is yielded by the loop. *)
Fixpoint forAwait {Y1 Y2 S : Type} (g : Prog Y1 unit) (body : S -> Y1 -> Prog Y2 S)
    (s : S) : Prog Y2 S :=
  match g with
  | Ret _ => Ret s
  | Throw e => Throw e
  | Hang => Hang
  | Yield y k => bind (body s y) (fun s' => forAwait k body s')
  | Vis op k => Vis op (fun r => forAwait (k r) body s)
  end.

Definition perform {Y R : Type} (op : Op R) : Prog Y R := Vis op (fun r => Ret r).

(** [await p] for a promise that may reject. *)
Definition await {Y R : Type} (op : Op (Settled R)) : Prog Y R :=
  Vis op (fun s => match s with
                   | Fulfilled r => Ret r
                   | Rejected e => Throw e
                   end).

Declare Scope prog_scope.
Delimit Scope prog_scope with prog.
Notation "x <- m ;; k" := (bind m (fun x => k))
  (at level 61, m at next level, right associativity) : prog_scope.
Notation "m ;; k" := (bind m (fun _ => k))
  (at level 61, right associativity) : prog_scope.
Local Open Scope prog_scope.

(** How a call ends. *)
Inductive Result (A : Type) : Type :=
| Returned (a : A)
| Thrown (e : JsValue)
| Hangs.
Arguments Returned {A} a.
Arguments Thrown {A} e.
Arguments Hangs {A}.

(** What a consumer that drains the program sees. *)
Record Outcome (Y A : Type) : Type := mkOutcome {
  yields : list Y;
  result : Result A;
  final : World
}.

Definition yielded {Y A : Type} (y : Y) (o : Outcome Y A) : Outcome Y A :=
  mkOutcome (y :: yields o) (result o) (final o).

Fixpoint run {Y A : Type} (p : Prog Y A) (w : World) : Outcome Y A :=
  match p with
  | Ret a => mkOutcome [] (Returned a) w
  | Throw e => mkOutcome [] (Thrown e) w
  | Hang => mkOutcome [] Hangs w
  | Yield y k => yielded y (run k w)
  | Vis op k => let '(r, w') := handle op w in run (k r) w'
  end.

(** ** Constants *)

(** Modelled from the spec: [TOKEN_BUFFER_TIME] is imported from
    [./config], which is not among the sources; the spec gives the buffer
    window as 5 minutes, and the code compares it with a difference of
    epoch milliseconds. *)
Definition TOKEN_BUFFER_TIME : Z := 5 * 60 * 1000.

Definition CONNECTION_TIMEOUT_MS : Z := 100000.
Definition IDLE_TIMEOUT_MS : Z := 100000.
Definition QUICK_FAIL_THRESHOLD_MS : Z := 5000.

Definition AUTO_SWITCH_MODEL_MAP : list (string * string) :=
  [("gemini-3-pro-preview", "gemini-3-flash-preview");
   ("gemini-2.5-pro", "gemini-2.5-flash")].

Definition RATE_LIMIT_STATUS_CODES : list Z := [429; 503].

(** [AUTO_SWITCH_MODEL_MAP] is an object literal: besides its two own
    keys, a read finds the properties every object inherits from
    [Object.prototype], whose values are functions (and, for
    [__proto__], the prototype itself), not models. *)
Definition Object_prototype_names : list string :=
  ["constructor"; "__defineGetter__"; "__defineSetter__"; "hasOwnProperty";
   "__lookupGetter__"; "__lookupSetter__"; "isPrototypeOf"; "propertyIsEnumerable";
   "toString"; "valueOf"; "__proto__"; "toLocaleString"].

(** ** AuthManager *)

Module AuthManager.

Section Methods.
Context {Y : Type}.
Variable env : Env.

(** [getTokenFromFile]: no file, or anything going wrong, is [null]. *)
Definition getTokenFromFile : Prog Y (option CachedTokenData.t) :=
  tryCatch
    (present <- await FileExists ;;
     if negb present then Ret None
     else
       content <- await FileRead ;;
       match content with
       | TokenJson d => Ret (Some d)
       | NotJson => Throw SyntaxError
       end)
    (fun _ => Ret None).

(** [cacheTokenToFile]: a failed write is logged and swallowed. *)
Definition cacheTokenToFile (accessToken : string) (expiryDate : Z)
    (refreshToken : option string) : Prog Y unit :=
  tryCatch
    (now <- perform DateNow ;;
     await (FileWrite (TokenJson
       (CachedTokenData.mk accessToken refreshToken expiryDate now))))
    (fun _ => Ret tt).

(** [clearTokenCache]: an existing file is overwritten with the empty
    text. *)
Definition clearTokenCache : Prog Y unit :=
  tryCatch
    (present <- await FileExists ;;
     if present then await (FileWrite NotJson) else Ret tt)
    (fun _ => Ret tt).

Definition refreshAndCacheToken (refreshToken : string) : Prog Y unit :=
  refreshResponse <- await (FetchRefresh refreshToken) ;;
  match refreshResponse with
  | RefreshNotOk errorText =>
      Throw (newError ("Token refresh failed: " ++ errorText))
  | RefreshOk refreshData =>
      perform (SetAccessToken (Some (TokenRefreshResponse.access_token refreshData))) ;;
      now <- perform DateNow ;;
      let expiryTime := now + TokenRefreshResponse.expires_in refreshData * 1000 in
      let nextRefreshToken :=
        match TokenRefreshResponse.refresh_token refreshData with
        | Some t => if truthy_string t then t else refreshToken
        | None => refreshToken
        end in
      cacheTokenToFile (TokenRefreshResponse.access_token refreshData) expiryTime
        (Some nextRefreshToken)
  end.

(** The part of [initializeAuth] that deals with the cached token; [true]
    stands for the [return] inside it. *)
Definition useCachedToken (cachedTokenData : option CachedTokenData.t) : Prog Y bool :=
  match cachedTokenData with
  | Some d =>
      now <- perform DateNow ;;
      let timeUntilExpiry := CachedTokenData.expiry_date d - now in
      if TOKEN_BUFFER_TIME <? timeUntilExpiry then
        perform (SetAccessToken (Some (CachedTokenData.access_token d))) ;;
        Ret true
      else
        match CachedTokenData.refresh_token d with
        | Some rt =>
            if truthy_string rt then
              tryCatch (refreshAndCacheToken rt ;; Ret true) (fun _ => Ret false)
            else Ret false
        | None => Ret false
        end
  | None => Ret false
  end.

(** The part of [initializeAuth] from [JSON.parse(this.GCP_SERVICE_ACCOUNT)]
    on. *)
Definition useEnvCredentials (seed : SeedText) : Prog Y unit :=
  match seed with
  | SeedMalformed => Throw SyntaxError
  | SeedJson oauth2Creds =>
      now <- perform DateNow ;;
      let timeUntilExpiry := OAuth2Credentials.expiry_date oauth2Creds - now in
      if TOKEN_BUFFER_TIME <? timeUntilExpiry then
        perform (SetAccessToken (Some (OAuth2Credentials.access_token oauth2Creds))) ;;
        cacheTokenToFile (OAuth2Credentials.access_token oauth2Creds)
          (OAuth2Credentials.expiry_date oauth2Creds)
          (Some (OAuth2Credentials.refresh_token oauth2Creds))
      else
        refreshAndCacheToken (OAuth2Credentials.refresh_token oauth2Creds)
  end.

Definition initializeAuth : Prog Y unit :=
  match GCP_SERVICE_ACCOUNT env with
  | None =>
      Throw (newError
        "`GCP_SERVICE_ACCOUNT` environment variable not set. Please provide OAuth2 credentials JSON.")
  | Some seed =>
      tryCatch
        (cachedTokenData <- tryCatch getTokenFromFile (fun _ => Ret None) ;;
         returned <- useCachedToken cachedTokenData ;;
         if returned then Ret tt else useEnvCredentials seed)
        (fun e => Throw (newError ("Authentication failed: " ++ errorMessage e)))
  end.

(** [callEndpoint]; [fuel] bounds the recursion, which the [isRetry] flag
    stops after one level. *)
Fixpoint callEndpoint (fuel : nat) (method : string) (body : Json.t) (isRetry : bool)
    : Prog Y Json.t :=
  match fuel with
  | O => Hang
  | S fuel' =>
      initializeAuth ;;
      token <- perform GetAccessToken ;;
      response <- await (FetchEndpoint method body token) ;;
      if negb (ok (ep_status response)) then
        if (ep_status response =? 401) && negb isRetry then
          perform (SetAccessToken None) ;;
          clearTokenCache ;;
          initializeAuth ;;
          callEndpoint fuel' method body true
        else
          Throw (newError ("API call failed with status " ++ show_Z (ep_status response)
                           ++ ": " ++ ep_text response))
      else
        match Json.parse (ep_text response) with
        | Some j => Ret j
        | None => Throw SyntaxError
        end
  end.

Definition getAccessToken : Prog Y (option string) := perform GetAccessToken.

End Methods.

End AuthManager.

(** ** AutoModelSwitchingHelper *)

Module AutoModelSwitchingHelper.

Section Methods.
Variable env : Env.

Definition isEnabled : bool :=
  match ENABLE_AUTO_MODEL_SWITCHING env with
  | Some v => String.eqb v "true"
  | None => false
  end.

Fixpoint lookup (m : string) (map : list (string * string)) : option string :=
  match map with
  | [] => None
  | (k, v) :: rest => if String.eqb m k then Some v else lookup m rest
  end.

(** [originalModel] names a property that the map inherits. *)
Definition inherited (originalModel : string) : bool :=
  existsb (String.eqb originalModel) Object_prototype_names.

(** [AUTO_SWITCH_MODEL_MAP[originalModel] || null], for the own keys of
    the map.  For a name that is [inherited] the read gives a function,
    which this string-valued reading does not cover. *)
Definition getFallbackModel (originalModel : string) : option string :=
  match lookup originalModel AUTO_SWITCH_MODEL_MAP with
  | Some v => if truthy_string v then Some v else None
  | None => None
  end.

Definition isRateLimitStatus (status : Z) : bool :=
  existsb (Z.eqb status) RATE_LIMIT_STATUS_CODES.

(** [isRateLimitError]: an [Error] whose message names one of the two
    statuses. *)
Definition isRateLimitError (error : JsValue) : bool :=
  match error with
  | JsError _ message =>
      includes "Stream request failed: 429" message
      || includes "Stream request failed: 503" message
  | JsString _ => false
  end.

(** [isEnabled() && getFallbackModel(originalModel) !== null]: what the
    lookup gives is not [null] for an own key and for an inherited name. *)
Definition shouldAttemptFallback (originalModel : string) : bool :=
  isEnabled
  && match getFallbackModel originalModel with
     | Some _ => true
     | None => inherited originalModel
     end.

Definition createSwitchNotification (originalModel fallbackModel : string) : string :=
  "[Auto-switched from " ++ originalModel ++ " to " ++ fallbackModel
  ++ " due to rate limiting]" ++ nl ++ nl.

End Methods.

End AutoModelSwitchingHelper.

(** ** Responses of the client ([types/gemini-native]) *)

Record Content : Type := mkContent {
  role : string;
  parts : list Json.t
}.

Record Candidate : Type := mkCandidate {
  content : Content;
  finishReason : option string;
  groundingMetadata : option Json.t
}.

Record UsageMetadata : Type := mkUsageMetadata {
  promptTokenCount : Number.t;
  candidatesTokenCount : Number.t;
  totalTokenCount : Number.t
}.

Record GeminiNativeResponse : Type := mkGeminiNativeResponse {
  candidates : list Candidate;
  usageMetadata : option UsageMetadata;
  modelVersion : string
}.

Record GeminiNativeStreamChunk : Type := mkGeminiNativeStreamChunk {
  chunk_type : string;
  data : GeminiNativeResponse
}.

(** What an event of the upstream stream holds once decoded, at the shape
    the code reads it: [{ response?: { candidates?, usageMetadata? } }],
    every field optional.  The event is typed [any]: it may be [null], its
    [candidates] may be something that is no array, and a candidate may be
    [null]; these are the values on which the code that reads the event
    throws.  A field that is absent, or falsy where the code tests it, is
    [None]. *)
Module Wire.

Record UsageMetadata : Type := mkUsageMetadata {
  promptTokenCount : option Number.t;
  candidatesTokenCount : option Number.t;
  totalTokenCount : option Number.t
}.

Record Candidate : Type := mkCandidate {
  parts : option (list Json.t);          (* [candidate.content?.parts] *)
  finishReason : option string;
  groundingMetadata : option Json.t
}.

(** A truthy [response.candidates]. *)
Inductive Candidates : Type :=
| NotAnArray                               (* a value without [map] *)
| Items (items : list (option Candidate)). (* an array; [None] is a [null] in it *)

Record Response : Type := mkResponse {
  candidates : option Candidates;
  usageMetadata : option UsageMetadata
}.

Inductive Event : Type :=
| Null                                     (* the event is [null] *)
| mkEvent (response : option Response).

End Wire.

(** [n || 0] for an optional number. *)
Definition or_zero (n : option Number.t) : Number.t :=
  match n with
  | Some v => if Number.falsy v then Number.zero else v
  | None => Number.zero
  end.

(** ** GeminiApiClient *)

Module GeminiApiClient.

(** *** parseSSEStream *)

Section SSE.
Context {J : Type}.
(** [JSON.parse], [None] when it throws. *)
Variable JSON_parse : string -> option J.

(** [try { yield JSON.parse(objectBuffer) } catch (e) { console.error }] *)
Definition yieldParsed (objectBuffer : string) : Prog J unit :=
  match JSON_parse objectBuffer with
  | Some j => Yield j (Ret tt)
  | None => Ret tt
  end.

(** The [for (const line of lines)] loop; returns [objectBuffer]. *)
Fixpoint processLines (lines : list string) (objectBuffer : string) : Prog J string :=
  match lines with
  | [] => Ret objectBuffer
  | line :: rest =>
      if trim_is_empty line then
        if truthy_string objectBuffer then
          yieldParsed objectBuffer ;;
          processLines rest EmptyString
        else processLines rest objectBuffer
      else if startsWith "data: " line then
        processLines rest (objectBuffer ++ substring_from 6 line)
      else processLines rest objectBuffer
  end.

(** [`${idleTimeoutMs}`] *)
Definition show_timeout (idleTimeoutMs : option Z) : string :=
  match idleTimeoutMs with
  | Some t => show_Z t
  | None => "undefined"
  end.

(** The [while (true)] loop, one read per turn, with the two buffers it
    carries.  A stream whose script is used up delivers nothing, so the
    read of that turn can only be cancelled or stay pending. *)
Fixpoint readLoop (stream : Body) (idleTimeoutMs : option Z)
    (buffer objectBuffer : string) : Prog J unit :=
  let settle (readResult : ReadResult) (next : string -> Prog J unit) : Prog J unit :=
    match readResult with
    | ReadRejected error =>
        if JsValue_eqb error (JsString "IdleTimeout") then
          Throw (newError ("Stream idle timeout after " ++ show_timeout idleTimeoutMs ++ "ms"))
        else Throw error
    | ReadPending => Hang
    | ReadDone =>
        if truthy_string objectBuffer then yieldParsed objectBuffer else Ret tt
    | ReadValue value => next value
    end in
  match stream with
  | [] =>
      Vis (ReaderRead None idleTimeoutMs "IdleTimeout")
        (fun readResult => settle readResult (fun _ => Hang))
  | e :: rest =>
      Vis (ReaderRead (Some e) idleTimeoutMs "IdleTimeout")
        (fun readResult => settle readResult (fun value =>
           let lines := split_lines (buffer ++ value) in
           objectBuffer' <- processLines (removelast lines) objectBuffer ;;
           readLoop rest idleTimeoutMs (last lines EmptyString) objectBuffer'))
  end.

Definition parseSSEStream (stream : Body) (idleTimeoutMs : option Z) : Prog J unit :=
  readLoop stream idleTimeoutMs EmptyString EmptyString.

End SSE.

(** *** The requests *)

Section Methods.
Variable env : Env.
(** [JSON.parse] read at the shape of a stream event. *)
Variable JSON_parse : string -> option Wire.Event.

(** [discoverProjectId] *)
Definition discoverProjectId {Y : Type} : Prog Y string :=
  match GEMINI_PROJECT_ID env with
  | Some p => Ret p
  | None =>
      cached <- perform GetProjectId ;;
      if truthy_opt cached then
        match cached with
        | Some p => Ret p
        | None => Ret EmptyString
        end
      else
        tryCatch
          (let initialProjectId := Json.Str "default-project" in
           loadResponse <- AuthManager.callEndpoint env 2 "loadCodeAssist"
             (Json.Obj [("cloudaicompanionProject", initialProjectId);
                        ("metadata", Json.Obj [("duetProject", initialProjectId)])])
             false ;;
           match Json.get "cloudaicompanionProject" loadResponse with
           | Some (Json.Str p) =>
               if truthy_string p then
                 perform (SetProjectId (Some p)) ;;
                 Ret p
               else Throw (newError
                 "Project ID discovery failed. Please set the GEMINI_PROJECT_ID environment variable.")
           | _ => Throw (newError
                 "Project ID discovery failed. Please set the GEMINI_PROJECT_ID environment variable.")
           end)
          (fun _ => Throw (newError
             "Could not discover project ID. Make sure you're authenticated and consider setting GEMINI_PROJECT_ID."))
  end.

(** [buildNativeStreamRequest], with the request body taken as already
    normalised: the functions below only read and replace [model]. *)
Definition buildNativeStreamRequest (modelId projectId : string) (request : Json.t)
    : StreamRequest :=
  {| model := modelId; project := projectId; request := request |}.

(** The chunk that tells the user of the switch. *)
Definition switchNotice (modelId fallbackModel : string) : GeminiNativeStreamChunk :=
  {| chunk_type := "gemini_native";
     data :=
       {| candidates :=
            [ {| content :=
                   {| role := "model";
                      parts := [Json.Obj [("text", Json.Str
                        (AutoModelSwitchingHelper.createSwitchNotification modelId fallbackModel))]] |};
                 finishReason := None;
                 groundingMetadata := None |} ];
          usageMetadata := None;
          modelVersion := fallbackModel |} |}.

(** The callback of [candidates.map]. *)
Definition nativeCandidate (candidate : Wire.Candidate) : Candidate :=
  {| content :=
       {| role := "model";
          parts := match Wire.parts candidate with
                   | Some ps => ps
                   | None => []
                   end |};
     finishReason := Wire.finishReason candidate;
     groundingMetadata := Wire.groundingMetadata candidate |}.

(** [candidates.map(...)] on an array: [None] when the callback throws,
    which it does at the first [null], reading [candidate.content]. *)
Fixpoint mapCandidates (items : list (option Wire.Candidate)) : option (list Candidate) :=
  match items with
  | [] => Some []
  | Some candidate :: rest =>
      match mapCandidates rest with
      | Some mapped => Some (nativeCandidate candidate :: mapped)
      | None => None
      end
  | None :: _ => None
  end.

(** The [nativeResponse] built from the response of an event, its
    candidates already mapped. *)
Definition nativeResponse (modelId : string) (response : Wire.Response)
    (mapped : list Candidate) : GeminiNativeResponse :=
  {| candidates := mapped;
     usageMetadata :=
       match Wire.usageMetadata response with
       | Some um =>
           Some {| promptTokenCount := or_zero (Wire.promptTokenCount um);
                   candidatesTokenCount := or_zero (Wire.candidatesTokenCount um);
                   totalTokenCount :=
                     Number.plus (or_zero (Wire.promptTokenCount um))
                       (or_zero (Wire.candidatesTokenCount um)) |}
       | None => None
       end;
     modelVersion := modelId |}.

(** The body of the [for await] loop over the decoded events.  Reading
    [jsonData.response] throws when the event is [null]; the call of
    [map] throws when [candidates] is no array, and its callback when a
    candidate is [null]. *)
Definition emitChunk (modelId : string) (_ : unit) (jsonData : Wire.Event)
    : Prog GeminiNativeStreamChunk unit :=
  match jsonData with
  | Wire.Null => Throw (TypeError "null is not an object (evaluating 'jsonData.response')")
  | Wire.mkEvent None => Ret tt
  | Wire.mkEvent (Some response) =>
      match Wire.candidates response with
      | None => Ret tt
      | Some Wire.NotAnArray =>
          Throw (TypeError "jsonData.response.candidates.map is not a function")
      | Some (Wire.Items items) =>
          match mapCandidates items with
          | Some mapped =>
              Yield {| chunk_type := "gemini_native";
                       data := nativeResponse modelId response mapped |} (Ret tt)
          | None =>
              Throw (TypeError "null is not an object (evaluating 'candidate.content')")
          end
      end
  end.

(** [error instanceof Error], with the name [AbortError] *)
Definition isAbortError (error : JsValue) : bool :=
  match error with
  | JsError name _ => String.eqb name "AbortError"
  | JsString _ => false
  end.

(** [performNativeStreamRequest] is given in pieces: its [try] block (the
    request, then what is done with the response), its [catch] block, and
    the function that puts them together.
    Every recursive call in the source passes [true] for [isRetry];
    [retry r m] stands for [this.performNativeStreamRequest(r, m, true)]. *)
Section Attempt.
Variable retry : StreamRequest -> string -> Prog GeminiNativeStreamChunk unit.
Variable streamRequest : StreamRequest.
Variable modelId : string.
Variable isRetry : bool.

(** What the [try] block does with the response of [fetch]: the answers
    to a status that is not ok, and the loop over the events of the
    body. *)
Definition respond (response : StreamReply) : Prog GeminiNativeStreamChunk unit :=
  if negb (ok (status response)) then
    let failed : Prog GeminiNativeStreamChunk unit :=
      Throw (newError ("Stream request failed: " ++ show_Z (status response))) in
    if (status response =? 401) && negb isRetry then
      AuthManager.clearTokenCache ;;
      AuthManager.initializeAuth env ;;
      retry streamRequest modelId
    else if AutoModelSwitchingHelper.isRateLimitStatus (status response)
            && negb isRetry then
      match AutoModelSwitchingHelper.getFallbackModel modelId with
      | Some fallbackModel =>
          if AutoModelSwitchingHelper.isEnabled env then
            Yield (switchNotice modelId fallbackModel)
              (let fallbackRequest := with_model streamRequest fallbackModel in
               retry fallbackRequest fallbackModel)
          else failed
      | None => failed
      end
    else failed
  else
    match body response with
    | None => Throw (newError "Response has no body")
    | Some stream =>
        forAwait (parseSSEStream JSON_parse stream (Some IDLE_TIMEOUT_MS))
          (emitChunk modelId) tt
    end.

(** The [try] block. *)
Definition tryBlock : Prog GeminiNativeStreamChunk unit :=
  token <- AuthManager.getAccessToken ;;
  response <- await (FetchStream streamRequest token CONNECTION_TIMEOUT_MS) ;;
  respond response.

(** The [catch] block, for the [startTime] taken before the [try]. *)
Definition catchBlock (startTime : Z) (error : JsValue)
    : Prog GeminiNativeStreamChunk unit :=
  now <- perform DateNow ;;
  let duration := now - startTime in
  let isTimeout := isAbortError error in
  let isQuickFail := duration <? QUICK_FAIL_THRESHOLD_MS in
  if negb isRetry && (isTimeout || isQuickFail) then
    retry streamRequest modelId
  else Throw error.

End Attempt.

(** [fuel] bounds the recursion, which the [isRetry] flag stops after one
    level: two units are enough ([performNativeStreamRequest_fuel]). *)
Fixpoint performNativeStreamRequest (fuel : nat) (streamRequest : StreamRequest)
    (modelId : string) (isRetry : bool) : Prog GeminiNativeStreamChunk unit :=
  match fuel with
  | O => Hang
  | S fuel' =>
      let retry := fun r m => performNativeStreamRequest fuel' r m true in
      startTime <- perform DateNow ;;
      tryCatch (tryBlock retry streamRequest modelId isRetry)
        (catchBlock retry streamRequest modelId isRetry startTime)
  end.

(** [streamContentNative] *)
Definition streamContentNative (modelId : string) (request : Json.t)
    : Prog GeminiNativeStreamChunk unit :=
  AuthManager.initializeAuth env ;;
  projectId <- discoverProjectId ;;
  let streamRequest := buildNativeStreamRequest modelId projectId request in
  performNativeStreamRequest 2 streamRequest modelId false.

(** What [getCompletionNative] does with one candidate of a chunk. *)
Definition absorbCandidate (candidates : list Candidate) (candidate : Candidate)
    : list Candidate :=
  let candidates :=
    if Nat.eqb (List.length candidates) 0
    then (candidates ++ [ {| content := {| role := "model"; parts := [] |};
                             finishReason := None;
                             groundingMetadata := None |} ])%list
    else candidates in
  match candidates with
  | first :: others =>
      {| content := {| role := role (content first);
                       parts := (parts (content first) ++ parts (content candidate))%list |};
         finishReason :=
           if truthy_opt (finishReason candidate) then finishReason candidate
           else finishReason first;
         groundingMetadata :=
           match groundingMetadata candidate with
           | Some g => if Json.truthy g then Some g else groundingMetadata first
           | None => groundingMetadata first
           end |} :: others
  | [] => []
  end.

(** The body of the [for await] loop of [getCompletionNative]; the state
    is the pair of [candidates] and [usageMetadata]. *)
Definition absorbChunk (acc : list Candidate * option UsageMetadata)
    (chunk : GeminiNativeStreamChunk) : list Candidate * option UsageMetadata :=
  if String.eqb (chunk_type chunk) "gemini_native" then
    (fold_left absorbCandidate (candidates (data chunk)) (fst acc),
     match usageMetadata (data chunk) with
     | Some u => Some u
     | None => snd acc
     end)
  else acc.

(** [getCompletionNative] *)
Definition getCompletionNative {Y : Type} (modelId : string) (request : Json.t)
    : Prog Y GeminiNativeResponse :=
  AuthManager.initializeAuth env ;;
  projectId <- discoverProjectId ;;
  let streamRequest := buildNativeStreamRequest modelId projectId request in
  acc <- forAwait (performNativeStreamRequest 2 streamRequest modelId false)
           (fun acc chunk => Ret (absorbChunk acc chunk)) ([], None) ;;
  Ret {| candidates := fst acc; usageMetadata := snd acc; modelVersion := modelId |}.

End Methods.

End GeminiApiClient.

(** ** Tool schemas ([helpers/generation-config-validator]) *)

Definition UNSUPPORTED_SCHEMA_KEYS : list string :=
  ["$schema"; "$id"; "$ref"; "$defs"; "$comment"; "const"; "anyOf"; "oneOf"; "allOf";
   "not"; "if"; "then"; "else"; "dependentSchemas"; "dependentRequired";
   "additionalItems"; "unevaluatedItems"; "unevaluatedProperties"; "contentEncoding";
   "contentMediaType"; "contentSchema"; "deprecated"; "readOnly"; "writeOnly";
   "examples"; "default"; "definitions"; "strict"].

(** A schema is a JSON value.  An object is the list of its entries as
    [Object.entries] gives them; where a key is repeated, as [Json.parse]
    leaves it, the last entry is the property and an assignment sets
    them all.  The key [__proto__], which an assignment treats as the
    prototype and not as a property, is outside the model. *)
Module Schema.

(** [obj[key] = value] for a key the object has. *)
Fixpoint update (key : string) (value : Json.t) (fields : list (string * Json.t))
    : list (string * Json.t) :=
  match fields with
  | [] => []
  | (k, v) :: rest =>
      (k, if String.eqb key k then value else v) :: update key value rest
  end.

Section Sanitizer.
(** [String.prototype.toLowerCase], and [Object.keys] of a string (the
    indices of its code units), as the runtime gives them. *)
Variable toLowerCase : string -> string.
Variable String_keys : string -> list string.

(** [Object.keys(value)] for a value that is truthy. *)
Definition Object_keys (value : Json.t) : list string :=
  match value with
  | Json.Obj fields => map fst fields
  | Json.Arr items => map (fun i => show_Z (Z.of_nat i)) (seq 0 (List.length items))
  | Json.Str s => String_keys s
  | _ => []
  end.

(** [UNSUPPORTED_SCHEMA_KEYS.includes(key) || key.startsWith("$")] *)
Definition unsupported (key : string) : bool :=
  existsb (String.eqb key) UNSUPPORTED_SCHEMA_KEYS || startsWith "$" key.

(** [propertyNames.includes(field)]: a field that is no string is equal
    to no name. *)
Definition named (propertyNames : list string) (field : Json.t) : bool :=
  match field with
  | Json.Str s => existsb (String.eqb s) propertyNames
  | _ => false
  end.

(** The step that keeps in [required] the fields that [properties] has. *)
Definition filterRequired (sanitized : list (string * Json.t)) : list (string * Json.t) :=
  match Json.assoc "properties" sanitized, Json.assoc "required" sanitized with
  | Some properties, Some (Json.Arr required) =>
      if Json.truthy properties then
        let propertyNames := Object_keys properties in
        update "required" (Json.Arr (filter (named propertyNames) required)) sanitized
      else sanitized
  | _, _ => sanitized
  end.

(** The step that puts a [type] that is a string in lower case. *)
Definition lowerType (sanitized : list (string * Json.t)) : list (string * Json.t) :=
  match Json.assoc "type" sanitized with
  | Some (Json.Str t) => update "type" (Json.Str (toLowerCase t)) sanitized
  | _ => sanitized
  end.

(** [sanitizeSchemaForGemini] *)
Fixpoint sanitizeSchemaForGemini (schema : Json.t) : Json.t :=
  match schema with
  | Json.Arr items => Json.Arr (map sanitizeSchemaForGemini items)
  | Json.Obj fields =>
      let sanitized :=
        (fix entries (fields : list (string * Json.t)) : list (string * Json.t) :=
           match fields with
           | [] => []
           | (key, value) :: rest =>
               if unsupported key then entries rest
               else (key, sanitizeSchemaForGemini value) :: entries rest
           end) fields in
      Json.Obj (lowerType (filterRequired sanitized))
  | _ => schema
  end.

End Sanitizer.

End Schema.

(** ** The API key middleware ([middlewares/auth]) *)

Module Middleware.

(** What the middleware reads of the request: the path, and what
    [c.req.header] and [c.req.query] return for the three places a key
    may be in, [None] for [undefined]. *)
Record Request : Type := mkRequest {
  path : string;
  header_x_goog_api_key : option string;
  query_key : option string;
  header_Authorization : option string
}.

(** What the middleware does with the request: it hands it on with
    [next()], or answers [401] with a message. *)
Inductive Handled : Type :=
| Next
| Unauthenticated (message : string).

Definition publicEndpoints : list string := ["/"; "/health"].

Section Auth.
(** [c.env.GEMINI_API_KEY] *)
Variable GEMINI_API_KEY : option string.
(** The first group of [authHeader.match(/^Bearer\s+(.+)$/)], [None]
    when the header does not match. *)
Variable Bearer : string -> option string.

Definition geminiApiKeyAuth (req : Request) : Handled :=
  if existsb (fun endpoint => String.eqb (path req) endpoint) publicEndpoints then Next
  else
    match GEMINI_API_KEY with
    | Some key =>
        if truthy_string key then
          let providedKey := header_x_goog_api_key req in
          let providedKey :=
            if negb (truthy_opt providedKey)
            then (if truthy_opt (query_key req) then query_key req else None)
            else providedKey in
          let providedKey :=
            if negb (truthy_opt providedKey) then
              match header_Authorization req with
              | Some authHeader =>
                  if truthy_string authHeader then
                    match Bearer authHeader with
                    | Some group => Some group
                    | None => providedKey
                    end
                  else providedKey
              | None => providedKey
              end
            else providedKey in
          match providedKey with
          | Some provided =>
              if negb (truthy_string provided) then
                Unauthenticated
                  "Missing API key. Provide via 'x-goog-api-key' header or '?key=' query parameter."
              else if negb (String.eqb provided key) then Unauthenticated "Invalid API key"
              else Next
          | None =>
              Unauthenticated
                "Missing API key. Provide via 'x-goog-api-key' header or '?key=' query parameter."
          end
        else Next
    | None => Next
    end.

End Auth.

End Middleware.

(** ** The stream transformer ([stream-transformer]) *)

Module GeminiNativeStreamTransformer.

Section Transform.
(** [JSON.stringify] of the data of a chunk. *)
Variable JSON_stringify : GeminiNativeResponse -> string.

(** [transform]: what is enqueued for a chunk, as the text that is
    encoded.  The data of a chunk is a response with [candidates], so the
    type guard holds of it. *)
Definition transform (chunk : GeminiNativeStreamChunk) : list string :=
  if String.eqb (chunk_type chunk) "gemini_native"
  then ["data: " ++ JSON_stringify (data chunk) ++ nl ++ nl]
  else [].

End Transform.

End GeminiNativeStreamTransformer.

(** * The vocabulary of the properties *)

(** ** Outcomes *)

(** The outcome of [m] followed by what [next] makes of its result. *)
Definition andThen {Y A B : Type} (o : Outcome Y A) (next : A -> World -> Outcome Y B)
    : Outcome Y B :=
  match result o with
  | Returned a =>
      let o' := next a (final o) in
      mkOutcome (yields o ++ yields o') (result o') (final o')
  | Thrown e => mkOutcome (yields o) (Thrown e) (final o)
  | Hangs => mkOutcome (yields o) Hangs (final o)
  end.

(** The outcome of [m] with a thrown value handed to [handler]. *)
Definition orElse {Y A : Type} (o : Outcome Y A) (handler : JsValue -> World -> Outcome Y A)
    : Outcome Y A :=
  match result o with
  | Thrown e =>
      let o' := handler e (final o) in
      mkOutcome (yields o ++ yields o') (result o') (final o')
  | _ => o
  end.

(** A property of everything a program can yield, read off its text. *)
Fixpoint AllYields {Y A : Type} (P : Y -> Prop) (p : Prog Y A) : Prop :=
  match p with
  | Yield y k => P y /\ AllYields P k
  | Vis op k => forall r, AllYields P (k r)
  | _ => True
  end.

(** A property of every operation a program can perform, read off its
    text. *)
Fixpoint AllOps {Y A : Type} (P : forall R : Type, Op R -> Prop) (p : Prog Y A) : Prop :=
  match p with
  | Yield _ k => AllOps P k
  | Vis op k => P _ op /\ forall r, AllOps P (k r)
  | _ => True
  end.

(** ** The credential manager *)

(** The message of the guard that opens [initializeAuth]. *)
Definition not_set : JsValue :=
  newError
    "`GCP_SERVICE_ACCOUNT` environment variable not set. Please provide OAuth2 credentials JSON.".

(** The cached credential gives something to work with: an access token
    that is still fresh, or a refresh token. *)
Definition cache_usable (w : World) : bool :=
  match tokenFile w with
  | Some (TokenJson d) =>
      (TOKEN_BUFFER_TIME <? CachedTokenData.expiry_date d - clock w)
      || truthy_opt (CachedTokenData.refresh_token d)
  | _ => false
  end.

(** What [cacheTokenToFile] leaves in the file for the seed credential
    cached at time [now]. *)
Definition seed_record (c : OAuth2Credentials.t) (now : Z) : CachedTokenData.t :=
  CachedTokenData.mk (OAuth2Credentials.access_token c)
    (Some (OAuth2Credentials.refresh_token c))
    (OAuth2Credentials.expiry_date c) now.

(** ** The retry and fallback machine *)

Section Machine.
Variable env : Env.
Variable JSON_parse : string -> option Wire.Event.

(** An attempt that is marked as a retry. *)
Definition retried (streamRequest : StreamRequest) (modelId : string)
    : Prog GeminiNativeStreamChunk unit :=
  GeminiApiClient.performNativeStreamRequest env JSON_parse 1%nat streamRequest modelId true.

(** The [fetch] of an attempt: what it settles to, and the world after. *)
Definition exchange (streamRequest : StreamRequest) (w : World)
    : Settled StreamReply * World :=
  handle (FetchStream streamRequest (accessToken w) CONNECTION_TIMEOUT_MS) w.

(** Rule 1 answers the response: a 401. *)
Definition reauth_applies (response : StreamReply) : bool :=
  negb (ok (status response)) && (status response =? 401).

(** Rule 2 answers the response: a rate-limit status, with the fallback
    switched on and a substitute configured for the model. *)
Definition fallback_applies (modelId : string) (response : StreamReply) : bool :=
  negb (ok (status response)) && negb (status response =? 401)
  && AutoModelSwitchingHelper.isRateLimitStatus (status response)
  && AutoModelSwitchingHelper.isEnabled env
  && match AutoModelSwitchingHelper.getFallbackModel modelId with
     | Some _ => true
     | None => false
     end.

(** Neither rule 1 nor rule 2 answers what the request of the attempt
    gets: the attempt succeeds or fails on its own. *)
Definition on_its_own (streamRequest : StreamRequest) (modelId : string) (w : World) : bool :=
  match fst (exchange streamRequest w) with
  | Fulfilled response => negb (reauth_applies response) && negb (fallback_applies modelId response)
  | Rejected _ => true
  end.

(** What the [catch] block of an attempt that is not a retry does with a
    failure [e] at world [w], the attempt having started at [startTime]. *)
Definition recover (streamRequest : StreamRequest) (modelId : string) (startTime : Z)
    (e : JsValue) (w : World) : Outcome GeminiNativeStreamChunk unit :=
  if GeminiApiClient.isAbortError e || (clock w - startTime <? QUICK_FAIL_THRESHOLD_MS)
  then run (retried streamRequest modelId) w
  else mkOutcome [] (Thrown e) w.

End Machine.

(** The operations of the loop over the body: reads of the stream. *)
Definition reads_only (R : Type) (op : Op R) : Prop :=
  match op with
  | ReaderRead _ _ _ => True
  | _ => False
  end.

(** Reading a stream changes nothing but the clock. *)
Definition same_but_clock (w w' : World) : Prop :=
  accessToken w' = accessToken w /\ projectId w' = projectId w
  /\ tokenFile w' = tokenFile w /\ storage_fails w' = storage_fails w
  /\ cancel_semantics w' = cancel_semantics w
  /\ refresh_replies w' = refresh_replies w /\ endpoint_replies w' = endpoint_replies w
  /\ stream_replies w' = stream_replies w /\ requests w' = requests w.

(** ** Chunks and their aggregation *)

Definition native (chunk : GeminiNativeStreamChunk) : Prop :=
  chunk_type chunk = "gemini_native".

(** The total of a chunk is the sum of its two counts, added as numbers
    are. *)
Definition balanced (chunk : GeminiNativeStreamChunk) : Prop :=
  forall u, usageMetadata (data chunk) = Some u ->
            totalTokenCount u = Number.plus (promptTokenCount u) (candidatesTokenCount u).

(** A count that is absent counts as zero, and so does one that is
    [NaN]; a zero counts as the positive zero. *)
Definition count (n : option Number.t) : Number.t :=
  match n with
  | Some (SpecFloat.S754_finite s m e) => SpecFloat.S754_finite s m e
  | Some (SpecFloat.S754_infinity s) => SpecFloat.S754_infinity s
  | _ => Number.zero
  end.

(** A safe integer: below [2 ^ 53] in absolute value, where the numbers
    hold every integer exactly. *)
Definition safe (n : Z) : Prop := Z.abs n < 2 ^ 53.

(** The mantissa of 53 bits of a positive safe integer. *)
Definition mantissa (n : positive) : positive :=
  Z.to_pos (Zpos n * 2 ^ (53 - Zpos (SpecFloat.digits2_pos n))).

(** Every candidate that arrives, in the order of arrival. *)
Definition arriving (chunks : list GeminiNativeStreamChunk) : list Candidate :=
  flat_map (fun chunk => candidates (data chunk)) chunks.

(** The last value seen, starting from [init]. *)
Definition lastSeenFrom {A B : Type} (init : option B) (f : A -> option B) (l : list A)
    : option B :=
  fold_left (fun acc x => match f x with Some b => Some b | None => acc end) l init.

Definition lastSeen {A B : Type} (f : A -> option B) (l : list A) : option B :=
  lastSeenFrom None f l.

(** The [finishReason] a candidate shows: one that is not empty. *)
Definition shown_finishReason (c : Candidate) : option string :=
  if truthy_opt (finishReason c) then finishReason c else None.

(** The [groundingMetadata] a candidate shows: one that is truthy. *)
Definition shown_groundingMetadata (c : Candidate) : option Json.t :=
  match groundingMetadata c with
  | Some g => if Json.truthy g then Some g else None
  | None => None
  end.

(** The one candidate made of all that arrived. *)
Definition merged (cs : list Candidate) : Candidate :=
  {| content := {| role := "model";
                   parts := List.concat (map (fun c => parts (content c)) cs) |};
     finishReason := lastSeen shown_finishReason cs;
     groundingMetadata := lastSeen shown_groundingMetadata cs |}.

(** The response [generateAggregate] is to give for a sequence of chunks. *)
Definition aggregate (modelId : string) (chunks : list GeminiNativeStreamChunk)
    : GeminiNativeResponse :=
  {| candidates := match arriving chunks with
                   | [] => []
                   | _ :: _ => [merged (arriving chunks)]
                   end;
     usageMetadata := lastSeen (fun chunk => usageMetadata (data chunk)) chunks;
     modelVersion := modelId |}.

(** The first candidate of the accumulator after more candidates came. *)
Definition extended (first : Candidate) (cs : list Candidate) : Candidate :=
  {| content := {| role := role (content first);
                   parts := (parts (content first)
                             ++ List.concat (map (fun c => parts (content c)) cs))%list |};
     finishReason := lastSeenFrom (finishReason first) shown_finishReason cs;
     groundingMetadata := lastSeenFrom (groundingMetadata first) shown_groundingMetadata cs |}.

(** ** Concurrent callers *)

(** The event loop runs one call at a time and changes hands only where a
    call awaits.  Each [Call] starts a new [initializeAuth()], each
    [Resume i] lets the operation the [i]-th call awaits complete and runs
    that call on to its next await. *)
Module EventLoop.

Definition Task : Type := Prog Empty_set unit.

(** The operations that are no await. *)
Definition synchronous {R : Type} (op : Op R) : bool :=
  match op with
  | DateNow | GetAccessToken | SetAccessToken _ | GetProjectId | SetProjectId _ => true
  | _ => false
  end.

(** Run a call up to its next await. *)
Fixpoint advance (t : Task) (w : World) : Task * World :=
  match t with
  | Vis op k =>
      if synchronous op
      then let '(r, w') := handle op w in advance (k r) w'
      else (t, w)
  | _ => (t, w)
  end.

Record System : Type := mkSystem {
  world : World;
  tasks : list Task
}.

Inductive Action : Type :=
| Call
| Resume (i : nat).

Definition replace_nth {A : Type} (i : nat) (x : A) (l : list A) : list A :=
  (firstn i l ++ x :: skipn (S i) l)%list.

Section Loop.
Variable env : Env.

Definition act (s : System) (a : Action) : System :=
  match a with
  | Call =>
      let '(t, w') := advance (AuthManager.initializeAuth env) (world s) in
      mkSystem w' (tasks s ++ [t])
  | Resume i =>
      match nth_error (tasks s) i with
      | Some (Vis op k) =>
          let '(r, w') := handle op (world s) in
          let '(t, w'') := advance (k r) w' in
          mkSystem w'' (replace_nth i t (tasks s))
      | _ => s
      end
  end.

Definition exec (acts : list Action) (s : System) : System := fold_left act acts s.

End Loop.

(** A call that has sent a refresh request and awaits the response. *)
Definition awaits_refresh (t : Task) : bool :=
  match t with
  | Vis op _ =>
      match op with
      | FetchRefresh _ => true
      | _ => false
      end
  | _ => false
  end.

Definition refreshes_outstanding (s : System) : nat :=
  List.length (filter awaits_refresh (tasks s)).

(** Refresh is single-flight from [w]: however the calls interleave, at
    most one refresh request is outstanding. *)
Definition single_flight (env : Env) (w : World) : Prop :=
  forall acts, (refreshes_outstanding (exec env acts (mkSystem w [])) <= 1)%nat.

(** The calls of [n] callers, each taken up to its refresh request. *)
Fixpoint callers (n : nat) : list Action :=
  match n with
  | O => []
  | S n' => (callers n' ++ [Call; Resume n'; Resume n'])%list
  end.

End EventLoop.

(** ** The decoder as a function of the text *)

Section Decoding.
Context {J : Type}.
Variable parse : string -> option J.

(** What [processLines] yields and returns. *)
Fixpoint lines_events (lines : list string) (objectBuffer : string) : list J * string :=
  match lines with
  | [] => ([], objectBuffer)
  | line :: rest =>
      if trim_is_empty line then
        if truthy_string objectBuffer then
          let '(events, ob) := lines_events rest EmptyString in
          (match parse objectBuffer with
           | Some j => j :: events
           | None => events
           end, ob)
        else lines_events rest objectBuffer
      else if startsWith "data: " line then
        lines_events rest (objectBuffer ++ substring_from 6 line)
      else lines_events rest objectBuffer
  end.

(** The flush at the end of the stream. *)
Definition flush (objectBuffer : string) : list J :=
  if truthy_string objectBuffer then
    match parse objectBuffer with
    | Some j => [j]
    | None => []
    end
  else [].

(** The events of a whole text: its complete lines, then the flush. *)
Definition decode (text : string) : list J :=
  let lines := split_lines text in
  let '(events, ob) := lines_events (removelast lines) EmptyString in
  (events ++ flush ob)%list.

End Decoding.

(** A delivery: pieces of text, each with the time it takes to come. *)
Definition arrivals (pieces : list (Z * string)) : Body :=
  map (fun p => Arrives (fst p) (snd p)) pieces.

Definition in_time (idle : Z) (pieces : list (Z * string)) : Prop :=
  Forall (fun p => fst p <= idle) pieces.

Definition text_of (pieces : list (Z * string)) : string :=
  fold_right (fun p rest => snd p ++ rest) EmptyString pieces.

(** A stream that does not fail by itself. *)
Definition no_error (e : ReadEvent) : Prop :=
  match e with
  | Errors _ _ => False
  | _ => True
  end.

(** ** A reading of [JSON.parse] at the shape of a stream event *)

(** The fields of a candidate and the counts are read at their declared
    types: a string, an array, a number.  A field that holds [null] or is
    missing is absent.  A field that holds a value of another type is read
    as absent too; where that value is truthy the code would pass it on as
    it is, which the typed chunk cannot hold. *)
Definition number_of (j : option Json.t) : option Number.t :=
  match j with
  | Some (Json.Num m e) => Some (Number.of_decimal m e)
  | _ => None
  end.

Definition string_of (j : option Json.t) : option string :=
  match j with
  | Some (Json.Str s) => Some s
  | _ => None
  end.

Definition array_of (j : option Json.t) : option (list Json.t) :=
  match j with
  | Some (Json.Arr items) => Some items
  | _ => None
  end.

(** An item of [candidates]: [null] stays [null], any other value is read
    for the three fields of a candidate. *)
Definition candidate_of (j : Json.t) : option Wire.Candidate :=
  match j with
  | Json.Null => None
  | _ =>
      Some {| Wire.parts :=
                match Json.get "content" j with
                | Some c => array_of (Json.get "parts" c)
                | None => None
                end;
              Wire.finishReason := string_of (Json.get "finishReason" j);
              Wire.groundingMetadata := Json.get "groundingMetadata" j |}
  end.

(** [response.candidates]: an array, a falsy value, or a truthy value that
    is no array. *)
Definition candidates_of (j : option Json.t) : option Wire.Candidates :=
  match j with
  | Some (Json.Arr items) => Some (Wire.Items (map candidate_of items))
  | Some v => if Json.truthy v then Some Wire.NotAnArray else None
  | None => None
  end.

(** [response.usageMetadata], when it is truthy. *)
Definition usage_of (j : option Json.t) : option Wire.UsageMetadata :=
  match j with
  | Some u =>
      if Json.truthy u then
        Some {| Wire.promptTokenCount := number_of (Json.get "promptTokenCount" u);
                Wire.candidatesTokenCount := number_of (Json.get "candidatesTokenCount" u);
                Wire.totalTokenCount := number_of (Json.get "totalTokenCount" u) |}
      else None
  | None => None
  end.

Definition event_of (j : Json.t) : Wire.Event :=
  match j with
  | Json.Null => Wire.Null
  | _ =>
      Wire.mkEvent
        match Json.get "response" j with
        | Some r =>
            Some {| Wire.candidates := candidates_of (Json.get "candidates" r);
                    Wire.usageMetadata := usage_of (Json.get "usageMetadata" r) |}
        | None => None
        end
  end.

Definition parse_event (text : string) : option Wire.Event :=
  option_map event_of (Json.parse text).

(** ** Worlds for the concrete runs *)

Definition seed : OAuth2Credentials.t :=
  OAuth2Credentials.mk "seed-access" "seed-refresh" "cloud-platform" "Bearer" "id" 9000000.

Definition configured : Env :=
  {| GCP_SERVICE_ACCOUNT := Some (SeedJson seed);
     GEMINI_PROJECT_ID := Some "project-1";
     ENABLE_AUTO_MODEL_SWITCHING := Some "true" |}.

Definition unconfigured : Env :=
  {| GCP_SERVICE_ACCOUNT := None;
     GEMINI_PROJECT_ID := Some "project-1";
     ENABLE_AUTO_MODEL_SWITCHING := Some "true" |}.

(** Nothing cached, nothing scripted, the clock at one second. *)
Definition quiet : World :=
  {| clock := 1000; accessToken := Some "token-0"; projectId := None; tokenFile := None;
     storage_fails := false; cancel_semantics := ClosesStream;
     refresh_replies := []; endpoint_replies := []; stream_replies := [];
     requests := [] |}.

Definition with_stream_replies (rs : list (Timed StreamReply)) (w : World) : World :=
  mkWorld (clock w) (accessToken w) (projectId w) (tokenFile w) (storage_fails w)
    (cancel_semantics w) (refresh_replies w) (endpoint_replies w) rs (requests w).

Definition with_endpoint_replies (rs : list (Timed EndpointReply)) (w : World) : World :=
  mkWorld (clock w) (accessToken w) (projectId w) (tokenFile w) (storage_fails w)
    (cancel_semantics w) (refresh_replies w) rs (stream_replies w) (requests w).

Definition with_cancel_semantics (sem : CancelSemantics) (w : World) : World :=
  mkWorld (clock w) (accessToken w) (projectId w) (tokenFile w) (storage_fails w)
    sem (refresh_replies w) (endpoint_replies w) (stream_replies w) (requests w).

Definition with_tokenFile (f : option FileText) (w : World) : World := set_tokenFile f w.

(** A response with a status that is not ok, after [ms] milliseconds. *)
Definition refused (code ms : Z) : Timed StreamReply :=
  mkTimed ms (Fulfilled (mkStreamReply code "refused" None)).

(** A response that streams [events] and closes. *)
Definition streams (ms : Z) (events : Body) : Timed StreamReply :=
  mkTimed ms (Fulfilled (mkStreamReply 200 EmptyString (Some events))).

(** The text of an event with one candidate that has one text part. *)
Definition text_event (text finish : string) : string :=
  "data: {" ++ dq ++ "response" ++ dq ++ ":{" ++ dq ++ "candidates" ++ dq ++ ":[{"
  ++ dq ++ "content" ++ dq ++ ":{" ++ dq ++ "parts" ++ dq ++ ":[{" ++ dq ++ "text" ++ dq
  ++ ":" ++ dq ++ text ++ dq ++ "}]}," ++ dq ++ "finishReason" ++ dq ++ ":" ++ dq ++ finish
  ++ dq ++ "}]}}" ++ nl ++ nl.

(** The chunk the client makes of such an event. *)
Definition text_chunk (modelId text finish : string) : GeminiNativeStreamChunk :=
  {| chunk_type := "gemini_native";
     data := {| candidates :=
                  [ {| content := {| role := "model";
                                     parts := [Json.Obj [("text", Json.Str text)]] |};
                       finishReason := Some finish;
                       groundingMetadata := None |} ];
                usageMetadata := None;
                modelVersion := modelId |} |}.

Definition pro : string := "gemini-2.5-pro".

Definition flash : string := "gemini-2.5-flash".

Definition ask (modelId : string) : StreamRequest :=
  {| model := modelId; project := "project-1"; request := Json.Obj [] |}.

Definition sent_models (w : World) : list string :=
  flat_map (fun r => match r with
                     | ReqStream req _ => [model req]
                     | _ => []
                     end) (requests w).

Definition frame_a : string := "data: {" ++ dq ++ "a" ++ dq ++ ":1}" ++ nl.

Definition frame_bad : string := "data: {bad" ++ nl.

Definition frame_b : string := "data: {" ++ dq ++ "b" ++ dq ++ ":2}" ++ nl.

(** A body that sends one event and then nothing. *)
Definition stalling : World :=
  with_stream_replies [streams 100 [Arrives 10 (text_event "hello" "STOP")]] quiet.

(** Both the model and its substitute are rate-limited, within a second;
    the third request is answered. *)
Definition both_limited : World :=
  with_stream_replies
    [refused 429 100; refused 429 100;
     streams 100 [Arrives 10 (text_event "from pro" "STOP"); Closes 10]]
    quiet.

(** Two 401 within a second; the third request is answered. *)
Definition twice_unauthorized : World :=
  with_stream_replies
    [refused 401 100; refused 401 100;
     streams 100 [Arrives 10 (text_event "hello" "STOP"); Closes 10]]
    quiet.

Definition cached_fresh : CachedTokenData.t :=
  CachedTokenData.mk "cached-access" (Some "cached-refresh") 9000000 500.

Definition cached_stale : CachedTokenData.t :=
  CachedTokenData.mk "old-access" (Some "cached-refresh") 2000 500.

(** The model is rate-limited and the substitute answers. *)
Definition limited_once : World :=
  with_stream_replies
    [refused 429 100; streams 100 [Arrives 10 (text_event "from flash" "STOP"); Closes 10]]
    quiet.

(** The request fails with a 500 after 100 ms; the second try is
    answered. *)
Definition failing_once : World :=
  with_stream_replies
    [refused 500 100; streams 100 [Arrives 10 (text_event "hello" "STOP"); Closes 10]]
    quiet.

(** The upstream answers and closes the stream at once. *)
Definition silent_stream : World := with_stream_replies [streams 100 [Closes 10]] quiet.

(** Three chunks of one text part each. *)
Definition three_chunks : World :=
  with_stream_replies
    [streams 100 [Arrives 5 (text_event "one" "OTHER"); Arrives 5 (text_event "two" "STOP");
                  Arrives 5 (text_event "three" "MAX_TOKENS"); Closes 5]]
    quiet.

(** A cached credential that has expired and carries a refresh token. *)
Definition stale_cache : World := with_tokenFile (Some (TokenJson cached_stale)) quiet.

(** ** The claims as the spec words them, where the code differs *)

(** C8 as the spec words it is [EventLoop.single_flight]. *)

(** C6 as the spec words it: with a fresh cached credential
    [initializeAuth] adopts it and returns, whatever the configuration. *)
Definition fresh_cache_always_adopted : Prop :=
  forall (env : Env) (w : World) (d : CachedTokenData.t),
    storage_fails w = false ->
    tokenFile w = Some (TokenJson d) ->
    CachedTokenData.expiry_date d - clock w > TOKEN_BUFFER_TIME ->
    run (Y := Empty_set) (AuthManager.initializeAuth env) w
    = mkOutcome [] (Returned tt) (set_accessToken (Some (CachedTokenData.access_token d)) w).

(** C5 as the spec words it: whatever the failure, if it is an abort or
    comes within five seconds, the same request is made once more. *)
Definition quick_failure_always_retried_unchanged : Prop :=
  forall (env : Env) (parse : string -> option Wire.Event) (streamRequest : StreamRequest)
         (modelId : string) (w : World) (e : JsValue),
    let o1 := run (retried env parse streamRequest modelId) w in
    let o2 := run (retried env parse streamRequest modelId) (final o1) in
    result o1 = Thrown e ->
    GeminiApiClient.isAbortError e = true
      \/ clock (final o1) - clock w < QUICK_FAIL_THRESHOLD_MS ->
    run (GeminiApiClient.performNativeStreamRequest env parse 2 streamRequest modelId false) w
    = mkOutcome (yields o1 ++ yields o2) (result o2) (final o2)
    /\ requests (final o2)
       = (requests w ++ [ReqStream streamRequest (accessToken w);
                         ReqStream streamRequest (accessToken w)])%list.

(** C9 as the spec words it: the response always has one candidate, made
    of all that arrived. *)
Definition always_one_candidate : Prop :=
  forall (env : Env) (parse : string -> option Wire.Event) (modelId : string)
         (request : Json.t) (projectId : string) (chunks : list GeminiNativeStreamChunk)
         (w w2 : World),
    let prelude : Prog Empty_set string :=
      (AuthManager.initializeAuth env ;; GeminiApiClient.discoverProjectId env)%prog in
    result (run prelude w) = Returned projectId ->
    run (GeminiApiClient.performNativeStreamRequest env parse 2
           (GeminiApiClient.buildNativeStreamRequest modelId projectId request) modelId false)
        (final (run prelude w))
    = mkOutcome chunks (Returned tt) w2 ->
    result (run (Y := Empty_set)
              (GeminiApiClient.getCompletionNative env parse modelId request) w)
    = Returned {| candidates := [merged (arriving chunks)];
                  usageMetadata := lastSeen (fun chunk => usageMetadata (data chunk)) chunks;
                  modelVersion := modelId |}.

(** * More vocabulary *)

(** ** The token file *)

(** What [getTokenFromFile] reads in a world. *)
Definition cached (w : World) : option CachedTokenData.t :=
  if storage_fails w then None
  else match tokenFile w with
       | Some (TokenJson d) => Some d
       | _ => None
       end.

(** The world after a write of [text] that the store may refuse. *)
Definition written (text : FileText) (w : World) : World :=
  if storage_fails w then w else set_tokenFile (Some text) w.

(** The world after [clearTokenCache]. *)
Definition cleared (w : World) : World :=
  if storage_fails w then w
  else match tokenFile w with
       | Some _ => set_tokenFile (Some NotJson) w
       | None => w
       end.

(** ** The refresh *)

(** The refresh token to keep after a refresh that returned [issued]. *)
Definition nextRefreshToken (issued : option string) (refreshToken : string) : string :=
  match issued with
  | Some t => if truthy_string t then t else refreshToken
  | None => refreshToken
  end.

(** The world once the refresh request for [rt] has been answered. *)
Definition after_refresh_request (rt : string) (w : World) : World :=
  tick (latency (next_reply (refresh_replies w))) (pop_refresh (sent (ReqRefresh rt) w)).

(** The credential a successful refresh stores: the new access token, the
    refresh token to keep, and the expiry counted from the time of the
    answer. *)
Definition refreshed_record (data : TokenRefreshResponse.t) (rt : string) (now : Z)
    : CachedTokenData.t :=
  CachedTokenData.mk (TokenRefreshResponse.access_token data)
    (Some (nextRefreshToken (TokenRefreshResponse.refresh_token data) rt))
    (now + TokenRefreshResponse.expires_in data * 1000) now.

(** A request to the refresh endpoint. *)
Definition is_refresh (r : NetRequest) : Prop :=
  match r with
  | ReqRefresh _ => True
  | _ => False
  end.

(** An [Error] whose message begins with [prefix]. *)
Definition error_with_prefix (prefix : string) (e : JsValue) : Prop :=
  exists rest, e = newError (prefix ++ rest).

(** The operations of the credential manager: the clock, its own token,
    the cache file and the refresh endpoint. *)
Definition auth_op (R : Type) (op : Op R) : Prop :=
  match op with
  | DateNow | GetAccessToken | SetAccessToken _ | FileExists | FileRead | FileWrite _
  | FetchRefresh _ => True
  | _ => False
  end.

(** What the credential manager leaves alone. *)
Definition auth_frame (w w' : World) : Prop :=
  projectId w' = projectId w /\ storage_fails w' = storage_fails w
  /\ cancel_semantics w' = cancel_semantics w
  /\ endpoint_replies w' = endpoint_replies w /\ stream_replies w' = stream_replies w.

(** ** Calls of the Code Assist endpoint *)

(** The operations of [callEndpoint]: those of the manager, and the call. *)
Definition call_op (R : Type) (op : Op R) : Prop :=
  match op with
  | FetchEndpoint _ _ _ => True
  | _ => auth_op op
  end.

(** What [callEndpoint] leaves alone. *)
Definition call_frame (w w' : World) : Prop :=
  projectId w' = projectId w /\ storage_fails w' = storage_fails w
  /\ cancel_semantics w' = cancel_semantics w /\ stream_replies w' = stream_replies w.

(** A request that a call of [method] with [body] may send: a refresh, or
    the call itself. *)
Definition is_call (method : string) (body : Json.t) (r : NetRequest) : Prop :=
  match r with
  | ReqRefresh _ => True
  | ReqEndpoint m b _ => m = method /\ b = body
  | ReqStream _ _ => False
  end.

Definition is_endpoint (r : NetRequest) : bool :=
  match r with
  | ReqEndpoint _ _ _ => true
  | _ => false
  end.

(** How many of the requests went to the endpoint. *)
Definition endpoint_calls (l : list NetRequest) : nat := List.length (filter is_endpoint l).

(** The error of [callEndpoint] for a response that is not ok. *)
Definition call_failed (status : Z) (text : string) : JsValue :=
  newError ("API call failed with status " ++ show_Z status ++ ": " ++ text).

(** How a level of [callEndpoint] that does not go on to a second ends,
    for what its request settles to. *)
Definition call_result (a : Settled EndpointReply) : Result Json.t :=
  match a with
  | Rejected e => Thrown e
  | Fulfilled response =>
      if ok (ep_status response) then
        match Json.parse (ep_text response) with
        | Some j => Returned j
        | None => Thrown SyntaxError
        end
      else Thrown (call_failed (ep_status response) (ep_text response))
  end.

(** The response is a 401. *)
Definition unauthorized (a : Settled EndpointReply) : bool :=
  match a with
  | Fulfilled response => ep_status response =? 401
  | Rejected _ => false
  end.

(** ** Project discovery *)

(** The one error [discoverProjectId] throws. *)
Definition could_not_discover : JsValue :=
  newError
    "Could not discover project ID. Make sure you're authenticated and consider setting GEMINI_PROJECT_ID.".

(** The body of the [loadCodeAssist] call. *)
Definition loadCodeAssist_body : Json.t :=
  Json.Obj [("cloudaicompanionProject", Json.Str "default-project");
            ("metadata", Json.Obj [("duetProject", Json.Str "default-project")])].

(** ** Texts of the event stream *)

(** A text without a line feed. *)
Fixpoint single_line (s : string) : bool :=
  match s with
  | EmptyString => true
  | String c rest => negb (Ascii.eqb c LF) && single_line rest
  end.

(** The lines, each closed by a line feed. *)
Definition unlines (lines : list string) : string :=
  fold_right (fun line rest => line ++ nl ++ rest) EmptyString lines.

(** The lines of an event with the given [data:] payloads: one [data: ]
    line for each, then the blank line that ends the event. *)
Definition frame_lines (payloads : list string) : list string :=
  (map (append "data: ") payloads ++ [EmptyString])%list.

(** The text of a sequence of events. *)
Definition frames_text (frames : list (list string)) : string :=
  unlines (flat_map frame_lines frames).

(** The payloads of an event, joined as the decoder joins them. *)
Definition joined (payloads : list string) : string :=
  fold_right append EmptyString payloads.

(** The time a delivery takes. *)
Definition total_delay (pieces : list (Z * string)) : Z :=
  fold_right (fun p rest => fst p + rest) 0 pieces.

Section Events.
Context {J : Type}.
Variable parse : string -> option J.

(** The events of the complete lines of a text, and what is left in
    [objectBuffer] after them. *)
Definition complete_events (text : string) : list J :=
  fst (lines_events parse (removelast (split_lines text)) EmptyString).

Definition pending_event (text : string) : string :=
  snd (lines_events parse (removelast (split_lines text)) EmptyString).

End Events.

(** The error of the idle timer. *)
Definition idle_timeout (idle : Z) : JsValue :=
  newError ("Stream idle timeout after " ++ show_Z idle ++ "ms").

(** The world after the pieces of a delivery have come. *)
Definition after_delivery (pieces : list (Z * string)) (w : World) : World :=
  fold_left (fun w p => tick (fst p) w) pieces w.

(** ** Attempts of the streaming request *)

Definition is_stream (r : NetRequest) : bool :=
  match r with
  | ReqStream _ _ => true
  | _ => false
  end.

(** How many of the requests were streaming requests. *)
Definition stream_calls (l : list NetRequest) : nat := List.length (filter is_stream l).

(** A request that the streaming of [streamRequest] for [modelId] may
    send: a refresh, the request itself, or, with the switch on, the
    request with the substitute of [modelId] for its model. *)
Definition is_attempt (env : Env) (streamRequest : StreamRequest) (modelId : string)
    (r : NetRequest) : Prop :=
  match r with
  | ReqRefresh _ => True
  | ReqStream req _ =>
      req = streamRequest
      \/ (AutoModelSwitchingHelper.isEnabled env = true
          /\ exists fallbackModel,
               AutoModelSwitchingHelper.getFallbackModel modelId = Some fallbackModel
               /\ req = with_model streamRequest fallbackModel)
  | ReqEndpoint _ _ _ => False
  end.

(** No item of the array is [null]. *)
Definition no_null (items : list (option Wire.Candidate)) : bool :=
  forallb (fun item => match item with Some _ => true | None => false end) items.

(** The items that are not [null]. *)
Definition present (items : list (option Wire.Candidate)) : list Wire.Candidate :=
  flat_map (fun item => match item with Some candidate => [candidate] | None => [] end) items.

(** The events that the loop over the events reads without throwing: an
    event that is not [null], whose candidates, when it has any, are an
    array without a [null] in it. *)
Definition readable (jsonData : Wire.Event) : bool :=
  match jsonData with
  | Wire.Null => false
  | Wire.mkEvent None => true
  | Wire.mkEvent (Some response) =>
      match Wire.candidates response with
      | None => true
      | Some Wire.NotAnArray => false
      | Some (Wire.Items items) => no_null items
      end
  end.

(** The chunks made of one decoded event: one chunk for an event that has
    an array of candidates, none of them [null], and no chunk for any
    other event. *)
Definition emitted (modelId : string) (jsonData : Wire.Event) : list GeminiNativeStreamChunk :=
  match jsonData with
  | Wire.mkEvent (Some response) =>
      match Wire.candidates response with
      | Some (Wire.Items items) =>
          if no_null items then
            [ {| chunk_type := "gemini_native";
                 data := GeminiApiClient.nativeResponse modelId response
                           (map GeminiApiClient.nativeCandidate (present items)) |} ]
          else []
      | _ => []
      end
  | _ => []
  end.

(** An outcome that is no hang and has sent, since [w], requests that are
    all [allowed], at most [n] of them streaming requests. *)
Definition attempts {Y A : Type} (n : nat) (allowed : NetRequest -> Prop) (w : World)
    (o : Outcome Y A) : Prop :=
  result o <> Hangs
  /\ exists l, requests (final o) = (requests w ++ l)%list
               /\ Forall allowed l /\ (stream_calls l <= n)%nat.

(** The world after a streaming request that the connection timer
    aborted. *)
Definition aborted (streamRequest : StreamRequest) (w : World) : World :=
  tick CONNECTION_TIMEOUT_MS (pop_stream (sent (ReqStream streamRequest (accessToken w)) w)).

(** The next response takes as long as the connection timer, or longer. *)
Definition connection_times_out (w : World) : Prop :=
  CONNECTION_TIMEOUT_MS <= latency (next_reply (stream_replies w)).

(** The error of a streaming request whose response is not ok. *)
Definition stream_failed (status : Z) : JsValue :=
  newError ("Stream request failed: " ++ show_Z status).

(** The statuses from [first], [count] of them. *)
Definition statuses (first : nat) (count : nat) : list Z := map Z.of_nat (seq first count).

(** ** Schemas *)

(** Induction on a JSON value, with the property at hand for the items of
    an array and the values of an object. *)
Section JsonInduction.
Variable P : Json.t -> Prop.
Hypothesis PNull : P Json.Null.
Hypothesis PBool : forall b, P (Json.Bool b).
Hypothesis PNum : forall m e, P (Json.Num m e).
Hypothesis PStr : forall s, P (Json.Str s).
Hypothesis PArr : forall items, Forall P items -> P (Json.Arr items).
Hypothesis PObj : forall fields, Forall (fun kv => P (snd kv)) fields -> P (Json.Obj fields).

Fixpoint Json_nested_ind (v : Json.t) : P v :=
  match v with
  | Json.Null => PNull
  | Json.Bool b => PBool b
  | Json.Num m e => PNum m e
  | Json.Str s => PStr s
  | Json.Arr items =>
      PArr ((fix all (l : list Json.t) : Forall P l :=
               match l with
               | [] => Forall_nil P
               | x :: rest => Forall_cons x (Json_nested_ind x) (all rest)
               end) items)
  | Json.Obj fields =>
      PObj ((fix all (l : list (string * Json.t)) : Forall (fun kv => P (snd kv)) l :=
               match l with
               | [] => Forall_nil _
               | (k, x) :: rest =>
                   Forall_cons (P := fun kv => P (snd kv)) (k, x) (Json_nested_ind x) (all rest)
               end) fields)
  end.

End JsonInduction.

(** No key that the sanitizer removes is left, at any depth. *)
Fixpoint clean (v : Json.t) : bool :=
  match v with
  | Json.Arr items => forallb clean items
  | Json.Obj fields =>
      forallb (fun kv => let '(key, value) := kv in
                         negb (Schema.unsupported key) && clean value) fields
  | _ => true
  end.

Section SchemaVocabulary.
Variable String_keys : string -> list string.

(** The [required] of an object names only properties that [properties]
    has, where the object has both. *)
Definition required_within (fields : list (string * Json.t)) : bool :=
  match Json.assoc "properties" fields, Json.assoc "required" fields with
  | Some properties, Some (Json.Arr required) =>
      if Json.truthy properties
      then forallb (Schema.named (Schema.Object_keys String_keys properties)) required
      else true
  | _, _ => true
  end.

(** The same of every object of a schema, at any depth. *)
Fixpoint required_ok (v : Json.t) : bool :=
  match v with
  | Json.Arr items => forallb required_ok items
  | Json.Obj fields =>
      forallb (fun kv => let '(_, value) := kv in required_ok value) fields
      && required_within fields
  | _ => true
  end.

End SchemaVocabulary.

(** The entries the loop of the sanitizer keeps, with [f] for the
    recursive call. *)
Fixpoint kept (f : Json.t -> Json.t) (fields : list (string * Json.t))
    : list (string * Json.t) :=
  match fields with
  | [] => []
  | (key, value) :: rest =>
      if Schema.unsupported key then kept f rest else (key, f value) :: kept f rest
  end.

(** ** The output of the transformer *)

(** The pieces of text, put end to end. *)
Definition concatenated (texts : list string) : string :=
  fold_right append EmptyString texts.

Definition native_chunk (chunk : GeminiNativeStreamChunk) : bool :=
  String.eqb (chunk_type chunk) "gemini_native".

(** ** More worlds and inputs for the concrete runs *)

Definition with_refresh_replies (rs : list (Timed RefreshReply)) (w : World) : World :=
  mkWorld (clock w) (accessToken w) (projectId w) (tokenFile w) (storage_fails w)
    (cancel_semantics w) rs (endpoint_replies w) (stream_replies w) (requests w).

Definition with_storage_fails (fails : bool) (w : World) : World :=
  mkWorld (clock w) (accessToken w) (projectId w) (tokenFile w) fails
    (cancel_semantics w) (refresh_replies w) (endpoint_replies w) (stream_replies w)
    (requests w).

(** C7 as the spec words it: with nothing usable cached and a seed that
    is still fresh, [initializeAuth] adopts the seed, returns, and leaves
    the seed in the cache file. *)
Definition fresh_seed_always_persisted : Prop :=
  forall (env : Env) (w : World) (c : OAuth2Credentials.t),
    cache_usable w = false ->
    GCP_SERVICE_ACCOUNT env = Some (SeedJson c) ->
    OAuth2Credentials.expiry_date c - clock w > TOKEN_BUFFER_TIME ->
    let o := run (Y := Empty_set) (AuthManager.initializeAuth env) w in
    result o = Returned tt
    /\ accessToken (final o) = Some (OAuth2Credentials.access_token c)
    /\ tokenFile (final o) = Some (TokenJson (seed_record c (clock w))).

(** A seed that does not parse. *)
Definition malformed_seed : Env :=
  {| GCP_SERVICE_ACCOUNT := Some SeedMalformed;
     GEMINI_PROJECT_ID := Some "project-1";
     ENABLE_AUTO_MODEL_SWITCHING := Some "true" |}.

(** No project id in the configuration. *)
Definition discovering : Env :=
  {| GCP_SERVICE_ACCOUNT := Some (SeedJson seed);
     GEMINI_PROJECT_ID := None;
     ENABLE_AUTO_MODEL_SWITCHING := Some "true" |}.

(** The switch is off. *)
Definition switched_off : Env :=
  {| GCP_SERVICE_ACCOUNT := Some (SeedJson seed);
     GEMINI_PROJECT_ID := Some "project-1";
     ENABLE_AUTO_MODEL_SWITCHING := None |}.

(** The answer of a refresh, without a new refresh token. *)
Definition renewed : TokenRefreshResponse.t :=
  TokenRefreshResponse.mk "new-access" 3600 None.

(** The stale cache, and a refresh endpoint that answers with [renewed]
    after 200 ms. *)
Definition refreshing : World :=
  with_refresh_replies [mkTimed 200 (Fulfilled (RefreshOk renewed))] stale_cache.

(** The stale cache, and a refresh endpoint that refuses. *)
Definition refusing_refresh : World :=
  with_refresh_replies [mkTimed 200 (Fulfilled (RefreshNotOk "invalid_grant"))] stale_cache.

(** The answer of [loadCodeAssist] that names the project [p-9]. *)
Definition project_reply : string :=
  "{" ++ dq ++ "cloudaicompanionProject" ++ dq ++ ":" ++ dq ++ "p-9" ++ dq ++ "}".

Definition answering : World :=
  with_endpoint_replies [mkTimed 50 (Fulfilled (mkEndpointReply 200 project_reply))] quiet.

(** A 401, then the answer. *)
Definition unauthorized_once : World :=
  with_endpoint_replies
    [mkTimed 50 (Fulfilled (mkEndpointReply 401 "expired"));
     mkTimed 50 (Fulfilled (mkEndpointReply 200 project_reply))] quiet.

(** The payload of [frame_a]. *)
Definition payload_a : string := "{" ++ dq ++ "a" ++ dq ++ ":1}".

(** Two connections that are not answered in time. *)
Definition unreachable : World :=
  with_stream_replies [streams 100000 [Closes 10]; streams 250000 [Closes 10]] quiet.

(** A 500 after six seconds. *)
Definition failing_late : World := with_stream_replies [refused 500 6000] quiet.

(** A 429 after 100 ms. *)
Definition limited : World := with_stream_replies [refused 429 100] quiet.

(** A body whose one event is [null]; the second request is answered. *)
Definition null_event : World :=
  with_stream_replies
    [streams 100 [Arrives 10 ("data: null" ++ nl ++ nl); Closes 10];
     streams 100 [Arrives 10 (text_event "hello" "STOP"); Closes 10]]
    quiet.

(** [toLowerCase] on the letters of ASCII. *)
Definition lower_ascii (c : ascii) : ascii :=
  let n := nat_of_ascii c in
  if (Nat.leb 65 n && Nat.leb n 90)%bool then ascii_of_nat (n + 32) else c.

Fixpoint lower (s : string) : string :=
  match s with
  | EmptyString => EmptyString
  | String c rest => String (lower_ascii c) (lower rest)
  end.

(** The indices of a string of ASCII characters. *)
Definition indices (s : string) : list string :=
  map (fun i => show_Z (Z.of_nat i)) (seq 0 (String.length s)).

(** A tool schema with a reference, a type in capitals and a required
    field that is no property. *)
Definition tool_schema : Json.t :=
  Json.Obj [("$schema", Json.Str "http://json-schema.org/draft-07/schema#");
            ("type", Json.Str "OBJECT");
            ("properties",
             Json.Obj [("city", Json.Obj [("type", Json.Str "STRING");
                                          ("default", Json.Str "Paris")])]);
            ("required", Json.Arr [Json.Str "city"; Json.Str "country"])].

(** A serialiser of JSON values, for the concrete runs: compact, a string
    with its quotes, backslashes and control characters escaped, a number
    written as its mantissa and, where it is not zero, its exponent. *)
Definition hex_digit (n : nat) : ascii :=
  nth n (list_ascii_of_string "0123456789abcdef") "0"%char.

Definition escaped (c : ascii) : string :=
  if Ascii.eqb c DQ then String "\"%char dq
  else if Ascii.eqb c "\"%char then String "\"%char (String "\"%char EmptyString)
  else if Nat.ltb (nat_of_ascii c) 32 then
    String "\"%char
      ("u00" ++ String (hex_digit (nat_of_ascii c / 16))
                   (String (hex_digit (nat_of_ascii c mod 16)) EmptyString))
  else String c EmptyString.

Fixpoint escaped_text (s : string) : string :=
  match s with
  | EmptyString => EmptyString
  | String c rest => escaped c ++ escaped_text rest
  end.

Definition quoted (s : string) : string := dq ++ escaped_text s ++ dq.

Definition commas (texts : list string) : string :=
  match texts with
  | [] => EmptyString
  | first :: others => fold_left (fun acc text => acc ++ "," ++ text) others first
  end.

Fixpoint write_json (j : Json.t) : string :=
  match j with
  | Json.Null => "null"
  | Json.Bool true => "true"
  | Json.Bool false => "false"
  | Json.Num m e => show_Z m ++ (if e =? 0 then EmptyString else "e" ++ show_Z e)
  | Json.Str s => quoted s
  | Json.Arr items => "[" ++ commas (map write_json items) ++ "]"
  | Json.Obj fields =>
      "{" ++ commas (map (fun kv => quoted (fst kv) ++ ":" ++ write_json (snd kv)) fields)
      ++ "}"
  end.

(** A number as a JSON value: a finite number is a multiple of a power of
    two, so it has a finite decimal expansion; [JSON.stringify] writes
    [null] for the others. *)
Definition json_of_number (x : Number.t) : Json.t :=
  match x with
  | SpecFloat.S754_zero _ => Json.Num 0 0
  | SpecFloat.S754_finite s m e =>
      let signed := if s then Zneg m else Zpos m in
      if 0 <=? e then Json.Num (signed * 2 ^ e) 0
      else if signed mod 2 ^ (- e) =? 0 then Json.Num (signed / 2 ^ (- e)) 0
      else Json.Num (signed * 5 ^ (- e)) e
  | _ => Json.Null
  end.

(** The JSON value of a response: the fields that are present, in the
    order of the object literals that build it. *)
Definition json_of_candidate (c : Candidate) : Json.t :=
  Json.Obj
    ([("content", Json.Obj [("role", Json.Str (role (content c)));
                            ("parts", Json.Arr (parts (content c)))])]
     ++ match finishReason c with
        | Some reason => [("finishReason", Json.Str reason)]
        | None => []
        end
     ++ match groundingMetadata c with
        | Some g => [("groundingMetadata", g)]
        | None => []
        end)%list.

Definition json_of_response (r : GeminiNativeResponse) : Json.t :=
  Json.Obj
    ([("candidates", Json.Arr (map json_of_candidate (candidates r)))]
     ++ match usageMetadata r with
        | Some u =>
            [("usageMetadata",
              Json.Obj [("promptTokenCount", json_of_number (promptTokenCount u));
                        ("candidatesTokenCount", json_of_number (candidatesTokenCount u));
                        ("totalTokenCount", json_of_number (totalTokenCount u))])]
        | None => []
        end
     ++ [("modelVersion", Json.Str (modelVersion r))])%list.

Definition stringify (r : GeminiNativeResponse) : string := write_json (json_of_response r).

(** A chunk with token counts, and a text with a quote and a line feed in
    it. *)
Definition counted_chunk : GeminiNativeStreamChunk :=
  {| chunk_type := "gemini_native";
     data := {| candidates :=
                  [ {| content := {| role := "model";
                                     parts := [Json.Obj [("text", Json.Str ("say " ++ dq ++ "hi" ++ dq ++ nl))]] |};
                       finishReason := Some "STOP";
                       groundingMetadata := None |} ];
                usageMetadata :=
                  Some {| promptTokenCount := Number.of_Z 12;
                          candidatesTokenCount := Number.of_Z 30;
                          totalTokenCount := Number.of_Z 42 |};
                modelVersion := pro |} |}.

(** Two native chunks with a chunk of another type between them. *)
Definition sample_chunks : list GeminiNativeStreamChunk :=
  [text_chunk pro "one" "OTHER";
   {| chunk_type := "text"; data := data (text_chunk pro "dropped" "STOP") |};
   counted_chunk].

(** A text delivered in two pieces, cut after [n] characters. *)
Definition cut_at (n : nat) (text : string) : list (Z * string) :=
  [(5, String.substring 0 n text); (5, substring_from n text)].

(** A request that carries the key in the query. *)
Definition keyed_request : Middleware.Request :=
  Middleware.mkRequest "/gemini/v1beta/models" None (Some "secret") None.

(** * Properties *)

(** ** How [run] goes through the combinators *)

Lemma run_bind {Y A B : Type} (m : Prog Y A) (f : A -> Prog Y B) (w : World) :
  run (bind m f) w = andThen (run m w) (fun a => run (f a)).
Proof.
  revert w. induction m as [a | e | | y k IH | R op k IH]; intro w; cbn.
  - unfold andThen; cbn. destruct (run (f a) w); reflexivity.
  - reflexivity.
  - reflexivity.
  - rewrite IH. unfold andThen, yielded.
    destruct (run k w) as [ys [a | e |] wf]; reflexivity.
  - destruct (handle op w) as [r w']. apply IH.
Qed.

Lemma run_tryCatch {Y A : Type} (m : Prog Y A) (h : JsValue -> Prog Y A) (w : World) :
  run (tryCatch m h) w = orElse (run m w) (fun e => run (h e)).
Proof.
  revert w. induction m as [a | e | | y k IH | R op k IH]; intro w; cbn.
  - reflexivity.
  - unfold orElse; cbn. destruct (run (h e) w); reflexivity.
  - reflexivity.
  - rewrite IH. unfold orElse, yielded.
    destruct (run k w) as [ys [a | e |] wf]; reflexivity.
  - destruct (handle op w) as [r w']. apply IH.
Qed.

Lemma result_andThen {Y A B : Type} (o : Outcome Y A) (next : A -> World -> Outcome Y B) :
  result (andThen o next)
  = match result o with
    | Returned a => result (next a (final o))
    | Thrown e => Thrown e
    | Hangs => Hangs
    end.
Proof. unfold andThen. destruct (result o); reflexivity. Qed.

Lemma final_andThen {Y A B : Type} (o : Outcome Y A) (next : A -> World -> Outcome Y B) :
  final (andThen o next)
  = match result o with
    | Returned a => final (next a (final o))
    | _ => final o
    end.
Proof. unfold andThen. destruct (result o); reflexivity. Qed.

Lemma run_perform {Y R : Type} (op : Op R) (w : World) :
  run (perform (Y := Y) op) w
  = mkOutcome [] (Returned (fst (handle op w))) (snd (handle op w)).
Proof. cbn. destruct (handle op w); reflexivity. Qed.

(** A loop whose body only updates its state folds that update over what
    the generator yields. *)
Lemma run_forAwait_fold {Y1 Y2 S : Type} (g : Prog Y1 unit) (f : S -> Y1 -> S) (s : S)
    (w : World) :
  run (forAwait (Y2 := Y2) g (fun s y => Ret (f s y)) s) w
  = mkOutcome []
      match result (run g w) with
      | Returned _ => Returned (fold_left f (yields (run g w)) s)
      | Thrown e => Thrown e
      | Hangs => Hangs
      end
      (final (run g w)).
Proof.
  revert s w. induction g as [a | e | | y k IH | R op k IH]; intros s w; cbn.
  - reflexivity.
  - reflexivity.
  - reflexivity.
  - apply IH.
  - destruct (handle op w) as [r w']. apply IH.
Qed.

Lemma AllYields_run {Y A : Type} (P : Y -> Prop) (p : Prog Y A) (w : World) :
  AllYields P p -> Forall P (yields (run p w)).
Proof.
  revert w. induction p as [a | e | | y k IH | R op k IH]; intros w H; cbn.
  - constructor.
  - constructor.
  - constructor.
  - destruct H as [Hy Hk]. constructor; auto.
  - destruct (handle op w) as [r w']. apply IH, H.
Qed.

Lemma AllYields_bind {Y A B : Type} (P : Y -> Prop) (m : Prog Y A) (f : A -> Prog Y B) :
  AllYields P m -> (forall a, AllYields P (f a)) -> AllYields P (bind m f).
Proof.
  intros Hm Hf. induction m as [a | e | | y k IH | R op k IH]; cbn in *; auto.
  - destruct Hm; auto.
Qed.

Lemma AllYields_tryCatch {Y A : Type} (P : Y -> Prop) (m : Prog Y A)
    (h : JsValue -> Prog Y A) :
  AllYields P m -> (forall e, AllYields P (h e)) -> AllYields P (tryCatch m h).
Proof.
  intros Hm Hh. induction m as [a | e | | y k IH | R op k IH]; cbn in *; auto.
  - destruct Hm; auto.
Qed.

Lemma AllYields_forAwait {Y1 Y2 S : Type} (P : Y2 -> Prop) (g : Prog Y1 unit)
    (body : S -> Y1 -> Prog Y2 S) (s : S) :
  (forall s y, AllYields P (body s y)) -> AllYields P (forAwait g body s).
Proof.
  intros Hb. revert s. induction g as [a | e | | y k IH | R op k IH]; intro s; cbn; auto.
  - apply AllYields_bind; auto.
Qed.

(** A program that yields nothing, whatever its yield type. *)
Lemma AllYields_silent {Y A : Type} (P : Y -> Prop) (p : Prog Y A) :
  AllYields (fun _ => False) p -> AllYields P p.
Proof.
  induction p as [a | e | | y k IH | R op k IH]; cbn; auto.
  - intros [[] _].
Qed.

Lemma AllOps_bind {Y A B : Type} (P : forall R : Type, Op R -> Prop) (m : Prog Y A)
    (f : A -> Prog Y B) :
  AllOps P m -> (forall a, AllOps P (f a)) -> AllOps P (bind m f).
Proof.
  intros Hm Hf. induction m as [a | e | | y k IH | R op k IH]; cbn in *; auto.
  - destruct Hm as [Hop Hk]. split; auto.
Qed.

Lemma AllOps_tryCatch {Y A : Type} (P : forall R : Type, Op R -> Prop) (m : Prog Y A)
    (h : JsValue -> Prog Y A) :
  AllOps P m -> (forall e, AllOps P (h e)) -> AllOps P (tryCatch m h).
Proof.
  intros Hm Hh. induction m as [a | e | | y k IH | R op k IH]; cbn in *; auto.
  - destruct Hm as [Hop Hk]. split; auto.
Qed.

Lemma AllOps_forAwait {Y1 Y2 S : Type} (P : forall R : Type, Op R -> Prop)
    (g : Prog Y1 unit) (body : S -> Y1 -> Prog Y2 S) (s : S) :
  AllOps P g -> (forall s y, AllOps P (body s y)) -> AllOps P (forAwait g body s).
Proof.
  intros Hg Hb. revert s.
  induction g as [a | e | | y k IH | R op k IH]; intro s; cbn in *; auto.
  - apply AllOps_bind; auto.
  - destruct Hg as [Hop Hk]. split; auto.
Qed.

(** An invariant that every operation of a program keeps is kept by the
    program. *)
Lemma AllOps_run {Y A : Type} (P : forall R : Type, Op R -> Prop) (I : World -> Prop)
    (p : Prog Y A) (w : World) :
  (forall R (op : Op R) w, P R op -> I w -> I (snd (handle op w))) ->
  AllOps P p -> I w -> I (final (run p w)).
Proof.
  intros Hstep. revert w.
  induction p as [a | e | | y k IH | R op k IH]; intros w Hp Hw; cbn in *; auto.
  - destruct Hp as [Hop Hk]. specialize (Hstep R op w Hop Hw).
    destruct (handle op w) as [r w']. apply IH; auto.
Qed.

(** ** Numbers *)

Section NumberProperties.
Import SpecFloat.
Local Unset Implicit Arguments.

Lemma digits2_size p : digits2_pos p = Pos.size p.
Proof. induction p; cbn; congruence. Qed.

Lemma digits_log2 p : Zpos (digits2_pos p) = Z.log2 (Zpos p) + 1.
Proof. destruct p; cbn [digits2_pos Z.log2]; rewrite ?digits2_size; lia. Qed.

Lemma digits_shifted (M n : positive) (k : Z) :
  0 <= k -> Zpos M = Zpos n * 2 ^ k ->
  Zpos (digits2_pos M) = Zpos (digits2_pos n) + k.
Proof.
  intros Hk E. rewrite !digits_log2, E, Z.log2_mul_pow2 by lia. lia.
Qed.

Lemma digits_bound (n : positive) (b : Z) :
  0 <= b -> Zpos n < 2 ^ b -> 1 <= Zpos (digits2_pos n) <= b.
Proof.
  intros Hb H. rewrite digits_log2. split; [pose proof (Z.log2_nonneg (Zpos n)); lia |].
  assert (Z.log2 (Zpos n) < b) by (apply Z.log2_lt_pow2; lia). lia.
Qed.

Lemma iter_xO (m d : positive) : Zpos (Pos.iter xO m d) = Zpos m * 2 ^ Zpos d.
Proof.
  induction d as [| d IH] using Pos.peano_ind.
  - cbn. lia.
  - rewrite Pos.iter_succ, Pos2Z.inj_xO, IH, Pos2Z.inj_succ, Z.pow_succ_r by lia. lia.
Qed.

Lemma iter_pos_iter {A : Type} (f : A -> A) (p : positive) (x : A) :
  iter_pos f p x = Pos.iter f x p.
Proof.
  revert x. induction p as [p IH | p IH |]; intro x; cbn [iter_pos Pos.iter].
  - rewrite !IH, !Pos.iter_swap. reflexivity.
  - rewrite !IH. reflexivity.
  - reflexivity.
Qed.

Lemma shr_exact (M : positive) (q : positive) :
  iter_pos shr_1 q {| shr_m := Zpos (Pos.iter xO M q); shr_r := false; shr_s := false |}
  = {| shr_m := Zpos M; shr_r := false; shr_s := false |}.
Proof.
  rewrite iter_pos_iter. induction q as [| q IH] using Pos.peano_ind.
  - reflexivity.
  - rewrite Pos.iter_succ_r, Pos.iter_succ. cbn [shr_1 orb]. exact IH.
Qed.

(** A mantissa of 53 bits is left as it is. *)
Lemma binary_round_aux_canonical (s : bool) (M : positive) (e : Z) :
  Zpos (digits2_pos M) = 53 -> -1074 <= e <= 971 ->
  binary_round_aux 53 1024 s (Zpos M) e loc_Exact = S754_finite s M e.
Proof.
  intros Hd He. unfold binary_round_aux, shr_fexp, fexp, emin.
  cbn [Zdigits2 shr_record_of_loc]. rewrite Hd.
  replace (Z.max (53 + e - 53) (3 - 1024 - 53) - e) with 0 by lia.
  cbn [shr shr_m loc_of_shr_record round_nearest_even Zdigits2 shr_record_of_loc].
  rewrite Hd.
  replace (Z.max (53 + e - 53) (3 - 1024 - 53) - e) with 0 by lia.
  cbn [shr shr_m].
  replace (e <=? 1024 - 53) with true by (symmetry; apply Z.leb_le; lia).
  reflexivity.
Qed.

(** Zeros below a mantissa of 53 bits are shifted out. *)
Lemma binary_round_aux_shifted (s : bool) (M : positive) (q : positive) (e : Z) :
  Zpos (digits2_pos M) = 53 -> -1074 <= e + Zpos q <= 971 ->
  binary_round_aux 53 1024 s (Zpos (Pos.iter xO M q)) e loc_Exact
  = S754_finite s M (e + Zpos q).
Proof.
  intros Hd He.
  assert (Hq : Zpos (digits2_pos (Pos.iter xO M q)) = 53 + Zpos q).
  { rewrite (digits_shifted (Pos.iter xO M q) M (Zpos q)), Hd by (try apply iter_xO; lia).
    reflexivity. }
  unfold binary_round_aux, shr_fexp, fexp, emin.
  cbn [Zdigits2 shr_record_of_loc]. rewrite Hq.
  replace (Z.max (53 + Zpos q + e - 53) (3 - 1024 - 53) - e) with (Zpos q) by lia.
  cbn [shr]. rewrite shr_exact.
  cbn [shr_m loc_of_shr_record round_nearest_even Zdigits2 shr_record_of_loc].
  rewrite Hd.
  replace (Z.max (53 + (e + Zpos q) - 53) (3 - 1024 - 53) - (e + Zpos q)) with 0 by lia.
  cbn [shr shr_m].
  replace (e + Zpos q <=? 1024 - 53) with true by (symmetry; apply Z.leb_le; lia).
  reflexivity.
Qed.

Lemma mantissa_value (n : positive) :
  Zpos n < 2 ^ 53 ->
  Zpos (mantissa n) = Zpos n * 2 ^ (53 - Zpos (digits2_pos n))
  /\ Zpos (digits2_pos (mantissa n)) = 53.
Proof.
  intro H. destruct (digits_bound n 53 ltac:(lia) H) as [H1 H2].
  assert (E : Zpos (mantissa n) = Zpos n * 2 ^ (53 - Zpos (digits2_pos n))).
  { unfold mantissa. rewrite Z2Pos.id; [reflexivity |].
    apply Z.mul_pos_pos; [lia | apply Z.pow_pos_nonneg; lia]. }
  split; [exact E |].
  rewrite (digits_shifted (mantissa n) n (53 - Zpos (digits2_pos n))) by (try exact E; lia).
  lia.
Qed.

(** Rounding a safe integer written with zeros below it gives the
    integer, with its mantissa of 53 bits. *)
Lemma binary_round_safe (s : bool) (M n : positive) (k : Z) :
  0 <= k -> Zpos M = Zpos n * 2 ^ k -> Zpos n < 2 ^ 53 ->
  binary_round 53 1024 s M (- k)
  = S754_finite s (mantissa n) (Zpos (digits2_pos n) - 53).
Proof.
  intros Hk E Hn.
  destruct (digits_bound n 53 ltac:(lia) Hn) as [H1 H2].
  destruct (mantissa_value n Hn) as [Em Ed].
  unfold binary_round, fexp, emin.
  rewrite (digits_shifted M n k Hk E).
  replace (Z.max (Zpos (digits2_pos n) + k + - k - 53) (3 - 1024 - 53))
    with (Zpos (digits2_pos n) - 53) by lia.
  unfold shl_align.
  destruct (Zpos (digits2_pos n) - 53 - - k) as [| q | q] eqn:Eq.
  - assert (M = mantissa n) as ->.
    { apply Pos2Z.inj. rewrite Em, E. f_equal. f_equal. lia. }
    replace (- k) with (Zpos (digits2_pos n) - 53) by lia.
    apply binary_round_aux_canonical; [exact Ed | lia].
  - assert (M = Pos.iter xO (mantissa n) q) as ->.
    { apply Pos2Z.inj. rewrite iter_xO, Em, E, <- Z.mul_assoc, <- Z.pow_add_r by lia.
      f_equal. f_equal. lia. }
    rewrite binary_round_aux_shifted by (try exact Ed; lia).
    f_equal. lia.
  - assert (Pos.iter xO M q = mantissa n) as ->.
    { apply Pos2Z.inj. rewrite iter_xO, Em, E, <- Z.mul_assoc, <- Z.pow_add_r by lia.
      f_equal. f_equal. lia. }
    apply binary_round_aux_canonical; [exact Ed | lia].
Qed.

Lemma normalize_safe (N k : Z) :
  0 <= k -> safe N ->
  binary_normalize 53 1024 (N * 2 ^ k) (- k) false = Number.of_Z N.
Proof.
  intros Hk HN. unfold safe in HN. unfold Number.of_Z.
  assert (Hp : 0 < 2 ^ k) by (apply Z.pow_pos_nonneg; lia).
  destruct N as [| n | n].
  - reflexivity.
  - destruct (Zpos n * 2 ^ k) as [| M | M] eqn:E; try lia.
    cbn [binary_normalize].
    rewrite (binary_round_safe false M n k) by (try exact E; lia).
    change (binary_round 53 1024 false n 0) with (binary_round 53 1024 false n (- 0)).
    rewrite (binary_round_safe false n n 0) by (cbn; lia). reflexivity.
  - destruct (Zneg n * 2 ^ k) as [| M | M] eqn:E; try lia.
    cbn [binary_normalize].
    rewrite (binary_round_safe true M n k) by lia.
    change (binary_round 53 1024 true n 0) with (binary_round 53 1024 true n (- 0)).
    rewrite (binary_round_safe true n n 0) by (cbn; lia). reflexivity.
Qed.

(** A safe integer as a number. *)
Lemma of_Z_safe (N : Z) :
  safe N ->
  Number.of_Z N
  = match N with
    | Z0 => S754_zero false
    | Zpos n => S754_finite false (mantissa n) (Zpos (digits2_pos n) - 53)
    | Zneg n => S754_finite true (mantissa n) (Zpos (digits2_pos n) - 53)
    end.
Proof.
  intro HN. unfold safe in HN. destruct N as [| n | n]; [reflexivity | |];
    unfold Number.of_Z; cbn [binary_normalize];
    [change (binary_round 53 1024 false n 0) with (binary_round 53 1024 false n (- 0))
    | change (binary_round 53 1024 true n 0) with (binary_round 53 1024 true n (- 0))];
    apply binary_round_safe; cbn; lia.
Qed.

Lemma shl_align_fst (m : positive) (e e' : Z) :
  e' <= e -> Zpos (fst (shl_align m e e')) = Zpos m * 2 ^ (e - e').
Proof.
  intro H. unfold shl_align. destruct (e' - e) as [| q | q] eqn:E; cbn [fst]; try lia.
  - replace (e - e') with 0 by lia. lia.
  - rewrite iter_xO. f_equal. f_equal. lia.
Qed.

Lemma aligned (s : bool) (n : positive) (ez : Z) :
  Zpos n < 2 ^ 53 -> ez <= Zpos (digits2_pos n) - 53 ->
  cond_Zopp s (Zpos (fst (shl_align (mantissa n) (Zpos (digits2_pos n) - 53) ez)))
  = (if s then Zneg n else Zpos n) * 2 ^ (- ez).
Proof.
  intros Hn He. destruct (digits_bound n 53 ltac:(lia) Hn) as [H1 H2].
  destruct (mantissa_value n Hn) as [Em _].
  rewrite shl_align_fst by exact He. rewrite Em, <- Z.mul_assoc, <- Z.pow_add_r by lia.
  replace (53 - Zpos (digits2_pos n) + (Zpos (digits2_pos n) - 53 - ez)) with (- ez) by lia.
  destruct s; cbn [cond_Zopp]; lia.
Qed.

(** The sum of two safe integers whose sum is safe is exact. *)
Lemma plus_of_Z (a b : Z) :
  safe a -> safe b -> safe (a + b) ->
  Number.plus (Number.of_Z a) (Number.of_Z b) = Number.of_Z (a + b).
Proof.
  intros Ha Hb Hs. rewrite (of_Z_safe a Ha), (of_Z_safe b Hb).
  unfold safe in Ha, Hb.
  destruct a as [| n | n], b as [| m | m]; try reflexivity;
    try (symmetry; apply of_Z_safe; exact Hs);
    try (rewrite Z.add_0_r; symmetry; apply (of_Z_safe _ Hs)).
  all: unfold Number.plus; cbn [SFadd].
  all: destruct (digits_bound n 53 ltac:(lia) ltac:(lia)) as [Hn1 Hn2].
  all: destruct (digits_bound m 53 ltac:(lia) ltac:(lia)) as [Hm1 Hm2].
  all: set (ez := Z.min (Zpos (digits2_pos n) - 53) (Zpos (digits2_pos m) - 53)).
  all: rewrite (aligned _ n ez), (aligned _ m ez) by (subst ez; lia).
  all: rewrite <- Z.mul_add_distr_r.
  all: replace ez with (- - ez) at 2 by lia.
  all: apply normalize_safe; [subst ez; lia | exact Hs].
Qed.

(** Above the safe integers the sum is rounded: [2 ^ 53 + 1] is
    [2 ^ 53]. *)
Lemma plus_rounds_above_safe :
  Number.plus (Number.of_Z (2 ^ 53)) (Number.of_Z 1) = Number.of_Z (2 ^ 53).
Proof. vm_compute. reflexivity. Qed.

(** Counts that are no integers are added as they are: [1.5 + 2] is
    [3.5]. *)
Lemma plus_of_fractions :
  Number.plus (Number.of_decimal 15 (-1)) (Number.of_Z 2) = Number.of_decimal 35 (-1).
Proof. vm_compute. reflexivity. Qed.

End NumberProperties.

(** ** The credential manager *)

Section AuthProperties.
Context {Y : Type}.
Variable env : Env.

Ltac world w := destruct w; cbn in *; subst; cbn.

Lemma ltb_buffer (expiry now : Z) :
  expiry - now > TOKEN_BUFFER_TIME -> (TOKEN_BUFFER_TIME <? expiry - now) = true.
Proof. intro H. apply Z.ltb_lt. lia. Qed.

(** C6 (as amended).  With a cached credential whose expiry is more than
    the buffer window away, [initializeAuth] sends no request at all, so
    no refresh call; when [GCP_SERVICE_ACCOUNT] is set it adopts the cached
    access token and returns, touching nothing else; when it is not set
    the guard at the top throws before the cache is read. *)
Theorem initializeAuth_fresh_cache (w : World) (d : CachedTokenData.t) :
  storage_fails w = false ->
  tokenFile w = Some (TokenJson d) ->
  CachedTokenData.expiry_date d - clock w > TOKEN_BUFFER_TIME ->
  requests (final (run (Y := Y) (AuthManager.initializeAuth env) w)) = requests w
  /\ match GCP_SERVICE_ACCOUNT env with
     | Some _ =>
         run (Y := Y) (AuthManager.initializeAuth env) w
         = mkOutcome [] (Returned tt)
             (set_accessToken (Some (CachedTokenData.access_token d)) w)
     | None =>
         run (Y := Y) (AuthManager.initializeAuth env) w = mkOutcome [] (Thrown not_set) w
     end.
Proof.
  intros Hs Hf Hx. apply ltb_buffer in Hx.
  unfold AuthManager.initializeAuth.
  destruct (GCP_SERVICE_ACCOUNT env) as [seed |].
  - world w. rewrite Hx. cbn. split; reflexivity.
  - cbn. split; reflexivity.
Qed.

(** C7 (as amended).  When the cache offers nothing usable (no file, a
    file that does not parse, or a stale credential without a refresh
    token) and the seed credential parses and expires more than the buffer
    window from now, [initializeAuth] adopts the seed's access token and
    returns; no request is sent, so nothing is refreshed.  The seed is
    written to the cache file, stamped with the current time, when the
    store accepts the write; when the store fails, the failed write is
    swallowed and the file is left as it was. *)
Theorem initializeAuth_fresh_seed (w : World) (c : OAuth2Credentials.t) :
  cache_usable w = false ->
  GCP_SERVICE_ACCOUNT env = Some (SeedJson c) ->
  OAuth2Credentials.expiry_date c - clock w > TOKEN_BUFFER_TIME ->
  let o := run (Y := Y) (AuthManager.initializeAuth env) w in
  o = mkOutcome [] (Returned tt)
        (written (TokenJson (seed_record c (clock w)))
           (set_accessToken (Some (OAuth2Credentials.access_token c)) w))
  /\ accessToken (final o) = Some (OAuth2Credentials.access_token c)
  /\ tokenFile (final o)
     = (if storage_fails w then tokenFile w
        else Some (TokenJson (seed_record c (clock w))))
  /\ requests (final o) = requests w.
Proof.
  intros Hu He Hx o. apply ltb_buffer in Hx.
  assert (Ho : o = mkOutcome [] (Returned tt)
        (written (TokenJson (seed_record c (clock w)))
           (set_accessToken (Some (OAuth2Credentials.access_token c)) w))).
  { subst o. unfold AuthManager.initializeAuth. rewrite He.
    unfold cache_usable in Hu. unfold written.
    destruct w as [now tok pid file fails sem rr er sr reqs]; cbn in *; subst.
    destruct fails.
    - destruct file as [[| d] |]; cbn; rewrite Hx; reflexivity.
    - destruct file as [[| d] |]; cbn.
      + rewrite Hx. reflexivity.
      + apply orb_false_iff in Hu. destruct Hu as [Hstale Hrt]. rewrite Hstale.
        destruct (CachedTokenData.refresh_token d) as [rt |]; cbn in *.
        * rewrite Hrt. cbn. rewrite Hx. reflexivity.
        * rewrite Hx. reflexivity.
      + rewrite Hx. reflexivity. }
  rewrite Ho. unfold written. cbn [final].
  destruct w as [now tok pid file fails sem rr er sr reqs]; cbn.
  destruct fails; repeat split.
Qed.

(** X30.  The same step after the refresh with the cached refresh token has
    failed: the seed is adopted and written as above, and the one request
    the call has sent is that failed refresh. *)
Lemma initializeAuth_fresh_seed_after_failed_refresh (w : World) (d : CachedTokenData.t)
    (rt : string) (c : OAuth2Credentials.t) (lat : Z) (errorText : string)
    (rest : list (Timed RefreshReply)) :
  storage_fails w = false ->
  tokenFile w = Some (TokenJson d) ->
  CachedTokenData.expiry_date d - clock w <= TOKEN_BUFFER_TIME ->
  CachedTokenData.refresh_token d = Some rt ->
  truthy_string rt = true ->
  refresh_replies w = mkTimed lat (Fulfilled (RefreshNotOk errorText)) :: rest ->
  GCP_SERVICE_ACCOUNT env = Some (SeedJson c) ->
  OAuth2Credentials.expiry_date c - (clock w + lat) > TOKEN_BUFFER_TIME ->
  let o := run (Y := Y) (AuthManager.initializeAuth env) w in
  result o = Returned tt
  /\ accessToken (final o) = Some (OAuth2Credentials.access_token c)
  /\ tokenFile (final o) = Some (TokenJson (seed_record c (clock w + lat)))
  /\ requests (final o) = (requests w ++ [ReqRefresh rt])%list.
Proof.
  intros Hs Hf Hstale Hrt Ht Hr He Hx o. apply ltb_buffer in Hx.
  assert (H : (TOKEN_BUFFER_TIME <? CachedTokenData.expiry_date d - clock w) = false)
    by (apply Z.ltb_ge; lia).
  subst o. unfold AuthManager.initializeAuth. rewrite He.
  destruct w as [now tok pid file fails sem rr er sr reqs]; cbn in *; subst.
  cbn. rewrite H, Hrt, Ht. cbn. rewrite Hx. cbn. repeat split.
Qed.

(** [callEndpoint] never runs out of its two units of fuel. *)
Lemma callEndpoint_retried_fuel n method body :
  AuthManager.callEndpoint (Y := Y) env (S n) method body true
  = AuthManager.callEndpoint env 1 method body true.
Proof.
  cbn [AuthManager.callEndpoint]. f_equal. extensionality u.
  f_equal. extensionality token. f_equal. extensionality response.
  cbn [negb]. rewrite andb_false_r. reflexivity.
Qed.

Lemma callEndpoint_fuel n method body isRetry :
  AuthManager.callEndpoint (Y := Y) env (S (S n)) method body isRetry
  = AuthManager.callEndpoint env 2 method body isRetry.
Proof.
  change (AuthManager.callEndpoint (Y := Y) env (S (S n)) method body isRetry)
    with (AuthManager.initializeAuth (Y := Y) env ;;
          token <- perform GetAccessToken ;;
          response <- await (FetchEndpoint method body token) ;;
          if negb (ok (ep_status response)) then
            if (ep_status response =? 401) && negb isRetry then
              perform (SetAccessToken None) ;;
              AuthManager.clearTokenCache ;;
              AuthManager.initializeAuth env ;;
              AuthManager.callEndpoint env (S n) method body true
            else
              Throw (newError ("API call failed with status " ++ show_Z (ep_status response)
                               ++ ": " ++ ep_text response))
          else
            match Json.parse (ep_text response) with
            | Some j => Ret j
            | None => Throw SyntaxError
            end)%prog.
  rewrite callEndpoint_retried_fuel. reflexivity.
Qed.


End AuthProperties.

(** ** The retry and fallback machine *)

Section ClientProperties.
Variable env : Env.
Variable JSON_parse : string -> option Wire.Event.

Local Abbreviation request_stream := (GeminiApiClient.performNativeStreamRequest env JSON_parse).

Local Abbreviation tryBlock := (GeminiApiClient.tryBlock env JSON_parse).

Local Abbreviation respond := (GeminiApiClient.respond env JSON_parse).

Local Abbreviation catchBlock := (GeminiApiClient.catchBlock).

(** *** A retried attempt never calls itself again *)

Lemma respond_retried retry retry' streamRequest modelId response :
  respond retry streamRequest modelId true response
  = respond retry' streamRequest modelId true response.
Proof.
  unfold GeminiApiClient.respond. cbn [negb]. rewrite !andb_false_r. reflexivity.
Qed.

Lemma tryBlock_retried retry retry' streamRequest modelId :
  tryBlock retry streamRequest modelId true = tryBlock retry' streamRequest modelId true.
Proof.
  unfold GeminiApiClient.tryBlock. f_equal. extensionality token.
  f_equal. extensionality response. apply respond_retried.
Qed.

Lemma catchBlock_retried retry retry' streamRequest modelId startTime :
  catchBlock retry streamRequest modelId true startTime
  = catchBlock retry' streamRequest modelId true startTime.
Proof. reflexivity. Qed.

Lemma performNativeStreamRequest_retried_fuel n streamRequest modelId :
  request_stream (S n) streamRequest modelId true = retried env JSON_parse streamRequest modelId.
Proof.
  unfold retried. cbn [GeminiApiClient.performNativeStreamRequest].
  f_equal. extensionality startTime. f_equal.
  apply tryBlock_retried.
Qed.

(** Two units of fuel are as good as any larger number: the [Hang] that
    stands for running out of fuel is never reached. *)
Lemma performNativeStreamRequest_fuel n streamRequest modelId isRetry :
  request_stream (S (S n)) streamRequest modelId isRetry
  = request_stream 2%nat streamRequest modelId isRetry.
Proof.
  assert (E : (fun r m => request_stream (S n) r m true)
              = (fun r m => request_stream 1%nat r m true)).
  { extensionality r. extensionality m. apply performNativeStreamRequest_retried_fuel. }
  change (request_stream (S (S n)) streamRequest modelId isRetry)
    with (startTime <- perform DateNow ;;
          tryCatch (tryBlock (fun r m => request_stream (S n) r m true)
                      streamRequest modelId isRetry)
            (catchBlock (fun r m => request_stream (S n) r m true)
               streamRequest modelId isRetry startTime)).
  rewrite E. reflexivity.
Qed.

(** *** One attempt, step by step *)

Lemma run_request_stream fuel streamRequest modelId isRetry w :
  run (request_stream (S fuel) streamRequest modelId isRetry) w
  = orElse
      (run (tryBlock (fun r m => request_stream fuel r m true) streamRequest modelId isRetry) w)
      (fun e => run (catchBlock (fun r m => request_stream fuel r m true)
                       streamRequest modelId isRetry (clock w) e)).
Proof.
  cbn [GeminiApiClient.performNativeStreamRequest].
  rewrite run_bind, run_perform. unfold andThen. cbn [result final yields handle fst snd app].
  rewrite run_tryCatch.
  destruct (orElse _ _); reflexivity.
Qed.

Lemma run_tryBlock retry streamRequest modelId isRetry w :
  run (tryBlock retry streamRequest modelId isRetry) w
  = match exchange streamRequest w with
    | (Fulfilled response, w') => run (respond retry streamRequest modelId isRetry response) w'
    | (Rejected e, w') => mkOutcome [] (Thrown e) w'
    end.
Proof.
  unfold GeminiApiClient.tryBlock, AuthManager.getAccessToken, exchange.
  cbn [bind perform await run handle].
  destruct (if latency (next_reply (stream_replies w)) <? CONNECTION_TIMEOUT_MS then _ else _)
    as [[response | e] w']; reflexivity.
Qed.

Lemma run_catchBlock retry streamRequest modelId isRetry startTime e w :
  run (catchBlock retry streamRequest modelId isRetry startTime e) w
  = if negb isRetry
       && (GeminiApiClient.isAbortError e || (clock w - startTime <? QUICK_FAIL_THRESHOLD_MS))
    then run (retry streamRequest modelId) w
    else mkOutcome [] (Thrown e) w.
Proof.
  unfold GeminiApiClient.catchBlock. cbn [bind perform run handle].
  destruct (negb isRetry && _); reflexivity.
Qed.

(** A retried attempt is its [try] block: the [catch] block hands every
    failure on. *)
Lemma run_retried streamRequest modelId retry w :
  run (retried env JSON_parse streamRequest modelId) w = run (tryBlock retry streamRequest modelId true) w.
Proof.
  unfold retried. rewrite run_request_stream.
  rewrite (tryBlock_retried _ retry).
  unfold orElse.
  destruct (run (tryBlock retry streamRequest modelId true) w) as [ys [a | e |] wf];
    cbn [result yields final]; try reflexivity.
  rewrite run_catchBlock. cbn [negb andb yields result final].
  rewrite app_nil_r. reflexivity.
Qed.

(** *** What a retried attempt sends *)

Lemma processLines_reads_only {J : Type} (parse : string -> option J) lines objectBuffer :
  AllOps reads_only (GeminiApiClient.processLines parse lines objectBuffer).
Proof.
  revert objectBuffer. induction lines as [| line rest IH]; intro objectBuffer; cbn.
  - exact I.
  - destruct (trim_is_empty line).
    + destruct (truthy_string objectBuffer); auto.
      apply AllOps_bind; auto.
      unfold GeminiApiClient.yieldParsed. destruct (parse objectBuffer); cbn; auto.
    + destruct (startsWith "data: " line); auto.
Qed.

Lemma readLoop_reads_only {J : Type} (parse : string -> option J) stream idle buffer
    objectBuffer :
  AllOps reads_only (GeminiApiClient.readLoop parse stream idle buffer objectBuffer).
Proof.
  revert buffer objectBuffer.
  assert (Hflush : forall ob, AllOps reads_only
            (if truthy_string ob then GeminiApiClient.yieldParsed parse ob else Ret tt)).
  { intro ob. destruct (truthy_string ob); cbn; auto.
    unfold GeminiApiClient.yieldParsed. destruct (parse ob); cbn; auto. }
  assert (Hthrow : forall error : JsValue, AllOps (Y := J) (A := unit) reads_only
            (if JsValue_eqb error (JsString "IdleTimeout")
             then Throw (newError ("Stream idle timeout after "
                                   ++ GeminiApiClient.show_timeout idle ++ "ms"))
             else Throw error)).
  { intro error. destruct (JsValue_eqb error _); cbn; auto. }
  induction stream as [| e rest IH]; intros buffer objectBuffer; cbn; split; auto.
  - intros [value | | error |]; cbn; auto.
  - intros [value | | error |]; cbn; auto.
    apply AllOps_bind; auto. apply processLines_reads_only.
Qed.

Lemma reads_only_same_but_clock {Y A : Type} (p : Prog Y A) (w : World) :
  AllOps reads_only p -> same_but_clock w (final (run p w)).
Proof.
  intro Hp. apply (AllOps_run reads_only (same_but_clock w)); auto.
  - intros R op w' Hop Hw'. destruct op; try contradiction.
    cbn. unfold reader_read.
    destruct next as [ev |], (timer_armed idleTimeoutMs) as [t |]; cbn; auto.
    destruct (t <? event_delay ev); cbn; auto.
  - repeat split.
Qed.

(** The body of the loop over the events returns, yields one chunk and
    returns, or throws. *)
Lemma emitChunk_shape modelId s jsonData :
  GeminiApiClient.emitChunk modelId s jsonData = Ret tt
  \/ (exists response cands,
        GeminiApiClient.emitChunk modelId s jsonData
        = Yield {| chunk_type := "gemini_native";
                   data := GeminiApiClient.nativeResponse modelId response cands |} (Ret tt))
  \/ exists e, GeminiApiClient.emitChunk modelId s jsonData = Throw e.
Proof.
  unfold GeminiApiClient.emitChunk.
  destruct jsonData as [| [response |]]; [right; right; eauto | | left; reflexivity].
  destruct (Wire.candidates response) as [[| items] |]; [right; right; eauto | | left; reflexivity].
  destruct (GeminiApiClient.mapCandidates items) as [cands |]; right; [left | right]; eauto.
Qed.

Lemma streaming_same_but_clock stream modelId w :
  same_but_clock w
    (final (run (forAwait (GeminiApiClient.parseSSEStream JSON_parse stream (Some IDLE_TIMEOUT_MS))
                   (GeminiApiClient.emitChunk modelId) tt) w)).
Proof.
  apply reads_only_same_but_clock, AllOps_forAwait.
  - apply readLoop_reads_only.
  - intros s y.
    destruct (emitChunk_shape modelId s y) as [E | [(response & cands & E) | (e & E)]];
      rewrite E; cbn; auto.
Qed.

(** A retried attempt sends one request, the one it was given, with the
    token the manager holds, and leaves that token alone. *)
Lemma retried_sends_once streamRequest modelId w :
  let o := run (retried env JSON_parse streamRequest modelId) w in
  requests (final o) = (requests w ++ [ReqStream streamRequest (accessToken w)])%list
  /\ accessToken (final o) = accessToken w.
Proof.
  cbn zeta. rewrite (run_retried _ _ (fun _ _ => Hang)), run_tryBlock.
  unfold exchange. cbn [handle].
  destruct (latency (next_reply (stream_replies w)) <? CONNECTION_TIMEOUT_MS).
  - destruct (answer (next_reply (stream_replies w))) as [response | e].
    + unfold GeminiApiClient.respond. cbn [negb]. rewrite !andb_false_r.
      destruct (negb (ok (status response))).
      * cbn. split; reflexivity.
      * destruct (body response) as [stream |].
        -- match goal with |- context [run ?p ?w0] =>
             destruct (streaming_same_but_clock stream modelId w0)
               as (Ht & _ & _ & _ & _ & _ & _ & _ & Hr)
           end.
           rewrite Hr, Ht. cbn. split; reflexivity.
        -- cbn. split; reflexivity.
    + cbn. split; reflexivity.
  - cbn. split; reflexivity.
Qed.

(** *** The three rules *)

Lemma run_first_attempt streamRequest modelId w :
  run (request_stream 2%nat streamRequest modelId false) w
  = orElse (run (tryBlock (retried env JSON_parse) streamRequest modelId false) w)
      (recover env JSON_parse streamRequest modelId (clock w)).
Proof.
  rewrite run_request_stream. f_equal.
  extensionality e. extensionality w'. apply run_catchBlock.
Qed.

Lemma respond_on_its_own retry streamRequest modelId response :
  reauth_applies response = false ->
  fallback_applies env modelId response = false ->
  respond retry streamRequest modelId false response
  = respond retry streamRequest modelId true response.
Proof.
  unfold reauth_applies, fallback_applies, GeminiApiClient.respond.
  destruct (negb (ok (status response))); [| reflexivity].
  destruct (status response =? 401); [discriminate |].
  destruct (AutoModelSwitchingHelper.isRateLimitStatus (status response)); [| reflexivity].
  destruct (AutoModelSwitchingHelper.getFallbackModel modelId); [| reflexivity].
  destruct (AutoModelSwitchingHelper.isEnabled env); [discriminate | reflexivity].
Qed.

Lemma run_tryBlock_on_its_own streamRequest modelId w :
  on_its_own env streamRequest modelId w = true ->
  run (tryBlock (retried env JSON_parse) streamRequest modelId false) w
  = run (retried env JSON_parse streamRequest modelId) w.
Proof.
  intro H. rewrite (run_retried _ _ (retried env JSON_parse)), !run_tryBlock.
  unfold on_its_own in H.
  destruct (exchange streamRequest w) as [[response | e] w']; [| reflexivity].
  cbn [fst] in H. apply andb_true_iff in H. destruct H as [H1 H2].
  apply negb_true_iff in H1, H2.
  now rewrite respond_on_its_own.
Qed.

(** C5 (as amended).  Take an attempt that is not marked as a retry and
    whose request is answered by neither the re-authentication rule nor the
    fallback rule.  If the attempt fails, with an [AbortError] or less than
    five seconds after it started, the same request is made once more for
    the same model, marked as a retry, and what this second attempt yields
    and how it ends, failure included, is what the caller gets after the
    chunks of the first.  The two requests sent are equal. *)
Theorem transient_failure_retried_once streamRequest modelId w e :
  let o1 := run (retried env JSON_parse streamRequest modelId) w in
  let o2 := run (retried env JSON_parse streamRequest modelId) (final o1) in
  on_its_own env streamRequest modelId w = true ->
  result o1 = Thrown e ->
  GeminiApiClient.isAbortError e = true
    \/ clock (final o1) - clock w < QUICK_FAIL_THRESHOLD_MS ->
  run (request_stream 2%nat streamRequest modelId false) w
  = mkOutcome (yields o1 ++ yields o2) (result o2) (final o2)
  /\ requests (final o2)
     = (requests w ++ [ReqStream streamRequest (accessToken w);
                       ReqStream streamRequest (accessToken w)])%list.
Proof.
  intros o1 o2 Hown Hfail Hquick. split.
  - rewrite run_first_attempt, run_tryBlock_on_its_own by assumption.
    fold o1. unfold orElse. rewrite Hfail. unfold recover.
    replace (GeminiApiClient.isAbortError e
             || (clock (final o1) - clock w <? QUICK_FAIL_THRESHOLD_MS)) with true.
    + reflexivity.
    + symmetry. apply orb_true_iff. destruct Hquick as [H | H]; [now left | right].
      apply Z.ltb_lt. exact H.
  - destruct (retried_sends_once streamRequest modelId w) as [Hr1 Ht1].
    destruct (retried_sends_once streamRequest modelId (final o1)) as [Hr2 Ht2].
    fold o1 in Hr1, Ht1. fold o1 o2 in Hr2.
    rewrite Hr2, Hr1, Ht1, <- app_assoc. reflexivity.
Qed.

(** X27.  A failure that comes five seconds or more after the attempt
    began and is no [AbortError] is not retried: the call ends as its one
    attempt ended. *)
Lemma late_failure_is_final streamRequest modelId w e :
  let o1 := run (retried env JSON_parse streamRequest modelId) w in
  on_its_own env streamRequest modelId w = true ->
  result o1 = Thrown e ->
  GeminiApiClient.isAbortError e = false ->
  QUICK_FAIL_THRESHOLD_MS <= clock (final o1) - clock w ->
  run (request_stream 2%nat streamRequest modelId false) w = o1.
Proof.
  intros o1 Hown Hfail Habort Hlate.
  rewrite run_first_attempt, run_tryBlock_on_its_own by assumption.
  fold o1. unfold orElse. rewrite Hfail. unfold recover. rewrite Habort.
  replace (clock (final o1) - clock w <? QUICK_FAIL_THRESHOLD_MS) with false
    by (symmetry; apply Z.ltb_ge; exact Hlate).
  clearbody o1. destruct o1 as [ys r wf]. cbn in *. subst r.
  rewrite app_nil_r. reflexivity.
Qed.

(** Rule 2, as the code runs it.  The notice comes first, then the chunks
    of the retried attempt on the substitute model.  A failure of that
    attempt does not leave the function: it lands in the [catch] block of
    the attempt that made the switch, which judges it by its own start
    time and its own [isRetry]. *)
Lemma fallback_hop streamRequest modelId w response w' fallbackModel :
  exchange streamRequest w = (Fulfilled response, w') ->
  fallback_applies env modelId response = true ->
  AutoModelSwitchingHelper.getFallbackModel modelId = Some fallbackModel ->
  run (request_stream 2%nat streamRequest modelId false) w
  = orElse
      (yielded (GeminiApiClient.switchNotice modelId fallbackModel)
         (run (retried env JSON_parse (with_model streamRequest fallbackModel) fallbackModel) w'))
      (recover env JSON_parse streamRequest modelId (clock w)).
Proof.
  intros Hx Hf Hm. rewrite run_first_attempt, run_tryBlock, Hx.
  unfold fallback_applies in Hf. rewrite Hm in Hf.
  repeat (apply andb_true_iff in Hf; destruct Hf as [Hf ?]).
  apply negb_true_iff in H2.
  unfold GeminiApiClient.respond. rewrite Hf, H2, H1, Hm, H0. reflexivity.
Qed.

(** Rule 1, as the code runs it: the same remark applies to a failure of
    the retried attempt, and to a failure of the re-authentication. *)
Lemma reauth_hop streamRequest modelId w response w' :
  exchange streamRequest w = (Fulfilled response, w') ->
  reauth_applies response = true ->
  run (request_stream 2%nat streamRequest modelId false) w
  = orElse
      (run (AuthManager.clearTokenCache ;;
            AuthManager.initializeAuth env ;;
            retried env JSON_parse streamRequest modelId) w')
      (recover env JSON_parse streamRequest modelId (clock w)).
Proof.
  intros Hx Hf. rewrite run_first_attempt, run_tryBlock, Hx.
  unfold reauth_applies in Hf. apply andb_true_iff in Hf. destruct Hf as [H1 H2].
  unfold GeminiApiClient.respond. rewrite H1, H2. reflexivity.
Qed.

(** *** What the chunks look like *)

Section Silent.
Context {Y : Type}.
Variable P : Y -> Prop.

Ltac silent :=
  repeat first
    [ exact I
    | apply AllYields_bind
    | apply AllYields_tryCatch
    | progress intros
    | progress cbn [AllYields perform await]
    | match goal with
      | |- AllYields _ (match ?x with _ => _ end) => destruct x
      | |- AllYields _ (if ?x then _ else _) => destruct x
      end ].

Lemma cacheTokenToFile_silent a x r : AllYields P (AuthManager.cacheTokenToFile (Y := Y) a x r).
Proof. unfold AuthManager.cacheTokenToFile. silent. Qed.

Lemma clearTokenCache_silent : AllYields P (AuthManager.clearTokenCache (Y := Y)).
Proof. unfold AuthManager.clearTokenCache. silent. Qed.

Lemma refreshAndCacheToken_silent rt : AllYields P (AuthManager.refreshAndCacheToken (Y := Y) rt).
Proof.
  unfold AuthManager.refreshAndCacheToken. silent; try apply cacheTokenToFile_silent.
Qed.

Lemma initializeAuth_silent : AllYields P (AuthManager.initializeAuth (Y := Y) env).
Proof.
  unfold AuthManager.initializeAuth, AuthManager.getTokenFromFile,
    AuthManager.useCachedToken, AuthManager.useEnvCredentials.
  silent; try apply refreshAndCacheToken_silent; try apply cacheTokenToFile_silent.
Qed.

Lemma callEndpoint_silent fuel method body isRetry :
  AllYields P (AuthManager.callEndpoint (Y := Y) env fuel method body isRetry).
Proof.
  revert isRetry. induction fuel as [| fuel IH]; intro isRetry; cbn [AuthManager.callEndpoint].
  - exact I.
  - silent; try apply initializeAuth_silent; try apply clearTokenCache_silent; try apply IH.
Qed.

Lemma discoverProjectId_silent : AllYields P (GeminiApiClient.discoverProjectId (Y := Y) env).
Proof.
  unfold GeminiApiClient.discoverProjectId.
  silent; try apply callEndpoint_silent; try apply initializeAuth_silent.
Qed.

End Silent.

(** Every chunk of the streaming operation is the notice of a switch or
    the response built from a decoded event. *)
Lemma performNativeStreamRequest_yields (P : GeminiNativeStreamChunk -> Prop) :
  (forall modelId fallbackModel, P (GeminiApiClient.switchNotice modelId fallbackModel)) ->
  (forall modelId response cands,
      P {| chunk_type := "gemini_native";
           data := GeminiApiClient.nativeResponse modelId response cands |}) ->
  forall fuel streamRequest modelId isRetry,
    AllYields P (request_stream fuel streamRequest modelId isRetry).
Proof.
  intros Hnotice Hevent fuel.
  induction fuel as [| fuel IH]; intros streamRequest modelId isRetry;
    cbn [GeminiApiClient.performNativeStreamRequest].
  - exact I.
  - apply AllYields_bind; [cbn; auto |]. intro startTime.
    apply AllYields_tryCatch.
    + unfold GeminiApiClient.tryBlock, AuthManager.getAccessToken.
      apply AllYields_bind; [cbn; auto |]. intro token.
      apply AllYields_bind; [cbn; intros [r | e]; exact I |]. intro response.
      unfold GeminiApiClient.respond.
      destruct (negb (ok (status response))).
      * destruct ((status response =? 401) && negb isRetry).
        -- apply AllYields_bind; [apply clearTokenCache_silent |]. intros _.
           apply AllYields_bind; [apply initializeAuth_silent |]. intros _. apply IH.
        -- destruct (AutoModelSwitchingHelper.isRateLimitStatus (status response) && negb isRetry);
             [| exact I].
           destruct (AutoModelSwitchingHelper.getFallbackModel modelId); [| exact I].
           destruct (AutoModelSwitchingHelper.isEnabled env); [| exact I].
           split; [apply Hnotice | apply IH].
      * destruct (body response); [| exact I].
        apply AllYields_forAwait. intros s y.
        destruct (emitChunk_shape modelId s y) as [E | [(response' & cands & E) | (e & E)]];
          rewrite E; cbn; auto.
    + intro e. unfold GeminiApiClient.catchBlock.
      apply AllYields_bind; [cbn; auto |]. intro now.
      destruct (negb isRetry && _); [apply IH | exact I].
Qed.

Lemma performNativeStreamRequest_native fuel streamRequest modelId isRetry :
  AllYields native (request_stream fuel streamRequest modelId isRetry).
Proof. apply performNativeStreamRequest_yields; reflexivity. Qed.

(** *** Token counts *)

Lemma or_zero_count n : or_zero n = count n.
Proof. destruct n as [[s | s | | s m e] |]; reflexivity. Qed.

Lemma mapCandidates_no_null items :
  GeminiApiClient.mapCandidates items
  = if no_null items then Some (map GeminiApiClient.nativeCandidate (present items)) else None.
Proof.
  induction items as [| [candidate |] items IH]; cbn; [reflexivity | | reflexivity].
  fold (no_null items) (present items). rewrite IH. destruct (no_null items); reflexivity.
Qed.


(** C10.  For an event that carries [usageMetadata], whatever total the
    upstream reports in it, every chunk the loop emits for the event has a
    [usageMetadata] whose [totalTokenCount] is the prompt count plus the
    candidates count, an absent count taken as zero, added as JavaScript
    adds numbers; for counts that are safe integers with a safe sum, that
    total is the sum of the integers.  The event yields one chunk exactly
    when its candidates are an array without a [null] in it. *)
Theorem totalTokenCount_is_sum (modelId : string) (cands : option Wire.Candidates)
    (prompt candidatesCount reported : option Number.t) (w : World) :
  let event :=
    Wire.mkEvent (Some (Wire.mkResponse cands
      (Some (Wire.mkUsageMetadata prompt candidatesCount reported)))) in
  let emitted := yields (run (GeminiApiClient.emitChunk modelId tt event) w) in
  Forall (fun chunk =>
            option_map totalTokenCount (usageMetadata (data chunk))
            = Some (Number.plus (count prompt) (count candidatesCount))
            /\ option_map promptTokenCount (usageMetadata (data chunk)) = Some (count prompt)
            /\ option_map candidatesTokenCount (usageMetadata (data chunk))
               = Some (count candidatesCount))
         emitted
  /\ (forall p c : Z,
        safe p -> safe c -> safe (p + c) ->
        count prompt = Number.of_Z p -> count candidatesCount = Number.of_Z c ->
        Forall (fun chunk =>
                  option_map totalTokenCount (usageMetadata (data chunk))
                  = Some (Number.of_Z (p + c)))
               emitted)
  /\ List.length emitted
     = match cands with
       | Some (Wire.Items items) => if no_null items then 1%nat else 0%nat
       | _ => 0%nat
       end.
Proof.
  intros event emitted. subst event emitted.
  unfold GeminiApiClient.emitChunk.
  cbn [Wire.candidates].
  destruct cands as [[| items] |]; cbn [run yields List.length];
    try solve [split; [constructor | split; [intros; constructor | reflexivity]]].
  rewrite mapCandidates_no_null.
  destruct (no_null items); cbn [run yields yielded List.length];
    try solve [split; [constructor | split; [intros; constructor | reflexivity]]].
  unfold GeminiApiClient.nativeResponse.
  cbn [Wire.usageMetadata Wire.promptTokenCount Wire.candidatesTokenCount data usageMetadata
       option_map totalTokenCount promptTokenCount candidatesTokenCount].
  rewrite !or_zero_count. split; [| split; [| reflexivity]].
  - constructor; [| constructor]. repeat split.
  - intros p c Hp Hc Hs Ep Ec. constructor; [| constructor].
    rewrite Ep, Ec, plus_of_Z by assumption. reflexivity.
Qed.

(** X29.  In every world, every chunk the streaming operation yields has a
    total that is the sum of its two counts, added as JavaScript adds
    numbers. *)
Lemma emitted_totals_are_sums fuel streamRequest modelId isRetry w :
  Forall balanced (yields (run (request_stream fuel streamRequest modelId isRetry) w)).
Proof.
  apply AllYields_run, performNativeStreamRequest_yields.
  - intros m fb u H. discriminate H.
  - intros m response cands u Hu. unfold GeminiApiClient.nativeResponse in Hu.
    cbn in Hu. destruct (Wire.usageMetadata response); [| discriminate].
    injection Hu as <-. reflexivity.
Qed.

(** *** Aggregation *)

Lemma absorbCandidate_cons first others c :
  GeminiApiClient.absorbCandidate (first :: others) c = extended first [c] :: others.
Proof.
  unfold GeminiApiClient.absorbCandidate, extended, lastSeenFrom,
    shown_finishReason, shown_groundingMetadata.
  cbn. rewrite app_nil_r.
  destruct (truthy_opt (finishReason c)) eqn:Hf.
  - destruct (finishReason c) as [s |]; [| discriminate].
    destruct (groundingMetadata c) as [g |]; [destruct (Json.truthy g) |]; reflexivity.
  - destruct (groundingMetadata c) as [g |]; [destruct (Json.truthy g) |]; reflexivity.
Qed.

Lemma extended_extended first c cs :
  extended (extended first [c]) cs = extended first (c :: cs).
Proof.
  unfold extended, lastSeenFrom. cbn. rewrite app_nil_r, <- app_assoc. reflexivity.
Qed.

Lemma fold_absorbCandidate first others cs :
  fold_left GeminiApiClient.absorbCandidate cs (first :: others) = extended first cs :: others.
Proof.
  revert first. induction cs as [| c cs IH]; intro first.
  - cbn. unfold extended, lastSeenFrom. cbn. rewrite app_nil_r.
    destruct first as [[r ps] f g]. reflexivity.
  - cbn [fold_left]. rewrite absorbCandidate_cons, IH, extended_extended. reflexivity.
Qed.

Lemma fold_absorbCandidate_nil cs :
  fold_left GeminiApiClient.absorbCandidate cs []
  = match cs with
    | [] => []
    | _ :: _ => [merged cs]
    end.
Proof.
  destruct cs as [| c cs]; [reflexivity |].
  cbn [fold_left].
  change (GeminiApiClient.absorbCandidate [] c)
    with (GeminiApiClient.absorbCandidate
            [ {| content := {| role := "model"; parts := [] |};
                 finishReason := None; groundingMetadata := None |} ] c).
  rewrite absorbCandidate_cons, fold_absorbCandidate, extended_extended. reflexivity.
Qed.

Lemma absorbChunk_native acc chunk :
  native chunk ->
  GeminiApiClient.absorbChunk acc chunk
  = (fold_left GeminiApiClient.absorbCandidate (candidates (data chunk)) (fst acc),
     match usageMetadata (data chunk) with
     | Some u => Some u
     | None => snd acc
     end).
Proof. intro H. unfold GeminiApiClient.absorbChunk. rewrite H. reflexivity. Qed.

Lemma fold_absorbChunk chunks cs u :
  Forall native chunks ->
  fold_left GeminiApiClient.absorbChunk chunks (cs, u)
  = (fold_left GeminiApiClient.absorbCandidate (arriving chunks) cs,
     lastSeenFrom u (fun chunk => usageMetadata (data chunk)) chunks).
Proof.
  intro H. revert cs u. induction H as [| chunk chunks Hc _ IH]; intros cs u.
  - reflexivity.
  - cbn [fold_left arriving flat_map]. rewrite fold_left_app.
    rewrite absorbChunk_native by assumption. cbn [fst snd]. rewrite IH.
    unfold lastSeenFrom. cbn [fold_left].
    destruct (usageMetadata (data chunk)); reflexivity.
Qed.

(** The loop of [getCompletionNative] computes [aggregate]. *)
Lemma absorbChunk_aggregate modelId chunks :
  Forall native chunks ->
  let acc := fold_left GeminiApiClient.absorbChunk chunks ([], None) in
  {| candidates := fst acc; usageMetadata := snd acc; modelVersion := modelId |}
  = aggregate modelId chunks.
Proof.
  intros H acc. subst acc. rewrite fold_absorbChunk by assumption.
  cbn [fst snd]. rewrite fold_absorbCandidate_nil. reflexivity.
Qed.

(** C9 (as amended).  When authentication and project discovery succeed
    and the streaming operation produces the chunks [chunks] and ends
    normally, [getCompletionNative] returns [aggregate modelId chunks]: no
    candidate at all when none arrived, and otherwise one candidate whose
    parts are the parts of every arriving candidate in the order of
    arrival, with the last [finishReason] that is not empty and the last
    truthy [groundingMetadata]; [usageMetadata] is the last one a chunk
    carried. *)
Theorem getCompletionNative_aggregates {Y : Type} modelId request projectId chunks w w2 :
  let prelude : Prog Y string :=
    AuthManager.initializeAuth env ;; GeminiApiClient.discoverProjectId env in
  result (run prelude w) = Returned projectId ->
  run (request_stream 2%nat
         (GeminiApiClient.buildNativeStreamRequest modelId projectId request) modelId false)
      (final (run prelude w))
  = mkOutcome chunks (Returned tt) w2 ->
  let o := run (GeminiApiClient.getCompletionNative (Y := Y) env JSON_parse modelId request) w in
  result o = Returned (aggregate modelId chunks) /\ final o = w2.
Proof.
  intros prelude Hpre Hstream o.
  assert (Hnative : Forall native chunks).
  { change chunks with (yields (mkOutcome chunks (Returned tt) w2)).
    rewrite <- Hstream. apply AllYields_run, performNativeStreamRequest_native. }
  subst o prelude. unfold GeminiApiClient.getCompletionNative.
  rewrite run_bind, result_andThen in Hpre.
  rewrite run_bind, final_andThen in Hstream.
  rewrite run_bind, result_andThen, final_andThen.
  destruct (result (run (Y := Y) (AuthManager.initializeAuth env) w)) as [[] | e |];
    try discriminate.
  cbv beta iota in *.
  rewrite run_bind, result_andThen, final_andThen.
  rewrite Hpre. rewrite run_bind, result_andThen, final_andThen.
  rewrite run_forAwait_fold, Hstream. cbn [result final yields run].
  rewrite absorbChunk_aggregate by assumption. split; reflexivity.
Qed.

End ClientProperties.

(** ** Concurrent callers *)

Section Concurrency.
Import EventLoop.
Variable env : Env.

Lemma act_resume_last (w : World) (ts : list Task) (R : Type) (op : Op R)
    (k : R -> Task) :
  act env (mkSystem w (ts ++ [Vis op k])) (Resume (List.length ts))
  = let '(r, w') := handle op w in
    let '(t, w'') := advance (k r) w' in
    mkSystem w'' (ts ++ [t]).
Proof.
  cbn [act tasks world].
  rewrite nth_error_app2, Nat.sub_diag by apply Nat.le_refl. cbn [nth_error].
  destruct (handle op w) as [r w']. destruct (advance (k r) w') as [t w''].
  unfold replace_nth.
  rewrite firstn_app, Nat.sub_diag, firstn_all, firstn_O, app_nil_r.
  rewrite skipn_all2 by (rewrite length_app; cbn; lia).
  reflexivity.
Qed.

(** One more caller, while the others wait for their refresh: it reads
    the same stale credential and sends a refresh request of its own. *)
Lemma one_more_refresh (w : World) (d : CachedTokenData.t) (rt : string)
    (seed : SeedText) (ts : list Task) :
  GCP_SERVICE_ACCOUNT env = Some seed ->
  storage_fails w = false ->
  tokenFile w = Some (TokenJson d) ->
  CachedTokenData.expiry_date d - clock w <= TOKEN_BUFFER_TIME ->
  CachedTokenData.refresh_token d = Some rt ->
  truthy_string rt = true ->
  exists t, awaits_refresh t = true
    /\ exec env [Call; Resume (List.length ts); Resume (List.length ts)] (mkSystem w ts)
       = mkSystem w (ts ++ [t]).
Proof.
  intros He Hs Hf Hstale Hrt Ht.
  assert (H : (TOKEN_BUFFER_TIME <? CachedTokenData.expiry_date d - clock w) = false)
    by (apply Z.ltb_ge; lia).
  unfold exec. cbn [fold_left].
  unfold act at 3. unfold AuthManager.initializeAuth. rewrite He.
  cbn [world tasks tryCatch bind AuthManager.getTokenFromFile await advance synchronous].
  rewrite act_resume_last.
  destruct w as [now tok pid file fails sem rr er sr reqs];
    cbn [storage_fails tokenFile clock] in Hs, Hf, H; subst.
  cbn [handle file_op storage_fails tokenFile advance synchronous tryCatch bind negb].
  rewrite act_resume_last.
  cbn [handle file_op storage_fails tokenFile clock advance synchronous tryCatch bind
       AuthManager.useCachedToken perform CachedTokenData.expiry_date
       CachedTokenData.refresh_token].
  rewrite H, Hrt, Ht.
  cbn [handle file_op storage_fails tokenFile clock advance synchronous tryCatch bind
       AuthManager.refreshAndCacheToken await].
  eexists. split; [| reflexivity]. reflexivity.
Qed.

Lemma callers_all_await (n : nat) (w : World) (d : CachedTokenData.t) (rt : string)
    (seed : SeedText) :
  GCP_SERVICE_ACCOUNT env = Some seed ->
  storage_fails w = false ->
  tokenFile w = Some (TokenJson d) ->
  CachedTokenData.expiry_date d - clock w <= TOKEN_BUFFER_TIME ->
  CachedTokenData.refresh_token d = Some rt ->
  truthy_string rt = true ->
  exists ts, exec env (callers n) (mkSystem w []) = mkSystem w ts
    /\ List.length ts = n
    /\ filter awaits_refresh ts = ts.
Proof.
  intros He Hs Hf Hstale Hrt Ht.
  induction n as [| n (ts & Hexec & Hlen & Hall)].
  - exists []. repeat split.
  - destruct (one_more_refresh w ts He Hs Hf Hstale Hrt Ht) as (t & Hawait & Hstep).
    exists (ts ++ [t])%list. repeat split.
    + cbn [callers]. unfold exec in *. rewrite fold_left_app, Hexec, <- Hlen. exact Hstep.
    + rewrite length_app, Hlen. cbn. lia.
    + rewrite filter_app, Hall. cbn [filter]. rewrite Hawait. reflexivity.
Qed.

(** C8 (as amended).  [initializeAuth] keeps no record of a refresh in
    progress.  With a cached credential that is stale and has a refresh
    token, each of [n] concurrent callers reads the cache and sends a
    refresh request of its own before any of the requests is answered:
    [n] refresh requests are outstanding together. *)
Theorem every_caller_refreshes (n : nat) (w : World) (d : CachedTokenData.t) (rt : string)
    (seed : SeedText) :
  GCP_SERVICE_ACCOUNT env = Some seed ->
  storage_fails w = false ->
  tokenFile w = Some (TokenJson d) ->
  CachedTokenData.expiry_date d - clock w <= TOKEN_BUFFER_TIME ->
  CachedTokenData.refresh_token d = Some rt ->
  truthy_string rt = true ->
  let s := exec env (callers n) (mkSystem w []) in
  refreshes_outstanding s = n /\ List.length (tasks s) = n /\ world s = w.
Proof.
  intros He Hs Hf Hstale Hrt Ht s.
  destruct (callers_all_await n w He Hs Hf Hstale Hrt Ht) as (ts & Hexec & Hlen & Hall).
  subst s. rewrite Hexec. unfold refreshes_outstanding. cbn [tasks world].
  rewrite Hall. repeat split; assumption.
Qed.

End Concurrency.

(** ** The decoder does not depend on how the bytes are cut *)

Section Decoder.
Context {J : Type}.
Variable parse : string -> option J.

Lemma run_processLines lines objectBuffer w :
  run (GeminiApiClient.processLines parse lines objectBuffer) w
  = mkOutcome (fst (lines_events parse lines objectBuffer))
      (Returned (snd (lines_events parse lines objectBuffer))) w.
Proof.
  revert objectBuffer. induction lines as [| line rest IH]; intro objectBuffer; cbn.
  - reflexivity.
  - destruct (trim_is_empty line).
    + destruct (truthy_string objectBuffer); [| apply IH].
      rewrite run_bind. unfold andThen, GeminiApiClient.yieldParsed.
      destruct (lines_events parse rest EmptyString) as [events ob] eqn:E.
      destruct (parse objectBuffer) as [j |]; cbn; rewrite IH, E; reflexivity.
    + destruct (startsWith "data: " line); apply IH.
Qed.

Lemma lines_events_app l1 l2 objectBuffer :
  lines_events parse (l1 ++ l2) objectBuffer
  = let '(e1, ob1) := lines_events parse l1 objectBuffer in
    let '(e2, ob2) := lines_events parse l2 ob1 in
    ((e1 ++ e2)%list, ob2).
Proof.
  revert objectBuffer. induction l1 as [| line rest IH]; intro objectBuffer; cbn.
  - destruct (lines_events parse l2 objectBuffer); reflexivity.
  - destruct (trim_is_empty line).
    + destruct (truthy_string objectBuffer); [| apply IH].
      rewrite IH. destruct (lines_events parse rest EmptyString) as [e1 ob1].
      destruct (lines_events parse l2 ob1) as [e2 ob2].
      destruct (parse objectBuffer); reflexivity.
    + destruct (startsWith "data: " line); apply IH.
Qed.

Lemma split_lines_not_nil s : split_lines s <> [].
Proof.
  destruct s as [| c s]; cbn; [discriminate |].
  destruct (Ascii.eqb c LF); [discriminate |].
  destruct (split_lines s); discriminate.
Qed.

(** Cutting a text in two: the lines of the whole are the complete lines
    of the first piece, then the lines of its unfinished line followed by
    the second piece. *)
Lemma split_lines_app a b :
  split_lines (a ++ b)
  = (removelast (split_lines a) ++ split_lines (last (split_lines a) EmptyString ++ b))%list.
Proof.
  induction a as [| c a IH]; [reflexivity |].
  cbn [append split_lines]. destruct (Ascii.eqb c LF) eqn:Ec.
  - rewrite IH. pose proof (split_lines_not_nil a) as Hn.
    destruct (split_lines a) as [| x l]; [contradiction |]. reflexivity.
  - rewrite IH. pose proof (split_lines_not_nil a) as Hn.
    destruct (split_lines a) as [| x [| y l]]; [contradiction | |].
    + cbn [removelast last app append split_lines]. rewrite Ec. reflexivity.
    + reflexivity.
Qed.

Lemma last_app_not_nil {A : Type} (l1 l2 : list A) (d : A) :
  l2 <> [] -> last (l1 ++ l2) d = last l2 d.
Proof.
  intro H. induction l1 as [| x l1 IH]; [reflexivity |].
  cbn [app]. destruct (l1 ++ l2)%list as [| y l] eqn:E.
  - destruct l1; [cbn in E; contradiction | discriminate].
  - cbn [last]. exact IH.
Qed.

Lemma removelast_split_lines_app a b :
  removelast (split_lines (a ++ b))
  = (removelast (split_lines a)
     ++ removelast (split_lines (last (split_lines a) EmptyString ++ b)))%list.
Proof.
  rewrite split_lines_app. apply removelast_app, split_lines_not_nil.
Qed.

Lemma last_split_lines_app a b :
  last (split_lines (a ++ b)) EmptyString
  = last (split_lines (last (split_lines a) EmptyString ++ b)) EmptyString.
Proof.
  rewrite split_lines_app. apply last_app_not_nil, split_lines_not_nil.
Qed.

(** The loop, started after some text [seen] has been read, on pieces
    that arrive in time and a stream that is closed in time. *)
Lemma run_readLoop_delivery idle pieces closing seen w :
  idle <> 0 ->
  in_time idle pieces ->
  closing <= idle ->
  let lines := split_lines seen in
  let o := run (GeminiApiClient.readLoop parse (arrivals pieces ++ [Closes closing])%list (Some idle)
                  (last lines EmptyString)
                  (snd (lines_events parse (removelast lines) EmptyString))) w in
  (fst (lines_events parse (removelast lines) EmptyString) ++ yields o)%list
  = decode parse (seen ++ text_of pieces)
  /\ result o = Returned tt.
Proof.
  intros Hidle Hin Hclose. revert seen w.
  assert (Harmed : timer_armed (Some idle) = Some idle).
  { cbn. destruct (Z.eqb_spec idle 0); congruence. }
  induction Hin as [| [delay value] pieces Hd _ IH]; intros seen w lines o.
  - subst o lines. cbn [arrivals map app text_of fold_right GeminiApiClient.readLoop run handle].
    unfold reader_read. rewrite Harmed. cbn [event_delay event_result].
    replace (idle <? closing) with false by (symmetry; apply Z.ltb_ge; exact Hclose).
    replace (seen ++ EmptyString) with seen
      by (clear; induction seen; cbn; congruence).
    unfold decode, flush.
    destruct (lines_events parse (removelast (split_lines seen)) EmptyString) as [events ob].
    cbn [fst snd]. unfold GeminiApiClient.yieldParsed.
    destruct (truthy_string ob); [destruct (parse ob) |]; cbn; split; reflexivity.
  - cbn [fst] in Hd.
    specialize (IH (seen ++ value) (tick delay w)). cbn zeta in IH.
    subst o lines.
    cbn [arrivals map app text_of fold_right fst snd GeminiApiClient.readLoop run handle].
    unfold reader_read. rewrite Harmed. cbn [event_delay event_result].
    replace (idle <? delay) with false by (symmetry; apply Z.ltb_ge; exact Hd).
    rewrite run_bind, run_processLines. unfold andThen. cbn [result final yields].
    rewrite removelast_split_lines_app, last_split_lines_app, lines_events_app in IH.
    destruct (lines_events parse (removelast (split_lines seen)) EmptyString) as [e1 ob1].
    cbn [fst snd] in *.
    destruct (lines_events parse
                (removelast (split_lines (last (split_lines seen) EmptyString ++ value)))
                ob1) as [e2 ob2].
    cbn [fst snd] in *.
    change (fold_right (fun p rest => snd p ++ rest) EmptyString pieces)
      with (text_of pieces).
    replace (seen ++ value ++ text_of pieces) with ((seen ++ value) ++ text_of pieces)
      by (clear; induction seen; cbn; congruence).
    destruct IH as [IHy IHr]. rewrite app_assoc. split; assumption.
Qed.

(** However a text is cut into pieces, if the pieces and the end of the
    stream come in time the decoder yields [decode] of the text and ends
    normally. *)
Lemma parseSSEStream_decode idle pieces closing w :
  idle <> 0 ->
  in_time idle pieces ->
  closing <= idle ->
  let o := run (GeminiApiClient.parseSSEStream parse (arrivals pieces ++ [Closes closing])%list
                  (Some idle)) w in
  yields o = decode parse (text_of pieces) /\ result o = Returned tt.
Proof.
  intros Hidle Hin Hclose.
  exact (run_readLoop_delivery EmptyString w Hidle Hin Hclose).
Qed.

(** X28.  Where cancelling closes the stream, the idle timer never makes the
    decoder throw: whatever the stream delivers and however long it stalls,
    the loop ends as on a normal end of stream. *)
Lemma idle_timer_never_throws stream idle buffer objectBuffer w :
  cancel_semantics w = ClosesStream ->
  idle <> 0 ->
  Forall no_error stream ->
  result (run (GeminiApiClient.readLoop parse stream (Some idle) buffer objectBuffer) w)
  = Returned tt.
Proof.
  intros Hsem Hidle Hok. revert buffer objectBuffer w Hsem.
  assert (Harmed : timer_armed (Some idle) = Some idle).
  { cbn. destruct (Z.eqb_spec idle 0); congruence. }
  assert (Hflush : forall ob w,
            result (run (if truthy_string ob
                         then GeminiApiClient.yieldParsed parse ob else Ret tt) w)
            = Returned tt).
  { intros ob w. unfold GeminiApiClient.yieldParsed.
    destruct (truthy_string ob); [destruct (parse ob) |]; reflexivity. }
  induction Hok as [| e rest He _ IH]; intros buffer objectBuffer w Hsem.
  - cbn [GeminiApiClient.readLoop run handle]. unfold reader_read.
    rewrite Harmed, Hsem. cbn [cancelled_read]. apply Hflush.
  - cbn [GeminiApiClient.readLoop run handle]. unfold reader_read. rewrite Harmed.
    destruct (idle <? event_delay e).
    + rewrite Hsem. cbn [cancelled_read]. apply Hflush.
    + destruct e as [delay value | delay | delay err]; cbn [event_result event_delay].
      * rewrite run_bind, run_processLines, result_andThen. cbn [result final].
        apply IH. exact Hsem.
      * apply Hflush.
      * contradiction.
Qed.

End Decoder.

(** * Concrete runs *)

(** ** The decoder *)

(** C4.  However the bytes are cut into reads, as long as the reads and
    the end of the stream come within the idle timeout: from the line
    [data: {a:1}] (the key in double quotes), a line feed and a second line
    feed, the decoder yields the one event [{a:1}]; from the line
    [data: {bad], two line feeds, the line [data: {b:2}] and two line feeds,
    it yields the one event [{b:2}]: the frame that does not parse is
    dropped and the stream is read on to its end, which is a normal end. *)
Theorem decoder_examples (pieces : list (Z * string)) (closing : Z) (w : World) :
  in_time IDLE_TIMEOUT_MS pieces ->
  closing <= IDLE_TIMEOUT_MS ->
  let o := run (GeminiApiClient.parseSSEStream Json.parse
                  (arrivals pieces ++ [Closes closing])%list (Some IDLE_TIMEOUT_MS)) w in
  (text_of pieces = frame_a ++ nl ->
   yields o = [Json.Obj [("a", Json.int 1)]] /\ result o = Returned tt)
  /\ (text_of pieces = frame_bad ++ nl ++ frame_b ++ nl ->
      yields o = [Json.Obj [("b", Json.int 2)]] /\ result o = Returned tt).
Proof.
  intros Hin Hclose o.
  destruct (parseSSEStream_decode Json.parse w (idle := IDLE_TIMEOUT_MS)
              ltac:(discriminate) Hin Hclose) as [Hy Hr].
  fold o in Hy, Hr. rewrite Hy, Hr.
  split; intros ->; split; reflexivity.
Qed.

(** The two sequences, cut as the spec writes them. *)
Lemma decoder_examples_witness :
  let idle := Some IDLE_TIMEOUT_MS in
  let one :=
    run (GeminiApiClient.parseSSEStream Json.parse
           [Arrives 5 frame_a; Arrives 5 nl; Closes 5] idle) quiet in
  let two :=
    run (GeminiApiClient.parseSSEStream Json.parse
           [Arrives 5 frame_bad; Arrives 5 nl; Arrives 5 frame_b; Arrives 5 nl; Closes 5]
           idle) quiet in
  (yields one = [Json.Obj [("a", Json.int 1)]] /\ result one = Returned tt)
  /\ (yields two = [Json.Obj [("b", Json.int 2)]] /\ result two = Returned tt).
Proof.
  assert (H5 : 5 <= IDLE_TIMEOUT_MS) by (vm_compute; discriminate).
  assert (Ha : in_time IDLE_TIMEOUT_MS [(5, frame_a); (5, nl)])
    by (repeat (constructor; [exact H5 |]); constructor).
  assert (Hb : in_time IDLE_TIMEOUT_MS [(5, frame_bad); (5, nl); (5, frame_b); (5, nl)])
    by (repeat (constructor; [exact H5 |]); constructor).
  split.
  - apply (proj1 (decoder_examples quiet Ha H5)). reflexivity.
  - apply (proj2 (decoder_examples quiet Hb H5)). reflexivity.
Defined.

(** ** The idle timer *)

(** C3, at a stream that stalls.  On a runtime that follows the Streams
    Standard the [reader.cancel] of the timer closes the stream
    and the pending [read()] is fulfilled with [done]: a hundred seconds
    after the last byte the sequence ends as a normal end of stream, and no
    error reaches the caller. *)
Theorem idle_stream_ends_normally :
  let o := run (GeminiApiClient.performNativeStreamRequest configured parse_event 2
                  (ask pro) pro false) stalling in
  cancel_semantics stalling = ClosesStream
  /\ yields o = [text_chunk pro "hello" "STOP"]
  /\ result o = Returned tt
  /\ clock (final o) = clock stalling + 100 + 10 + IDLE_TIMEOUT_MS.
Proof. vm_compute. repeat split. Qed.

(** On a runtime that rejects the pending read with the reason of the
    cancel, the same stream ends with the idle-timeout error. *)
Lemma idle_stream_throws_when_read_rejects :
  let o := run (GeminiApiClient.performNativeStreamRequest configured parse_event 2
                  (ask pro) pro false)
               (with_cancel_semantics RejectsPendingRead stalling) in
  yields o = [text_chunk pro "hello" "STOP"]
  /\ result o = Thrown (newError "Stream idle timeout after 100000ms")
  /\ sent_models (final o) = [pro].
Proof. vm_compute. repeat split. Qed.

(** ** Rate limits *)

(** C1, at a substitute that is rate-limited too.  The notice is yielded
    and the substitute is asked, marked as a retry; its 429 does not end
    the call: the [catch] block of the first attempt asks the original
    model again, and the caller gets that answer after the notice. *)
Theorem rate_limited_substitute_is_not_final :
  let o := run (GeminiApiClient.performNativeStreamRequest configured parse_event 2
                  (ask pro) pro false) both_limited in
  yields o = [GeminiApiClient.switchNotice pro flash; text_chunk pro "from pro" "STOP"]
  /\ result o = Returned tt
  /\ sent_models (final o) = [pro; flash; pro].
Proof. vm_compute. repeat split. Qed.

(** When the second 429 comes five seconds or more after the first
    request was made, it does end the call. *)
Lemma rate_limited_substitute_is_final_when_late :
  let w := with_stream_replies [refused 429 100; refused 429 5000] quiet in
  let o := run (GeminiApiClient.performNativeStreamRequest configured parse_event 2
                  (ask pro) pro false) w in
  yields o = [GeminiApiClient.switchNotice pro flash]
  /\ result o = Thrown (newError "Stream request failed: 429")
  /\ sent_models (final o) = [pro; flash].
Proof. vm_compute. repeat split. Qed.

(** ** Unauthorized *)

(** C2, at a second 401 on the streaming path.  The first 401 clears the
    cache, re-authenticates (the seed is still fresh, so nothing is
    refreshed) and asks again, marked as a retry; the 401 of that retry is
    not fatal: the [catch] block of the first attempt sends the request a
    third time, and the call ends normally. *)
Theorem second_401_is_retried_when_streaming :
  let o := run (GeminiApiClient.performNativeStreamRequest configured parse_event 2
                  (ask pro) pro false) twice_unauthorized in
  requests (final o)
  = [ReqStream (ask pro) (Some "token-0");
     ReqStream (ask pro) (Some "seed-access");
     ReqStream (ask pro) (Some "seed-access")]
  /\ result o = Returned tt
  /\ yields o = [text_chunk pro "hello" "STOP"].
Proof. vm_compute. repeat split. Qed.

(** [callEndpoint] does stop at the second 401: two requests, then the
    error. *)
Lemma second_401_is_fatal_for_callEndpoint :
  let reply := mkTimed 100 (Fulfilled (mkEndpointReply 401 "unauthorized")) in
  let o := run (Y := Empty_set)
             (AuthManager.callEndpoint configured 2 "loadCodeAssist" (Json.Obj []) false)
             (with_endpoint_replies [reply; reply; reply] quiet) in
  requests (final o)
  = [ReqEndpoint "loadCodeAssist" (Json.Obj []) (Some "seed-access");
     ReqEndpoint "loadCodeAssist" (Json.Obj []) (Some "seed-access")]
  /\ result o = Thrown (newError "API call failed with status 401: unauthorized").
Proof. vm_compute. repeat split. Qed.

(** ** Counterexamples to the claims as worded, and witnesses *)

(** Counterexample to C6 as worded: without [GCP_SERVICE_ACCOUNT] the call
    throws and adopts nothing, fresh cache or not. *)
Lemma fresh_cache_not_adopted_without_seed : ~ fresh_cache_always_adopted.
Proof.
  intro H.
  specialize (H unconfigured (with_tokenFile (Some (TokenJson cached_fresh)) quiet)
                cached_fresh eq_refl eq_refl eq_refl).
  vm_compute in H. discriminate H.
Qed.

Lemma initializeAuth_fresh_cache_witness :
  let w := with_tokenFile (Some (TokenJson cached_fresh)) quiet in
  requests (final (run (Y := Empty_set) (AuthManager.initializeAuth configured) w))
  = requests w
  /\ run (Y := Empty_set) (AuthManager.initializeAuth configured) w
     = mkOutcome [] (Returned tt) (set_accessToken (Some "cached-access") w).
Proof.
  exact (initializeAuth_fresh_cache (Y := Empty_set) configured
           (with_tokenFile (Some (TokenJson cached_fresh)) quiet) (d := cached_fresh)
           eq_refl eq_refl eq_refl).
Defined.

(** Counterexample to C7 as worded: with a store that fails, the fresh
    seed is adopted and the call returns, but the file does not hold the
    seed. *)
Lemma fresh_seed_not_persisted_by_failing_store : ~ fresh_seed_always_persisted.
Proof.
  intro H.
  destruct (H configured (with_storage_fails true quiet) seed eq_refl eq_refl eq_refl)
    as (_ & _ & Hfile).
  vm_compute in Hfile. discriminate Hfile.
Qed.

Lemma initializeAuth_fresh_seed_witness :
  let o := run (Y := Empty_set) (AuthManager.initializeAuth configured) quiet in
  o = mkOutcome [] (Returned tt)
        (set_tokenFile (Some (TokenJson (seed_record seed 1000)))
           (set_accessToken (Some "seed-access") quiet))
  /\ accessToken (final o) = Some "seed-access"
  /\ tokenFile (final o) = Some (TokenJson (seed_record seed 1000))
  /\ requests (final o) = [].
Proof.
  exact (initializeAuth_fresh_seed (Y := Empty_set) configured quiet (c := seed)
           eq_refl eq_refl eq_refl).
Defined.

(** Counterexample to C5 as worded: a 429 after 100 ms, with the fallback
    on, is followed by a request for the substitute model, not by the same
    request. *)
Lemma rate_limit_is_not_retried_unchanged : ~ quick_failure_always_retried_unchanged.
Proof.
  intro H.
  destruct (H configured parse_event (ask pro) pro limited_once
              (newError "Stream request failed: 429") eq_refl
              (or_intror eq_refl)) as [H1 _].
  vm_compute in H1. discriminate H1.
Qed.

Lemma transient_failure_retried_once_witness :
  let o1 := run (retried configured parse_event (ask pro) pro) failing_once in
  let o2 := run (retried configured parse_event (ask pro) pro) (final o1) in
  run (GeminiApiClient.performNativeStreamRequest configured parse_event 2 (ask pro) pro false)
      failing_once
  = mkOutcome (yields o1 ++ yields o2) (result o2) (final o2)
  /\ requests (final o2)
     = [ReqStream (ask pro) (Some "token-0"); ReqStream (ask pro) (Some "token-0")].
Proof.
  exact (transient_failure_retried_once configured parse_event (ask pro) pro failing_once
           (e := newError "Stream request failed: 500") eq_refl eq_refl
           (or_intror eq_refl)).
Defined.

(** Counterexample to C9 as worded: a stream that ends without a chunk
    makes a response with no candidate. *)
Lemma no_chunk_no_candidate : ~ always_one_candidate.
Proof.
  intro H.
  specialize (H configured parse_event pro (Json.Obj []) "project-1" [] silent_stream).
  vm_compute in H. specialize (H _ eq_refl eq_refl). discriminate H.
Qed.

Lemma getCompletionNative_aggregates_witness :
  let o := run (Y := Empty_set)
             (GeminiApiClient.getCompletionNative configured parse_event pro (Json.Obj []))
             three_chunks in
  result o
  = Returned (aggregate pro [text_chunk pro "one" "OTHER"; text_chunk pro "two" "STOP";
                             text_chunk pro "three" "MAX_TOKENS"])
  /\ final o
     = final (run (GeminiApiClient.performNativeStreamRequest configured parse_event 2
                     (ask pro) pro false)
                  (final (run (Y := Empty_set)
                            (AuthManager.initializeAuth configured ;;
                             GeminiApiClient.discoverProjectId configured)%prog
                            three_chunks))).
Proof.
  apply (getCompletionNative_aggregates (Y := Empty_set) configured parse_event pro
           (Json.Obj []) (projectId := "project-1")).
  - vm_compute. reflexivity.
  - vm_compute. reflexivity.
Defined.

(** Counterexample to C8 as worded: a second caller arrives while the
    first awaits its refresh, and sends a refresh request too. *)
Lemma two_refreshes_in_flight : ~ EventLoop.single_flight configured stale_cache.
Proof.
  intro H.
  specialize (H [EventLoop.Call; EventLoop.Resume 0; EventLoop.Resume 0;
                 EventLoop.Call; EventLoop.Resume 1; EventLoop.Resume 1]).
  vm_compute in H. lia.
Qed.

Lemma every_caller_refreshes_witness :
  let s := EventLoop.exec configured (EventLoop.callers 3)
             (EventLoop.mkSystem stale_cache []) in
  EventLoop.refreshes_outstanding s = 3%nat
  /\ List.length (EventLoop.tasks s) = 3%nat
  /\ EventLoop.world s = stale_cache.
Proof.
  apply (every_caller_refreshes configured 3 stale_cache
           (d := cached_stale) (rt := "cached-refresh") (seed := SeedJson seed)).
  - reflexivity.
  - reflexivity.
  - reflexivity.
  - vm_compute. discriminate.
  - reflexivity.
  - reflexivity.
Defined.

(** * More properties of the code *)

(** ** Outcomes that are known *)

Lemma andThen_returned {Y A B : Type} (a : A) (w : World)
    (next : A -> World -> Outcome Y B) :
  andThen (mkOutcome [] (Returned a) w) next = next a w.
Proof. unfold andThen. cbn. destruct (next a w); reflexivity. Qed.

Lemma andThen_thrown {Y A B : Type} (e : JsValue) (w : World)
    (next : A -> World -> Outcome Y B) :
  andThen (mkOutcome [] (Thrown e) w) next = mkOutcome [] (Thrown e) w.
Proof. reflexivity. Qed.

Lemma orElse_returned {Y A : Type} (a : A) (w : World)
    (handler : JsValue -> World -> Outcome Y A) :
  orElse (mkOutcome [] (Returned a) w) handler = mkOutcome [] (Returned a) w.
Proof. reflexivity. Qed.

Lemma orElse_thrown {Y A : Type} (e : JsValue) (w : World)
    (handler : JsValue -> World -> Outcome Y A) :
  orElse (mkOutcome (A := A) [] (Thrown e) w) handler = handler e w.
Proof. unfold orElse. cbn. destruct (handler e w); reflexivity. Qed.

(** ** The token file *)

Section FileProperties.
Context {Y : Type}.

Lemma run_getTokenFromFile (w : World) :
  run (Y := Y) AuthManager.getTokenFromFile w = mkOutcome [] (Returned (cached w)) w.
Proof.
  unfold AuthManager.getTokenFromFile, cached.
  destruct w as [now tok pid file fails sem rr er sr reqs].
  destruct fails, file as [[| d] |]; reflexivity.
Qed.

Lemma run_cacheTokenToFile (accessToken : string) (expiryDate : Z)
    (refreshToken : option string) (w : World) :
  run (Y := Y) (AuthManager.cacheTokenToFile accessToken expiryDate refreshToken) w
  = mkOutcome [] (Returned tt)
      (written (TokenJson (CachedTokenData.mk accessToken refreshToken expiryDate (clock w))) w).
Proof.
  unfold AuthManager.cacheTokenToFile, written.
  destruct w as [now tok pid file fails sem rr er sr reqs].
  destruct fails; reflexivity.
Qed.

Lemma run_clearTokenCache (w : World) :
  run (Y := Y) AuthManager.clearTokenCache w = mkOutcome [] (Returned tt) (cleared w).
Proof.
  unfold AuthManager.clearTokenCache, cleared.
  destruct w as [now tok pid file fails sem rr er sr reqs].
  destruct fails, file as [text |]; reflexivity.
Qed.

End FileProperties.

(** ** The refresh *)

Section RefreshProperties.
Context {Y : Type}.

Lemma run_refreshAndCacheToken (rt : string) (w : World) :
  run (Y := Y) (AuthManager.refreshAndCacheToken rt) w
  = let w1 := after_refresh_request rt w in
    match answer (next_reply (refresh_replies w)) with
    | Rejected e => mkOutcome [] (Thrown e) w1
    | Fulfilled (RefreshNotOk errorText) =>
        mkOutcome [] (Thrown (newError ("Token refresh failed: " ++ errorText))) w1
    | Fulfilled (RefreshOk data) =>
        mkOutcome [] (Returned tt)
          (written (TokenJson (refreshed_record data rt (clock w1)))
             (set_accessToken (Some (TokenRefreshResponse.access_token data)) w1))
    end.
Proof.
  unfold AuthManager.refreshAndCacheToken, after_refresh_request.
  cbn [bind await run handle].
  destruct (answer (next_reply (refresh_replies w))) as [[errorText | data] | e];
    cbn [bind perform run handle]; try reflexivity.
  rewrite run_cacheTokenToFile. reflexivity.
Qed.

End RefreshProperties.

(** ** [initializeAuth] in every world *)

Section AuthEverywhere.
Context {Y : Type}.
Variable env : Env.

Ltac finish :=
  repeat split; auto; try discriminate; try (cbn; lia);
  try (repeat constructor; fail); try (cbn; eauto; fail).

Lemma requests_written text w : requests (written text w) = requests w.
Proof. unfold written. destruct (storage_fails w); reflexivity. Qed.

Lemma accessToken_written text w : accessToken (written text w) = accessToken w.
Proof. unfold written. destruct (storage_fails w); reflexivity. Qed.

(** What a refresh does, whatever the answer: one request, no hang, and
    a token in place when it returns. *)
Lemma refresh_facts (rt : string) (w : World) :
  exists r wf,
    run (Y := Y) (AuthManager.refreshAndCacheToken rt) w = mkOutcome [] r wf
    /\ r <> Hangs
    /\ requests wf = (requests w ++ [ReqRefresh rt])%list
    /\ (r = Returned tt -> exists t, accessToken wf = Some t)
    /\ (forall e, r = Thrown e -> accessToken wf = accessToken w).
Proof.
  rewrite run_refreshAndCacheToken. cbn zeta.
  destruct (answer (next_reply (refresh_replies w))) as [[errorText | data] | e].
  - eexists; eexists. split; [reflexivity |].
    repeat split; try discriminate.
  - eexists; eexists. split; [reflexivity |].
    rewrite requests_written, accessToken_written.
    repeat split; try discriminate. cbn. eauto.
  - eexists; eexists. split; [reflexivity |].
    repeat split; try discriminate.
Qed.

(** The part of [initializeAuth] about the cached token. *)
Lemma useCachedToken_facts (c : option CachedTokenData.t) (w : World) :
  exists b wf l,
    run (Y := Y) (AuthManager.useCachedToken c) w = mkOutcome [] (Returned b) wf
    /\ requests wf = (requests w ++ l)%list
    /\ Forall is_refresh l /\ (List.length l <= 1)%nat
    /\ (b = true -> exists t, accessToken wf = Some t).
Proof.
  unfold AuthManager.useCachedToken.
  destruct c as [d |]; cbn [bind perform run handle].
  - destruct (TOKEN_BUFFER_TIME <? CachedTokenData.expiry_date d - clock w).
    + cbn. exists true, (set_accessToken (Some (CachedTokenData.access_token d)) w), [].
      rewrite app_nil_r. finish.
    + assert (Hno : exists b wf l,
                mkOutcome (Y := Y) [] (Returned false) w = mkOutcome [] (Returned b) wf
                /\ requests wf = (requests w ++ l)%list
                /\ Forall is_refresh l /\ (List.length l <= 1)%nat
                /\ (b = true -> exists t, accessToken wf = Some t)).
      { exists false, w, []. rewrite app_nil_r. finish. }
      destruct (CachedTokenData.refresh_token d) as [rt |]; [| exact Hno].
      destruct (truthy_string rt); [| exact Hno].
      rewrite run_tryCatch, run_bind.
      destruct (refresh_facts rt w) as (r & wf & Hrun & Hh & Hreq & Htok & _).
      rewrite Hrun. unfold andThen, orElse. cbn [result final yields].
      destruct r as [[] | e |]; cbn [run result final yields app].
      * exists true, wf, [ReqRefresh rt]. finish.
      * exists false, wf, [ReqRefresh rt]. finish.
      * contradiction.
  - exists false, w, []. rewrite app_nil_r. finish.
Qed.

(** The part of [initializeAuth] about the seed credential. *)
Lemma useEnvCredentials_facts (seed : SeedText) (w : World) :
  exists r wf l,
    run (Y := Y) (AuthManager.useEnvCredentials seed) w = mkOutcome [] r wf
    /\ r <> Hangs
    /\ requests wf = (requests w ++ l)%list
    /\ Forall is_refresh l /\ (List.length l <= 1)%nat
    /\ (r = Returned tt -> exists t, accessToken wf = Some t).
Proof.
  unfold AuthManager.useEnvCredentials.
  destruct seed as [| c].
  - exists (Thrown SyntaxError), w, []. rewrite app_nil_r.
    finish.
  - cbn [bind perform run handle].
    destruct (TOKEN_BUFFER_TIME <? OAuth2Credentials.expiry_date c - clock w).
    + cbn [bind perform run handle]. rewrite run_cacheTokenToFile.
      eexists; eexists; exists []. split; [reflexivity |].
      rewrite requests_written, accessToken_written, app_nil_r.
      finish.
    + destruct (refresh_facts (OAuth2Credentials.refresh_token c) w)
        as (r & wf & Hrun & Hh & Hreq & Htok & _).
      exists r, wf, [ReqRefresh (OAuth2Credentials.refresh_token c)].
      finish.
Qed.

(** The operations of [initializeAuth] are those of the manager. *)
Lemma cacheTokenToFile_auth_ops a x r :
  AllOps auth_op (AuthManager.cacheTokenToFile (Y := Y) a x r).
Proof.
  unfold AuthManager.cacheTokenToFile. apply AllOps_tryCatch; [| intro; exact I].
  cbn. split; [exact I |]. intro now. split; [exact I |]. intros [[] | e]; exact I.
Qed.

Lemma clearTokenCache_auth_ops : AllOps auth_op (AuthManager.clearTokenCache (Y := Y)).
Proof.
  unfold AuthManager.clearTokenCache. apply AllOps_tryCatch; [| intro; exact I].
  cbn. split; [exact I |]. intros [[|] | e]; cbn; auto.
  split; [exact I |]. intros [[] | e]; exact I.
Qed.

Lemma getTokenFromFile_auth_ops : AllOps auth_op (AuthManager.getTokenFromFile (Y := Y)).
Proof.
  unfold AuthManager.getTokenFromFile. apply AllOps_tryCatch; [| intro; exact I].
  cbn. split; [exact I |]. intros [[|] | e]; cbn; auto.
  split; [exact I |]. intros [[| d] | e]; exact I.
Qed.

Lemma refreshAndCacheToken_auth_ops rt :
  AllOps auth_op (AuthManager.refreshAndCacheToken (Y := Y) rt).
Proof.
  unfold AuthManager.refreshAndCacheToken. cbn [bind await perform AllOps].
  split; [exact I |].
  intros [[errorText | data] | e]; cbn [bind await perform AllOps]; auto.
  split; [exact I |]. intros []. split; [exact I |]. intro now.
  apply cacheTokenToFile_auth_ops.
Qed.

Lemma initializeAuth_auth_ops : AllOps auth_op (AuthManager.initializeAuth (Y := Y) env).
Proof.
  unfold AuthManager.initializeAuth.
  destruct (GCP_SERVICE_ACCOUNT env) as [seed |]; [| exact I].
  apply AllOps_tryCatch; [| intro; exact I].
  apply AllOps_bind.
  { apply AllOps_tryCatch; [apply getTokenFromFile_auth_ops | intro; exact I]. }
  intro c. apply AllOps_bind.
  - unfold AuthManager.useCachedToken. destruct c as [d |]; [| exact I].
    cbn [bind await perform AllOps]. split; [exact I |]. intro now.
    destruct (TOKEN_BUFFER_TIME <? _); [cbn; auto |].
    destruct (CachedTokenData.refresh_token d) as [rt |]; [| exact I].
    destruct (truthy_string rt); [| exact I].
    apply AllOps_tryCatch; [| intro; exact I].
    apply AllOps_bind; [apply refreshAndCacheToken_auth_ops | intro; exact I].
  - intros []; [exact I |].
    unfold AuthManager.useEnvCredentials. destruct seed as [| c']; [exact I |].
    cbn [bind await perform AllOps]. split; [exact I |]. intro now.
    destruct (TOKEN_BUFFER_TIME <? _).
    + cbn [bind await perform AllOps]. split; [exact I |]. intros [].
      apply cacheTokenToFile_auth_ops.
    + apply refreshAndCacheToken_auth_ops.
Qed.

Lemma auth_ops_frame {A : Type} (p : Prog Y A) (w : World) :
  AllOps auth_op p -> auth_frame w (final (run p w)).
Proof.
  intro Hp. apply (AllOps_run auth_op (auth_frame w)); auto.
  - intros R op w' Hop (H1 & H2 & H3 & H4 & H5). unfold auth_frame.
    destruct op; try contradiction; cbn; auto;
      unfold file_op; try (destruct (tokenFile w'));
      destruct (storage_fails w') eqn:Hs; cbn; rewrite ?Hs; auto.
  - repeat split.
Qed.

(** [initializeAuth] in every world and every configuration. *)
Lemma initializeAuth_facts (w : World) :
  exists r wf l,
    run (Y := Y) (AuthManager.initializeAuth env) w = mkOutcome [] r wf
    /\ r <> Hangs
    /\ requests wf = (requests w ++ l)%list
    /\ Forall is_refresh l /\ (List.length l <= 2)%nat
    /\ (r = Returned tt -> exists t, accessToken wf = Some t)
    /\ (forall e, r = Thrown e ->
          GCP_SERVICE_ACCOUNT env <> None -> error_with_prefix "Authentication failed: " e)
    /\ auth_frame w wf.
Proof.
  assert (Hframe : auth_frame w (final (run (Y := Y) (AuthManager.initializeAuth env) w)))
    by apply auth_ops_frame, initializeAuth_auth_ops.
  revert Hframe.
  unfold AuthManager.initializeAuth.
  destruct (GCP_SERVICE_ACCOUNT env) as [seed |].
  2:{ intro Hframe. eexists; eexists; exists []. split; [reflexivity |].
      rewrite app_nil_r. repeat split; auto; try discriminate.
      intros e _ Hn. contradiction. }
  rewrite run_tryCatch.
  assert (Hbody : exists r wf l,
            run (Y := Y)
              (cachedTokenData <- tryCatch AuthManager.getTokenFromFile (fun _ => Ret None) ;;
               returned <- AuthManager.useCachedToken cachedTokenData ;;
               if returned then Ret tt else AuthManager.useEnvCredentials seed)%prog w
            = mkOutcome [] r wf
            /\ r <> Hangs
            /\ requests wf = (requests w ++ l)%list
            /\ Forall is_refresh l /\ (List.length l <= 2)%nat
            /\ (r = Returned tt -> exists t, accessToken wf = Some t)).
  { rewrite run_bind, run_tryCatch, run_getTokenFromFile.
    unfold orElse. cbn [result]. unfold andThen at 1. cbn [result final yields app].
    rewrite run_bind.
    destruct (useCachedToken_facts (cached w) w)
      as (b & w1 & l1 & Hrun1 & Hreq1 & Hl1 & Hn1 & Htok1).
    rewrite Hrun1. unfold andThen. cbn [result final yields app].
    destruct b.
    - cbn [run yields result final].
      exists (Returned tt), w1, l1.
      split; [reflexivity |]. split; [discriminate |]. split; [assumption |].
      split; [assumption |]. split; [lia |]. intros _. apply Htok1. reflexivity.
    - destruct (useEnvCredentials_facts seed w1)
        as (r & w2 & l2 & Hrun2 & Hh & Hreq2 & Hl2 & Hn2 & Htok2).
      rewrite Hrun2. cbn [result final yields app].
      exists r, w2, (l1 ++ l2)%list.
      split; [reflexivity |]. split; [assumption |].
      split; [rewrite Hreq2, Hreq1, app_assoc; reflexivity |].
      split; [apply Forall_app; auto |].
      split; [rewrite length_app; lia | assumption]. }
  destruct Hbody as (r & wf & l & Hrun & Hh & Hreq & Hl & Hn & Htok).
  rewrite Hrun. unfold orElse. cbn [result final yields app].
  destruct r as [[] | e |]; cbn [run result final yields app]; intro Hframe.
  - exists (Returned tt), wf, l. repeat split; auto; try discriminate; apply Hframe.
  - eexists; exists wf, l. split; [reflexivity |].
    repeat split; auto; try discriminate; try apply Hframe.
    intros e' He' _. injection He' as <-. exists (errorMessage e). reflexivity.
  - contradiction.
Qed.

(** X1.  With [GCP_SERVICE_ACCOUNT] set, [initializeAuth] always ends: it
    either returns, and then the manager holds an access token, or throws
    an [Error] whose message begins with [Authentication failed: ]; it
    yields nothing.  All it sends are requests to the refresh endpoint, at
    most two of them. *)
Theorem initializeAuth_in_every_world (seed : SeedText) (w : World) :
  GCP_SERVICE_ACCOUNT env = Some seed ->
  let o := run (Y := Y) (AuthManager.initializeAuth env) w in
  yields o = []
  /\ ((result o = Returned tt /\ exists t, accessToken (final o) = Some t)
      \/ exists e, result o = Thrown e /\ error_with_prefix "Authentication failed: " e)
  /\ exists l, requests (final o) = (requests w ++ l)%list
               /\ Forall is_refresh l /\ (List.length l <= 2)%nat.
Proof.
  intros He o. subst o.
  destruct (initializeAuth_facts w) as (r & wf & l & Hrun & Hh & Hreq & Hl & Hn & Htok & Herr & _).
  rewrite Hrun. cbn [yields result final].
  split; [reflexivity |]. split; [| exists l; auto].
  destruct r as [[] | e |].
  - left. split; [reflexivity | apply Htok; reflexivity].
  - right. exists e. split; [reflexivity |]. apply Herr; [reflexivity | congruence].
  - contradiction.
Qed.

(** X2.  A cached credential that has expired and carries a refresh
    token is renewed with one refresh request, whatever the seed is, even
    one that does not parse: the manager takes the new access token, and
    the file gets the new token with its expiry counted from the time of
    the answer and the refresh token that was issued, or the one used when
    none was. *)
Theorem stale_cache_is_refreshed (seed : SeedText) (w : World) (d : CachedTokenData.t)
    (rt : string) (lat : Z) (data : TokenRefreshResponse.t)
    (rest : list (Timed RefreshReply)) :
  GCP_SERVICE_ACCOUNT env = Some seed ->
  storage_fails w = false ->
  tokenFile w = Some (TokenJson d) ->
  CachedTokenData.expiry_date d - clock w <= TOKEN_BUFFER_TIME ->
  CachedTokenData.refresh_token d = Some rt ->
  truthy_string rt = true ->
  refresh_replies w = mkTimed lat (Fulfilled (RefreshOk data)) :: rest ->
  let o := run (Y := Y) (AuthManager.initializeAuth env) w in
  let kept := refreshed_record data rt (clock w + lat) in
  yields o = [] /\ result o = Returned tt
  /\ accessToken (final o) = Some (TokenRefreshResponse.access_token data)
  /\ tokenFile (final o) = Some (TokenJson kept)
  /\ CachedTokenData.expiry_date kept
     = clock w + lat + TokenRefreshResponse.expires_in data * 1000
  /\ (truthy_opt (TokenRefreshResponse.refresh_token data) = false ->
      CachedTokenData.refresh_token kept = Some rt)
  /\ requests (final o) = (requests w ++ [ReqRefresh rt])%list
  /\ refresh_replies (final o) = rest.
Proof.
  intros He Hs Hf Hstale Hrt Ht Hr o kept.
  assert (H : (TOKEN_BUFFER_TIME <? CachedTokenData.expiry_date d - clock w) = false)
    by (apply Z.ltb_ge; lia).
  assert (Hkept : truthy_opt (TokenRefreshResponse.refresh_token data) = false ->
                  CachedTokenData.refresh_token kept = Some rt).
  { subst kept. unfold refreshed_record, nextRefreshToken. cbn.
    destruct (TokenRefreshResponse.refresh_token data) as [t |]; cbn; [| reflexivity].
    intros ->. reflexivity. }
  subst o. unfold AuthManager.initializeAuth. rewrite He.
  destruct w as [now tok pid file fails sem rr er sr reqs]; cbn in *; subst.
  cbn. rewrite H, Hrt, Ht. cbn. repeat split; auto.
Qed.

(** X3.  A store that fails costs nothing but the cache: with a seed that
    is still fresh, [initializeAuth] returns with the seed's access token
    and sends nothing; with a seed that has expired it refreshes with the
    seed's refresh token and returns with the new access token.  The
    file is not touched either way. *)
Theorem storage_failure_is_tolerated (c : OAuth2Credentials.t) (w : World) :
  GCP_SERVICE_ACCOUNT env = Some (SeedJson c) ->
  storage_fails w = true ->
  let o := run (Y := Y) (AuthManager.initializeAuth env) w in
  (OAuth2Credentials.expiry_date c - clock w > TOKEN_BUFFER_TIME ->
   o = mkOutcome [] (Returned tt)
         (set_accessToken (Some (OAuth2Credentials.access_token c)) w))
  /\ (OAuth2Credentials.expiry_date c - clock w <= TOKEN_BUFFER_TIME ->
      forall lat data rest,
        refresh_replies w = mkTimed lat (Fulfilled (RefreshOk data)) :: rest ->
        result o = Returned tt
        /\ accessToken (final o) = Some (TokenRefreshResponse.access_token data)
        /\ tokenFile (final o) = tokenFile w
        /\ requests (final o)
           = (requests w ++ [ReqRefresh (OAuth2Credentials.refresh_token c)])%list).
Proof.
  intros He Hs o. subst o. unfold AuthManager.initializeAuth. rewrite He.
  split.
  - intro Hx. apply Z.gt_lt, Z.ltb_lt in Hx.
    destruct w as [now tok pid file fails sem rr er sr reqs]; cbn in *; subst.
    cbn. rewrite Hx. reflexivity.
  - intros Hx lat data rest Hr.
    assert (H : (TOKEN_BUFFER_TIME <? OAuth2Credentials.expiry_date c - clock w) = false)
      by (apply Z.ltb_ge; lia).
    destruct w as [now tok pid file fails sem rr er sr reqs]; cbn in *; subst.
    cbn. rewrite H. cbn. repeat split.
Qed.

End AuthEverywhere.

(** ** The cache file, written and read *)

Section CacheProperties.
Context {Y : Type}.

(** X5.  With a store that works, after [clearTokenCache] the cache reads
    as empty: a file that existed holds the empty text, which does not
    parse, and one that did not exist is not created.  Nothing is sent,
    and the token the manager holds is left alone. *)
Theorem cleared_cache_reads_as_empty (w : World) :
  storage_fails w = false ->
  let o := run (Y := Y) (AuthManager.clearTokenCache ;; AuthManager.getTokenFromFile)%prog w in
  yields o = []
  /\ result o = Returned None
  /\ tokenFile (final o) = match tokenFile w with
                           | Some _ => Some NotJson
                           | None => None
                           end
  /\ requests (final o) = requests w
  /\ accessToken (final o) = accessToken w.
Proof.
  intro Hs. cbn zeta. rewrite run_bind, run_clearTokenCache. unfold andThen.
  cbn [result final yields]. rewrite run_getTokenFromFile. cbn [result final yields app].
  unfold cached, cleared.
  destruct w as [now tok pid file fails sem rr er sr reqs]; cbn in *; subst.
  destruct file as [[| d] |]; cbn; repeat split.
Qed.

End CacheProperties.

(** ** [callEndpoint] *)

Section CallProperties.
Context {Y : Type}.
Variable env : Env.

Lemma AllOps_impl {A : Type} (P Q : forall R : Type, Op R -> Prop) (p : Prog Y A) :
  (forall R (op : Op R), P R op -> Q R op) -> AllOps P p -> AllOps Q p.
Proof.
  intro H. induction p as [a | e | | y k IH | R op k IH]; cbn; auto.
  intros [Hop Hk]. split; auto.
Qed.

Lemma auth_op_call_op (R : Type) (op : Op R) : auth_op op -> call_op op.
Proof. destruct op; cbn; auto. Qed.

Lemma callEndpoint_call_ops fuel method body isRetry :
  AllOps call_op (AuthManager.callEndpoint (Y := Y) env fuel method body isRetry).
Proof.
  assert (Hinit : AllOps call_op (AuthManager.initializeAuth (Y := Y) env))
    by (apply (AllOps_impl auth_op); [apply auth_op_call_op | apply initializeAuth_auth_ops]).
  revert isRetry. induction fuel as [| fuel IH]; intro isRetry; cbn [AuthManager.callEndpoint].
  - exact I.
  - apply AllOps_bind; [exact Hinit |]. intros _.
    cbn [bind await perform AllOps]. split; [exact I |]. intro token.
    split; [exact I |]. intros [response | e]; cbn [bind await perform AllOps]; [| exact I].
    destruct (negb (ok (ep_status response))).
    + destruct ((ep_status response =? 401) && negb isRetry); [| exact I].
      cbn [bind await perform AllOps]. split; [exact I |]. intros [].
      apply AllOps_bind.
      { apply (AllOps_impl auth_op); [apply auth_op_call_op | apply clearTokenCache_auth_ops]. }
      intros _. apply AllOps_bind; [exact Hinit |]. intros _. apply IH.
    + destruct (Json.parse (ep_text response)); exact I.
Qed.

Lemma call_ops_frame {A : Type} (p : Prog Y A) (w : World) :
  AllOps call_op p -> call_frame w (final (run p w)).
Proof.
  intro Hp. apply (AllOps_run call_op (call_frame w)); auto.
  - intros R op w' Hop (H1 & H2 & H3 & H4). unfold call_frame.
    destruct op; try contradiction; cbn; auto;
      unfold file_op; try (destruct (tokenFile w'));
      destruct (storage_fails w') eqn:Hs; cbn; rewrite ?Hs; auto.
  - repeat split.
Qed.

(** One level of [callEndpoint], as the outcome of its steps. *)
Lemma run_callEndpoint fuel method body isRetry w :
  run (AuthManager.callEndpoint (Y := Y) env (S fuel) method body isRetry) w
  = andThen (run (AuthManager.initializeAuth env) w) (fun _ w1 =>
      let r := next_reply (endpoint_replies w1) in
      let w2 := tick (latency r)
                  (pop_endpoint (sent (ReqEndpoint method body (accessToken w1)) w1)) in
      match answer r with
      | Rejected e => mkOutcome [] (Thrown e) w2
      | Fulfilled response =>
          if negb (ok (ep_status response)) then
            if (ep_status response =? 401) && negb isRetry then
              run (AuthManager.clearTokenCache ;;
                   AuthManager.initializeAuth env ;;
                   AuthManager.callEndpoint env fuel method body true)
                  (set_accessToken None w2)
            else mkOutcome [] (Thrown (call_failed (ep_status response) (ep_text response))) w2
          else
            mkOutcome []
              match Json.parse (ep_text response) with
              | Some j => Returned j
              | None => Thrown SyntaxError
              end w2
      end).
Proof.
  cbn [AuthManager.callEndpoint]. rewrite run_bind. f_equal.
  extensionality u. extensionality w1.
  cbn [bind perform await run handle].
  destruct (answer (next_reply (endpoint_replies w1))) as [response | e]; [| reflexivity].
  cbn [bind perform await run handle].
  destruct (negb (ok (ep_status response))).
  - destruct ((ep_status response =? 401) && negb isRetry); reflexivity.
  - destruct (Json.parse (ep_text response)); reflexivity.
Qed.

Lemma cleared_fields w :
  clock (cleared w) = clock w /\ accessToken (cleared w) = accessToken w
  /\ storage_fails (cleared w) = storage_fails w
  /\ endpoint_replies (cleared w) = endpoint_replies w
  /\ (storage_fails w = false -> cached (cleared w) = None).
Proof.
  unfold cleared, cached. destruct w as [now tok pid file fails sem rr er sr reqs]; cbn.
  destruct fails, file as [[| d] |]; cbn; repeat split; auto; discriminate.
Qed.

Lemma written_fields text w :
  clock (written text w) = clock w /\ accessToken (written text w) = accessToken w
  /\ storage_fails (written text w) = storage_fails w
  /\ endpoint_replies (written text w) = endpoint_replies w
  /\ (storage_fails w = false -> tokenFile (written text w) = Some text).
Proof.
  unfold written. destruct w as [now tok pid file fails sem rr er sr reqs]; cbn.
  destruct fails; cbn; repeat split; auto; discriminate.
Qed.

Lemma requests_cleared w : requests (cleared w) = requests w.
Proof.
  unfold cleared. destruct (storage_fails w), (tokenFile w); reflexivity.
Qed.

Lemma refresh_is_call method body l : Forall is_refresh l -> Forall (is_call method body) l.
Proof.
  apply Forall_impl. intros [rt | m b t | req t] H; cbn in *; auto; contradiction.
Qed.

Lemma endpoint_calls_app l1 l2 :
  endpoint_calls (l1 ++ l2) = (endpoint_calls l1 + endpoint_calls l2)%nat.
Proof. unfold endpoint_calls. rewrite filter_app, length_app. reflexivity. Qed.

Lemma endpoint_calls_refresh l : Forall is_refresh l -> endpoint_calls l = 0%nat.
Proof.
  unfold endpoint_calls. induction 1 as [| r l Hr Hl IH]; [reflexivity |].
  destruct r; try contradiction. exact IH.
Qed.

(** The requests of one level of [callEndpoint] that does not go on to a
    second. *)
Lemma one_call_sent method body (w w1 : World) (l : list NetRequest) (d : Z) :
  requests w1 = (requests w ++ l)%list ->
  Forall is_refresh l ->
  exists l',
    requests (tick d (pop_endpoint (sent (ReqEndpoint method body (accessToken w1)) w1)))
    = (requests w ++ l')%list
    /\ Forall (is_call method body) l' /\ endpoint_calls l' = 1%nat.
Proof.
  intros Hreq Hl. exists (l ++ [ReqEndpoint method body (accessToken w1)])%list.
  cbn. rewrite Hreq, app_assoc. split; [reflexivity |]. split.
  - apply Forall_app. split; [apply refresh_is_call; assumption |].
    constructor; [cbn; auto | constructor].
  - rewrite endpoint_calls_app, endpoint_calls_refresh by assumption. reflexivity.
Qed.

(** The attempt that is marked as a retry. *)
Lemma callEndpoint_retry_facts method body w :
  exists r wf l,
    run (AuthManager.callEndpoint (Y := Y) env 1 method body true) w = mkOutcome [] r wf
    /\ r <> Hangs
    /\ requests wf = (requests w ++ l)%list
    /\ Forall (is_call method body) l /\ (endpoint_calls l <= 1)%nat.
Proof.
  rewrite run_callEndpoint.
  destruct (initializeAuth_facts (Y := Y) env w)
    as (r & w1 & l & Hrun & Hh & Hreq & Hl & _ & _ & _ & _).
  rewrite Hrun. unfold andThen. cbn [result final yields app].
  destruct r as [[] | e |]; [| | contradiction].
  2:{ exists (Thrown e), w1, l. split; [reflexivity |].
      repeat split; auto; try discriminate.
      - apply refresh_is_call; assumption.
      - rewrite endpoint_calls_refresh by assumption. lia. }
  cbv zeta.
  destruct (one_call_sent method body w w1 (latency (next_reply (endpoint_replies w1)))
              Hreq Hl) as (l' & Hreq' & Hl' & Hn').
  destruct (answer (next_reply (endpoint_replies w1))) as [response | e].
  - cbn [negb]. rewrite andb_false_r.
    destruct (negb (ok (ep_status response))); cbn [yields result final].
    + eexists; eexists; exists l'. split; [reflexivity |].
      repeat split; auto; try discriminate. lia.
    + eexists; eexists; exists l'. split; [reflexivity |].
      repeat split; auto; try lia.
      destruct (Json.parse (ep_text response)); discriminate.
  - eexists; eexists; exists l'. split; [reflexivity |].
    repeat split; auto; try discriminate. lia.
Qed.

(** The first attempt. *)
Lemma callEndpoint_facts (method : string) (body : Json.t) (w : World) :
  exists r wf l,
    run (AuthManager.callEndpoint (Y := Y) env 2 method body false) w = mkOutcome [] r wf
    /\ r <> Hangs /\ requests wf = (requests w ++ l)%list
    /\ Forall (is_call method body) l /\ (endpoint_calls l <= 2)%nat.
Proof.
  rewrite run_callEndpoint.
  destruct (initializeAuth_facts (Y := Y) env w)
    as (r & w1 & l & Hrun & Hh & Hreq & Hl & _ & _ & _ & _).
  rewrite Hrun. unfold andThen. cbn [result final yields app].
  destruct r as [[] | e |]; [| | contradiction].
  2:{ exists (Thrown e), w1, l. split; [reflexivity |].
      repeat split; auto; try discriminate.
      - apply refresh_is_call; assumption.
      - rewrite endpoint_calls_refresh by assumption. lia. }
  cbv zeta.
  destruct (one_call_sent method body w w1 (latency (next_reply (endpoint_replies w1)))
              Hreq Hl) as (l' & Hreq' & Hl' & Hn').
  set (w2 := tick _ _) in *.
  destruct (answer (next_reply (endpoint_replies w1))) as [response | e].
  - destruct (negb (ok (ep_status response))).
    + destruct ((ep_status response =? 401) && negb false).
      * rewrite run_bind, run_clearTokenCache, andThen_returned, run_bind.
        destruct (initializeAuth_facts (Y := Y) env (cleared (set_accessToken None w2)))
          as (r3 & w3 & l3 & Hrun3 & Hh3 & Hreq3 & Hl3 & _ & _ & _ & _).
        rewrite Hrun3.
        rewrite requests_cleared in Hreq3. cbn [requests set_accessToken] in Hreq3.
        rewrite Hreq' in Hreq3.
        destruct r3 as [[] | e3 |]; [| | contradiction].
        2:{ exists (Thrown e3), w3, (l' ++ l3)%list. rewrite Hreq3, app_assoc.
            split; [reflexivity |].
            repeat split; auto; try discriminate.
            - apply Forall_app. split; [assumption | apply refresh_is_call; assumption].
            - rewrite endpoint_calls_app, (endpoint_calls_refresh Hl3). lia. }
        rewrite andThen_returned.
        destruct (callEndpoint_retry_facts method body w3)
          as (r4 & w4 & l4 & Hrun4 & Hh4 & Hreq4 & Hl4 & Hn4).
        rewrite Hrun4.
        exists r4, w4, ((l' ++ l3) ++ l4)%list.
        rewrite Hreq4, Hreq3, !app_assoc.
        split; [reflexivity |].
        repeat split; auto.
        -- repeat (apply Forall_app; split); auto. apply refresh_is_call; assumption.
        -- rewrite !endpoint_calls_app, (endpoint_calls_refresh Hl3). lia.
      * eexists; eexists; exists l'. split; [reflexivity |].
        repeat split; auto; try discriminate. lia.
    + eexists; eexists; exists l'. split; [reflexivity |].
      repeat split; auto; try lia.
      destruct (Json.parse (ep_text response)); discriminate.
  - eexists; eexists; exists l'. split; [reflexivity |].
    repeat split; auto; try discriminate. lia.
Qed.

(** X6.  [callEndpoint] in every world and every configuration: it ends,
    by returning or by throwing, within the two levels the retry flag
    allows; it sends the call at most twice, and besides the call only
    refresh requests; it leaves the project id and the streaming side
    alone. *)
Theorem callEndpoint_in_every_world (method : string) (body : Json.t) (w : World) :
  let o := run (AuthManager.callEndpoint (Y := Y) env 2 method body false) w in
  yields o = [] /\ result o <> Hangs
  /\ (exists l, requests (final o) = (requests w ++ l)%list
                /\ Forall (is_call method body) l /\ (endpoint_calls l <= 2)%nat)
  /\ call_frame w (final o).
Proof.
  intro o.
  assert (Hframe : call_frame w (final o)) by apply call_ops_frame, callEndpoint_call_ops.
  destruct (callEndpoint_facts method body w) as (r & wf & l & Ho & Hh & Hreq & Hl & Hn).
  subst o. rewrite Ho in *. cbn [yields result final] in *.
  split; [reflexivity |]. split; [assumption |]. split; [| assumption].
  exists l. auto.
Qed.

(** [initializeAuth] with the seed set, as the outcome of its steps. *)
Lemma run_initializeAuth (seed : SeedText) (w : World) :
  GCP_SERVICE_ACCOUNT env = Some seed ->
  run (Y := Y) (AuthManager.initializeAuth env) w
  = orElse
      (andThen (run (AuthManager.useCachedToken (cached w)) w)
         (fun returned => run (if returned then Ret tt else AuthManager.useEnvCredentials seed)))
      (fun e => run (Throw (newError ("Authentication failed: " ++ errorMessage e)))).
Proof.
  intro He. unfold AuthManager.initializeAuth. rewrite He.
  rewrite run_tryCatch, run_bind, run_tryCatch, run_getTokenFromFile, orElse_returned,
    andThen_returned, run_bind.
  reflexivity.
Qed.

(** A fresh cached token is adopted. *)
Lemma run_initializeAuth_cached (seed : SeedText) (d : CachedTokenData.t) (w : World) :
  GCP_SERVICE_ACCOUNT env = Some seed ->
  cached w = Some d ->
  CachedTokenData.expiry_date d - clock w > TOKEN_BUFFER_TIME ->
  run (Y := Y) (AuthManager.initializeAuth env) w
  = mkOutcome [] (Returned tt) (set_accessToken (Some (CachedTokenData.access_token d)) w).
Proof.
  intros He Hc Hx. apply Z.gt_lt, Z.ltb_lt in Hx.
  rewrite (run_initializeAuth w He), Hc.
  unfold AuthManager.useCachedToken. cbn [bind perform run handle]. rewrite Hx.
  reflexivity.
Qed.

(** With nothing cached a fresh seed is adopted and written. *)
Lemma run_initializeAuth_seed (c : OAuth2Credentials.t) (w : World) :
  GCP_SERVICE_ACCOUNT env = Some (SeedJson c) ->
  cached w = None ->
  OAuth2Credentials.expiry_date c - clock w > TOKEN_BUFFER_TIME ->
  run (Y := Y) (AuthManager.initializeAuth env) w
  = mkOutcome [] (Returned tt)
      (written (TokenJson (seed_record c (clock w)))
         (set_accessToken (Some (OAuth2Credentials.access_token c)) w)).
Proof.
  intros He Hc Hx. apply Z.gt_lt, Z.ltb_lt in Hx.
  rewrite (run_initializeAuth w He), Hc.
  unfold AuthManager.useCachedToken. cbn [run]. rewrite andThen_returned.
  unfold AuthManager.useEnvCredentials. cbn [bind perform run handle]. rewrite Hx.
  cbn [bind perform run handle]. rewrite run_cacheTokenToFile. reflexivity.
Qed.

(** One level of [callEndpoint] that does not go on to a second. *)
Lemma run_callEndpoint_last fuel method body isRetry w w1 lat a rest :
  run (Y := Y) (AuthManager.initializeAuth env) w = mkOutcome [] (Returned tt) w1 ->
  endpoint_replies w1 = mkTimed lat a :: rest ->
  unauthorized a && negb isRetry = false ->
  run (AuthManager.callEndpoint (Y := Y) env (S fuel) method body isRetry) w
  = mkOutcome [] (call_result a)
      (tick lat (pop_endpoint (sent (ReqEndpoint method body (accessToken w1)) w1))).
Proof.
  intros Hrun Hr Hu. rewrite run_callEndpoint, Hrun, andThen_returned. cbv zeta.
  rewrite Hr. cbn [next_reply answer latency].
  destruct a as [response | e]; [| reflexivity].
  cbn [unauthorized] in Hu. rewrite Hu. unfold call_result.
  destruct (ok (ep_status response)); reflexivity.
Qed.

Lemma initializeAuth_returned (w : World) :
  result (run (Y := Y) (AuthManager.initializeAuth env) w) = Returned tt ->
  run (Y := Y) (AuthManager.initializeAuth env) w
  = mkOutcome [] (Returned tt) (final (run (Y := Y) (AuthManager.initializeAuth env) w))
  /\ (exists t, accessToken (final (run (Y := Y) (AuthManager.initializeAuth env) w)) = Some t)
  /\ auth_frame w (final (run (Y := Y) (AuthManager.initializeAuth env) w)).
Proof.
  destruct (initializeAuth_facts (Y := Y) env w)
    as (r & w1 & l & Hrun & _ & _ & _ & _ & Htok & _ & Hframe).
  rewrite Hrun. cbn [result final]. intros ->. auto.
Qed.

(** X7.  A call that is answered and not retried: after [initializeAuth]
    has returned, [callEndpoint] sends one request, with the token the
    manager then holds as its bearer token, and ends as the answer says:
    the parsed body of a response that is ok, the error
    [API call failed with status ...] with the status and the text for one
    that is not, the error of the transport when there is no response.  A
    401 is such an answer only on the retry. *)
Theorem callEndpoint_answered (method : string) (body : Json.t) (isRetry : bool) (w : World)
    (lat : Z) (a : Settled EndpointReply) (rest : list (Timed EndpointReply)) :
  let o1 := run (Y := Y) (AuthManager.initializeAuth env) w in
  let o := run (Y := Y) (AuthManager.callEndpoint env 2 method body isRetry) w in
  result o1 = Returned tt ->
  endpoint_replies w = mkTimed lat a :: rest ->
  unauthorized a && negb isRetry = false ->
  yields o = [] /\ result o = call_result a
  /\ (exists t, accessToken (final o1) = Some t)
  /\ requests (final o)
     = (requests (final o1) ++ [ReqEndpoint method body (accessToken (final o1))])%list
  /\ clock (final o) = clock (final o1) + lat
  /\ endpoint_replies (final o) = rest.
Proof.
  intros o1 o H1 Hr Hu. subst o o1.
  destruct (initializeAuth_returned w H1) as (Hrun & Htok & _ & _ & _ & Hep & _).
  rewrite <- Hep in Hr.
  rewrite (run_callEndpoint_last 1 method body isRetry w Hrun Hr Hu).
  cbn [yields result final]. repeat split; auto.
  cbn. rewrite Hr. reflexivity.
Qed.

(** X8.  What the 401 path does with a seed that has not expired.  The
    call gets a 401; [callEndpoint] forgets the token and clears the
    cache, and [initializeAuth] then takes the access token of the seed
    again, since its expiry date is still ahead: no refresh request is
    sent, the second call carries the seed's access token, and its answer
    ends the call. *)
Theorem unauthorized_call_reuses_fresh_seed (method : string) (body : Json.t) (w : World)
    (c : OAuth2Credentials.t) (lat lat' : Z) (text : string) (a : Settled EndpointReply)
    (rest : list (Timed EndpointReply)) :
  let o1 := run (Y := Y) (AuthManager.initializeAuth env) w in
  let o := run (Y := Y) (AuthManager.callEndpoint env 2 method body false) w in
  GCP_SERVICE_ACCOUNT env = Some (SeedJson c) ->
  storage_fails w = false ->
  result o1 = Returned tt ->
  endpoint_replies w
  = mkTimed lat (Fulfilled (mkEndpointReply 401 text)) :: mkTimed lat' a :: rest ->
  OAuth2Credentials.expiry_date c - (clock (final o1) + lat) > TOKEN_BUFFER_TIME ->
  result o = call_result a
  /\ requests (final o)
     = (requests (final o1)
        ++ [ReqEndpoint method body (accessToken (final o1));
            ReqEndpoint method body (Some (OAuth2Credentials.access_token c))])%list
  /\ accessToken (final o) = Some (OAuth2Credentials.access_token c)
  /\ tokenFile (final o) = Some (TokenJson (seed_record c (clock (final o1) + lat))).
Proof.
  intros o1 o He Hs H1 Hr Hx. subst o o1.
  destruct (initializeAuth_returned w H1) as (Hrun & _ & _ & Hsf & _ & Hep & _).
  set (w1 := final (run (Y := Y) (AuthManager.initializeAuth env) w)) in *.
  rewrite <- Hep in Hr. rewrite Hs in Hsf.
  rewrite run_callEndpoint, Hrun, andThen_returned. cbv zeta.
  rewrite Hr. cbn [next_reply answer latency ep_status].
  change (negb (ok 401)) with true. change ((401 =? 401) && negb false) with true.
  cbv iota.
  set (w2 := tick lat _).
  rewrite run_bind, run_clearTokenCache, andThen_returned, run_bind.
  set (w3 := cleared (set_accessToken None w2)).
  destruct (cleared_fields (set_accessToken None w2)) as (Hk3 & _ & Hs3 & He3 & Hc3).
  fold w3 in Hk3, Hs3, He3, Hc3.
  cbn [clock storage_fails endpoint_replies set_accessToken tick pop_endpoint sent w2]
    in Hk3, Hs3, He3, Hc3.
  rewrite Hr in He3. cbn [tl] in He3. rewrite Hsf in Hs3. specialize (Hc3 Hsf).
  assert (Hq3 : requests w3 = (requests w1 ++ [ReqEndpoint method body (accessToken w1)])%list).
  { subst w3 w2. rewrite requests_cleared. reflexivity. }
  rewrite (run_initializeAuth_seed w3 He Hc3) by (rewrite Hk3; assumption).
  rewrite andThen_returned.
  set (w3' := set_accessToken (Some (OAuth2Credentials.access_token c)) w3).
  set (w4 := written _ _).
  destruct (written_fields (TokenJson (seed_record c (clock w3))) w3')
    as (Hk4 & Ht4 & Hs4 & He4 & Hf4).
  fold w4 in Hk4, Ht4, Hs4, He4, Hf4.
  cbn [clock storage_fails endpoint_replies accessToken set_accessToken w3']
    in Hk4, Ht4, Hs4, He4, Hf4.
  specialize (Hf4 Hs3). rewrite Hs3 in Hs4. rewrite He3 in He4. rewrite Hk3 in Hk4, Hf4.
  assert (Hc4 : cached w4 = Some (seed_record c (clock w1 + lat))).
  { unfold cached. rewrite Hs4, Hf4. reflexivity. }
  assert (Hrun4 : run (Y := Y) (AuthManager.initializeAuth env) w4
                  = mkOutcome [] (Returned tt)
                      (set_accessToken (Some (OAuth2Credentials.access_token c)) w4)).
  { rewrite (run_initializeAuth_cached w4 He Hc4); [reflexivity |].
    rewrite Hk4. exact Hx. }
  rewrite (run_callEndpoint_last 0 method body true w4 Hrun4 He4)
    by (rewrite andb_false_r; reflexivity).
  cbn [result final]. split; [reflexivity |].
  cbn [requests accessToken tokenFile tick pop_endpoint sent set_accessToken].
  rewrite Hf4. repeat split.
  subst w4. rewrite requests_written. cbn [requests w3' set_accessToken].
  rewrite Hq3, <- app_assoc. reflexivity.
Qed.

End CallProperties.

(** ** [discoverProjectId] *)

Section DiscoveryProperties.
Context {Y : Type}.
Variable env : Env.

(** The discovery proper, as the outcome of the call it makes. *)
Lemma run_discovery (w : World) :
  GEMINI_PROJECT_ID env = None ->
  truthy_opt (projectId w) = false ->
  run (Y := Y) (GeminiApiClient.discoverProjectId env) w
  = let o1 := run (Y := Y) (AuthManager.callEndpoint env 2 "loadCodeAssist"
                              loadCodeAssist_body false) w in
    match result o1 with
    | Returned loadResponse =>
        match Json.get "cloudaicompanionProject" loadResponse with
        | Some (Json.Str p) =>
            if truthy_string p
            then mkOutcome [] (Returned p) (set_projectId (Some p) (final o1))
            else mkOutcome [] (Thrown could_not_discover) (final o1)
        | _ => mkOutcome [] (Thrown could_not_discover) (final o1)
        end
    | Thrown _ => mkOutcome [] (Thrown could_not_discover) (final o1)
    | Hangs => mkOutcome [] Hangs (final o1)
    end.
Proof.
  intros He Hp. unfold GeminiApiClient.discoverProjectId. rewrite He.
  cbn [bind perform run handle]. rewrite Hp.
  rewrite run_tryCatch, run_bind. cbv zeta.
  fold loadCodeAssist_body.
  destruct (callEndpoint_facts (Y := Y) env "loadCodeAssist" loadCodeAssist_body w)
    as (r & wf & l & Ho & _).
  rewrite Ho. cbn [yields result final].
  destruct r as [loadResponse | e |]; [| reflexivity | reflexivity].
  rewrite andThen_returned.
  destruct (Json.get "cloudaicompanionProject" loadResponse) as [[| b | m x | p | items | fields] |];
    try reflexivity.
  destruct (truthy_string p); reflexivity.
Qed.

(** X9.  [discoverProjectId] remembers: once it has returned a project
    id, whether from the configuration, from the client's field or from
    the [loadCodeAssist] call, the next call returns the same id and
    changes nothing, so it sends no request. *)
Theorem discoverProjectId_is_remembered (w : World) (p : string) :
  let o := run (Y := Y) (GeminiApiClient.discoverProjectId env) w in
  result o = Returned p ->
  run (Y := Y) (GeminiApiClient.discoverProjectId env) (final o)
  = mkOutcome [] (Returned p) (final o).
Proof.
  cbn zeta.
  destruct (GEMINI_PROJECT_ID env) as [q |] eqn:He.
  { unfold GeminiApiClient.discoverProjectId. rewrite He. cbn. intro H. injection H as <-. reflexivity. }
  destruct (truthy_opt (projectId w)) eqn:Hp.
  { unfold GeminiApiClient.discoverProjectId. rewrite He.
    cbn [bind perform run handle]. rewrite Hp.
    destruct (projectId w) as [q |] eqn:Hq; [| discriminate Hp].
    cbn [run final result]. intro H. injection H as <-.
    cbn [bind perform run handle]. rewrite Hq, Hp. reflexivity. }
  rewrite (run_discovery w He Hp). cbv zeta.
  destruct (result (run (Y := Y) (AuthManager.callEndpoint env 2 "loadCodeAssist"
                                    loadCodeAssist_body false) w))
    as [loadResponse | e |]; try discriminate.
  destruct (Json.get "cloudaicompanionProject" loadResponse)
    as [[| b | m x | q | items | fields] |]; try discriminate.
  destruct (truthy_string q) eqn:Hq; try discriminate.
  cbn [result final]. intro H. injection H as <-.
  unfold GeminiApiClient.discoverProjectId. rewrite He.
  cbn [bind perform run handle projectId set_projectId truthy_opt]. rewrite Hq.
  reflexivity.
Qed.

(** X10.  [discoverProjectId] in every world and every configuration: it
    ends, and when it does not return a project id it throws the one
    error [Could not discover project ID. ...], whatever went wrong
    underneath.  All it sends are refresh requests and, at most twice, the
    [loadCodeAssist] call; an id that the configuration gives is returned
    without any request. *)
Theorem discoverProjectId_in_every_world (w : World) :
  let o := run (Y := Y) (GeminiApiClient.discoverProjectId env) w in
  yields o = []
  /\ ((exists p, result o = Returned p) \/ result o = Thrown could_not_discover)
  /\ (exists l, requests (final o) = (requests w ++ l)%list
                /\ Forall (is_call "loadCodeAssist" loadCodeAssist_body) l
                /\ (endpoint_calls l <= 2)%nat)
  /\ (forall p, GEMINI_PROJECT_ID env = Some p -> o = mkOutcome [] (Returned p) w).
Proof.
  cbn zeta.
  assert (Hnone : exists l : list NetRequest,
             requests w = (requests w ++ l)%list
             /\ Forall (is_call "loadCodeAssist" loadCodeAssist_body) l
             /\ (endpoint_calls l <= 2)%nat).
  { exists []. rewrite app_nil_r. repeat split; [constructor | cbn; lia]. }
  destruct (GEMINI_PROJECT_ID env) as [q |] eqn:He.
  { unfold GeminiApiClient.discoverProjectId. rewrite He. cbn [run yields result final].
    split; [reflexivity |]. split; [left; eauto |]. split; [exact Hnone |].
    intros p H. injection H as <-. reflexivity. }
  destruct (truthy_opt (projectId w)) eqn:Hp.
  { unfold GeminiApiClient.discoverProjectId. rewrite He.
    cbn [bind perform run handle]. rewrite Hp.
    destruct (projectId w) as [q |]; cbn [run yields result final];
      (split; [reflexivity |]; split; [left; eauto |]; split; [exact Hnone | discriminate]). }
  rewrite (run_discovery w He Hp). cbv zeta.
  destruct (callEndpoint_facts (Y := Y) env "loadCodeAssist" loadCodeAssist_body w)
    as (r & wf & l & Ho & Hh & Hreq & Hl & Hn).
  rewrite Ho. cbn [yields result final].
  assert (Hsome : exists l : list NetRequest,
             requests wf = (requests w ++ l)%list
             /\ Forall (is_call "loadCodeAssist" loadCodeAssist_body) l
             /\ (endpoint_calls l <= 2)%nat) by (exists l; auto).
  destruct r as [loadResponse | e |]; [| | contradiction].
  - destruct (Json.get "cloudaicompanionProject" loadResponse)
      as [[| b | m x | q | items | fields] |]; cbn [yields result final];
      try (split; [reflexivity |]; split; [right; reflexivity |];
           split; [exact Hsome | discriminate]).
    destruct (truthy_string q); cbn [yields result final].
    + split; [reflexivity |]. split; [left; eauto |]. split; [exact Hsome | discriminate].
    + split; [reflexivity |]. split; [right; reflexivity |].
      split; [exact Hsome | discriminate].
  - cbn [yields result final]. split; [reflexivity |]. split; [right; reflexivity |].
    split; [exact Hsome | discriminate].
Qed.

End DiscoveryProperties.

(** ** The decoder on texts *)

(** The code points that [trim] strips are blank lines of the decoder,
    in their UTF-8 encoding; the letter a, the next line control, the
    Mongolian vowel separator, the zero width space and the word joiner
    are not. *)
Lemma trim_white_space :
  forallb (fun cp => trim_is_empty (Json.utf8 cp))
    [9; 10; 11; 12; 13; 32; 160; 5760; 8192; 8193; 8194; 8195; 8196; 8197; 8198; 8199;
     8200; 8201; 8202; 8232; 8233; 8239; 8287; 12288; 65279] = true
  /\ forallb (fun cp => negb (trim_is_empty (Json.utf8 cp))) [97; 133; 6158; 8203; 8288]
     = true.
Proof. vm_compute. split; reflexivity. Qed.

Section TextProperties.
Context {J : Type}.
Variable parse : string -> option J.

Lemma append_empty_r (s : string) : s ++ EmptyString = s.
Proof. induction s; cbn; congruence. Qed.

Lemma append_assoc (a b c : string) : (a ++ b) ++ c = a ++ b ++ c.
Proof. induction a; cbn; congruence. Qed.

(** A line without a line feed, closed by one, is the first line. *)
Lemma split_lines_line (line rest : string) :
  single_line line = true ->
  split_lines (line ++ nl ++ rest) = line :: split_lines rest.
Proof.
  intro H. induction line as [| c line IH]; [reflexivity |].
  cbn [single_line] in H. apply andb_true_iff in H. destruct H as [Hc Hl].
  apply negb_true_iff in Hc.
  cbn [append split_lines]. rewrite Hc.
  change (split_lines ((line ++ nl ++ rest))) with (split_lines (line ++ nl ++ rest)).
  rewrite IH by exact Hl. reflexivity.
Qed.

Lemma split_lines_single (line : string) :
  single_line line = true -> split_lines line = [line].
Proof.
  intro H. induction line as [| c line IH]; [reflexivity |].
  cbn [single_line] in H. apply andb_true_iff in H. destruct H as [Hc Hl].
  apply negb_true_iff in Hc. cbn [split_lines]. rewrite Hc, IH by exact Hl. reflexivity.
Qed.

Lemma split_lines_unlines (lines : list string) (rest : string) :
  Forall (fun line => single_line line = true) lines ->
  split_lines (unlines lines ++ rest) = (lines ++ split_lines rest)%list.
Proof.
  induction 1 as [| line lines Hl _ IH]; [reflexivity |].
  cbn [unlines fold_right]. fold (unlines lines).
  rewrite !append_assoc, split_lines_line by exact Hl. rewrite IH. reflexivity.
Qed.

(** The complete lines of a text that begins with closed lines. *)
Lemma complete_lines_unlines (lines : list string) (rest : string) :
  Forall (fun line => single_line line = true) lines ->
  removelast (split_lines (unlines lines ++ rest))
  = (lines ++ removelast (split_lines rest))%list.
Proof.
  intro H. rewrite split_lines_unlines by exact H.
  apply removelast_app, split_lines_not_nil.
Qed.

Lemma substring_whole (s : string) : String.substring 0 (String.length s) s = s.
Proof. induction s as [| c s IH]; cbn; congruence. Qed.

Lemma substring_from_data (p : string) : substring_from 6 ("data: " ++ p) = p.
Proof.
  unfold substring_from. cbn [append String.length Nat.sub String.substring].
  rewrite Nat.sub_0_r. apply substring_whole.
Qed.

Lemma prefix_empty (s : string) : String.prefix EmptyString s = true.
Proof. destruct s; reflexivity. Qed.

(** The [data: ] lines of an event add their payloads to [objectBuffer]. *)
Lemma lines_events_data (payloads : list string) (objectBuffer : string) :
  lines_events parse (map (append "data: ") payloads) objectBuffer
  = ([], objectBuffer ++ joined payloads).
Proof.
  revert objectBuffer.
  induction payloads as [| p payloads IH]; intro objectBuffer.
  - cbn. rewrite append_empty_r. reflexivity.
  - cbn [map lines_events].
    change (trim_is_empty ("data: " ++ p)) with false. cbv iota.
    replace (startsWith "data: " ("data: " ++ p)) with true
      by (unfold startsWith; cbn; rewrite prefix_empty; reflexivity).
    rewrite substring_from_data, IH. cbn [joined fold_right].
    rewrite append_assoc. reflexivity.
Qed.

(** The lines of an event yield the event made of its joined payloads. *)
Lemma lines_events_frame (payloads : list string) :
  lines_events parse (frame_lines payloads) EmptyString
  = (flush parse (joined payloads), EmptyString).
Proof.
  unfold frame_lines. rewrite lines_events_app, lines_events_data.
  cbn [append lines_events trim_is_empty all_space]. unfold flush.
  destruct (joined payloads) as [| c rest] eqn:E; [reflexivity |].
  cbn [truthy_string]. destruct (parse (String c rest)); reflexivity.
Qed.

Lemma lines_events_frames (frames : list (list string)) :
  lines_events parse (flat_map frame_lines frames) EmptyString
  = (flat_map (fun payloads => flush parse (joined payloads)) frames, EmptyString).
Proof.
  induction frames as [| f frames IH]; [reflexivity |].
  cbn [flat_map]. rewrite lines_events_app, lines_events_frame, IH. reflexivity.
Qed.

Lemma single_line_data (p : string) :
  single_line p = true -> single_line ("data: " ++ p) = true.
Proof. intro H. cbn. exact H. Qed.

Lemma frame_lines_single (frames : list (list string)) :
  Forall (Forall (fun p => single_line p = true)) frames ->
  Forall (fun line => single_line line = true) (flat_map frame_lines frames).
Proof.
  induction 1 as [| f frames Hf _ IH]; [constructor |].
  cbn [flat_map]. apply Forall_app. split; [| exact IH].
  unfold frame_lines. apply Forall_app. split.
  - induction Hf as [| p ps Hp _ IHp]; constructor; auto using single_line_data.
  - constructor; [reflexivity | constructor].
Qed.

(** The events of a text made of whole events. *)
Lemma decode_frames (frames : list (list string)) :
  Forall (Forall (fun p => single_line p = true)) frames ->
  decode parse (frames_text frames)
  = flat_map (fun payloads => flush parse (joined payloads)) frames.
Proof.
  intro H. unfold decode, frames_text.
  rewrite <- (append_empty_r (unlines (flat_map frame_lines frames))).
  rewrite complete_lines_unlines by (apply frame_lines_single; exact H).
  cbn [split_lines removelast]. rewrite app_nil_r, lines_events_frames.
  cbn [flush truthy_string]. apply app_nil_r.
Qed.

Lemma split_lines_single_lines (s : string) :
  Forall (fun line => single_line line = true) (split_lines s).
Proof.
  induction s as [| c s IH]; cbn [split_lines].
  - constructor; [reflexivity | constructor].
  - destruct (Ascii.eqb c LF) eqn:Ec.
    + constructor; [reflexivity | exact IH].
    + destruct (split_lines s) as [| l ls].
      * constructor; [cbn; rewrite Ec; reflexivity | constructor].
      * inversion IH as [| ? ? Hl Hls]; subst.
        constructor; [cbn; rewrite Ec; exact Hl | exact Hls].
Qed.

Lemma last_single_line (s : string) : single_line (last (split_lines s) EmptyString) = true.
Proof.
  pose proof (split_lines_single_lines s) as H.
  induction H as [| l ls Hl _ IH]; [reflexivity |].
  destruct ls; [exact Hl | exact IH].
Qed.

(** The last line of a text, when it is not closed, is not among the
    lines the decoder processes. *)
Lemma complete_lines_unterminated (text tail : string) :
  single_line tail = true ->
  removelast (split_lines ((text ++ nl) ++ tail)) = removelast (split_lines (text ++ nl)).
Proof.
  intro H.
  assert (Hlast : last (split_lines (text ++ nl)) EmptyString = EmptyString).
  { rewrite last_split_lines_app.
    change (last (split_lines text) EmptyString ++ nl)
      with (last (split_lines text) EmptyString ++ nl ++ EmptyString).
    rewrite split_lines_line by apply last_single_line. reflexivity. }
  rewrite removelast_split_lines_app, Hlast. cbn [append].
  rewrite (@split_lines_single tail H). cbn [removelast]. apply app_nil_r.
Qed.

Lemma decode_unterminated (text tail : string) :
  single_line tail = true ->
  decode parse ((text ++ nl) ++ tail) = decode parse (text ++ nl).
Proof.
  intro H. unfold decode. rewrite complete_lines_unterminated by exact H. reflexivity.
Qed.

(** A line that is neither blank nor a [data: ] line changes nothing. *)
Lemma decode_other_line (lines : list string) (line rest : string) :
  Forall (fun l => single_line l = true) lines ->
  single_line line = true ->
  trim_is_empty line = false ->
  startsWith "data: " line = false ->
  decode parse (unlines lines ++ line ++ nl ++ rest) = decode parse (unlines lines ++ rest).
Proof.
  intros Hls Hl Hb Hd. unfold decode.
  rewrite !complete_lines_unlines by exact Hls.
  rewrite split_lines_line by exact Hl.
  pose proof (split_lines_not_nil rest) as Hn.
  destruct (split_lines rest) as [| x l] eqn:E; [contradiction |].
  change (removelast (line :: x :: l)) with (line :: removelast (x :: l)).
  rewrite !lines_events_app.
  destruct (lines_events parse lines EmptyString) as [e1 ob1].
  cbn [lines_events]. rewrite Hb, Hd. reflexivity.
Qed.

End TextProperties.

(** ** The decoder on streams *)

Section StreamProperties.
Context {J : Type}.
Variable parse : string -> option J.

Local Abbreviation parseSSEStream := (GeminiApiClient.parseSSEStream parse).

(** X11.  The events do not depend on how the text is cut into reads: two
    deliveries of the same text, each in time, yield the same events. *)
Theorem decoding_ignores_chunking (idle : Z) (pieces pieces' : list (Z * string))
    (closing closing' : Z) (w w' : World) :
  idle <> 0 ->
  in_time idle pieces -> closing <= idle ->
  in_time idle pieces' -> closing' <= idle ->
  text_of pieces = text_of pieces' ->
  yields (run (parseSSEStream (arrivals pieces ++ [Closes closing])%list (Some idle)) w)
  = yields (run (parseSSEStream (arrivals pieces' ++ [Closes closing'])%list (Some idle)) w').
Proof.
  intros Hidle Hin Hc Hin' Hc' Ht.
  rewrite (proj1 (parseSSEStream_decode parse w Hidle Hin Hc)).
  rewrite (proj1 (parseSSEStream_decode parse w' Hidle Hin' Hc')).
  rewrite Ht. reflexivity.
Qed.

(** X12.  A text made of whole events is decoded event by event: each
    event is a run of [data: ] lines closed by a blank line; its payloads
    are joined with nothing between them and parsed; an event whose
    joined payload is empty or does not parse yields nothing, and the
    others are yielded in order. *)
Theorem frames_are_decoded (idle : Z) (pieces : list (Z * string)) (closing : Z) (w : World)
    (frames : list (list string)) :
  idle <> 0 ->
  in_time idle pieces -> closing <= idle ->
  Forall (Forall (fun p => single_line p = true)) frames ->
  text_of pieces = frames_text frames ->
  let o := run (parseSSEStream (arrivals pieces ++ [Closes closing])%list (Some idle)) w in
  yields o = flat_map (fun payloads => flush parse (joined payloads)) frames
  /\ result o = Returned tt.
Proof.
  intros Hidle Hin Hc Hf Ht.
  destruct (parseSSEStream_decode parse w Hidle Hin Hc) as [Hy Hr].
  cbn zeta in *. rewrite Hy, Hr, Ht, decode_frames by exact Hf. split; reflexivity.
Qed.

(** X13.  A last line that is not closed by a line feed is lost when the
    stream ends: the delivery yields what it would yield without it. *)
Theorem unterminated_line_is_dropped (idle : Z) (pieces pieces' : list (Z * string))
    (closing closing' : Z) (w w' : World) (text tail : string) :
  idle <> 0 ->
  in_time idle pieces -> closing <= idle ->
  in_time idle pieces' -> closing' <= idle ->
  single_line tail = true ->
  text_of pieces = (text ++ nl) ++ tail ->
  text_of pieces' = text ++ nl ->
  yields (run (parseSSEStream (arrivals pieces ++ [Closes closing])%list (Some idle)) w)
  = yields (run (parseSSEStream (arrivals pieces' ++ [Closes closing'])%list (Some idle)) w').
Proof.
  intros Hidle Hin Hc Hin' Hc' Htail Ht Ht'.
  rewrite (proj1 (parseSSEStream_decode parse w Hidle Hin Hc)).
  rewrite (proj1 (parseSSEStream_decode parse w' Hidle Hin' Hc')).
  rewrite Ht, Ht'. apply decode_unterminated. exact Htail.
Qed.

(** X14.  A line that is not blank and does not begin with [data: ] (a
    comment, an [event:] or [id:] field, a [data:] field written without
    the space) is ignored: the delivery yields what it would yield
    without the line. *)
Theorem other_lines_are_ignored (idle : Z) (pieces pieces' : list (Z * string))
    (closing closing' : Z) (w w' : World) (lines : list string) (line rest : string) :
  idle <> 0 ->
  in_time idle pieces -> closing <= idle ->
  in_time idle pieces' -> closing' <= idle ->
  Forall (fun l => single_line l = true) lines ->
  single_line line = true ->
  trim_is_empty line = false ->
  startsWith "data: " line = false ->
  text_of pieces = unlines lines ++ line ++ nl ++ rest ->
  text_of pieces' = unlines lines ++ rest ->
  yields (run (parseSSEStream (arrivals pieces ++ [Closes closing])%list (Some idle)) w)
  = yields (run (parseSSEStream (arrivals pieces' ++ [Closes closing'])%list (Some idle)) w').
Proof.
  intros Hidle Hin Hc Hin' Hc' Hls Hl Hb Hd Ht Ht'.
  rewrite (proj1 (parseSSEStream_decode parse w Hidle Hin Hc)).
  rewrite (proj1 (parseSSEStream_decode parse w' Hidle Hin' Hc')).
  rewrite Ht, Ht'. apply decode_other_line; assumption.
Qed.

Lemma after_delivery_fields (pieces : list (Z * string)) (w : World) :
  clock (after_delivery pieces w) = clock w + total_delay pieces
  /\ cancel_semantics (after_delivery pieces w) = cancel_semantics w.
Proof.
  revert w. induction pieces as [| p pieces IH]; intro w.
  - cbn. split; [lia | reflexivity].
  - cbn [after_delivery fold_left total_delay fold_right].
    destruct (IH (tick (fst p) w)) as [Hc Hs]. unfold after_delivery in Hc, Hs.
    rewrite Hc, Hs. cbn [clock cancel_semantics tick].
    fold (total_delay pieces). split; [lia | reflexivity].
Qed.

(** The loop, started after some text [seen] has been read, on pieces
    that arrive in time: it goes on with what is left of the stream. *)
Lemma run_readLoop_arrivals (idle : Z) (pieces : list (Z * string)) (rest : Body)
    (seen : string) (w : World) :
  idle <> 0 ->
  in_time idle pieces ->
  let before := split_lines seen in
  let after := split_lines (seen ++ text_of pieces) in
  let o := run (GeminiApiClient.readLoop parse (arrivals pieces ++ rest)%list (Some idle)
                  (last before EmptyString)
                  (snd (lines_events parse (removelast before) EmptyString))) w in
  let o' := run (GeminiApiClient.readLoop parse rest (Some idle)
                   (last after EmptyString)
                   (snd (lines_events parse (removelast after) EmptyString)))
                (after_delivery pieces w) in
  (fst (lines_events parse (removelast before) EmptyString) ++ yields o)%list
  = (fst (lines_events parse (removelast after) EmptyString) ++ yields o')%list
  /\ result o = result o' /\ final o = final o'.
Proof.
  intros Hidle Hin. revert seen w.
  assert (Harmed : timer_armed (Some idle) = Some idle).
  { cbn. destruct (Z.eqb_spec idle 0); congruence. }
  induction Hin as [| [delay value] pieces Hd _ IH]; intros seen w before after o o'.
  - subst o o' before after. cbn [arrivals map app text_of fold_right after_delivery fold_left].
    rewrite append_empty_r. repeat split.
  - cbn [fst] in Hd.
    specialize (IH (seen ++ value) (tick delay w)). cbn zeta in IH.
    subst o o' before after.
    cbn [arrivals map app text_of fold_right fst snd GeminiApiClient.readLoop run handle
         after_delivery fold_left].
    unfold reader_read. rewrite Harmed. cbn [event_delay event_result].
    replace (idle <? delay) with false by (symmetry; apply Z.ltb_ge; exact Hd).
    rewrite run_bind, run_processLines. unfold andThen. cbn [result final yields].
    rewrite removelast_split_lines_app, last_split_lines_app, lines_events_app in IH.
    destruct (lines_events parse (removelast (split_lines seen)) EmptyString) as [e1 ob1].
    cbn [fst snd] in *.
    destruct (lines_events parse
                (removelast (split_lines (last (split_lines seen) EmptyString ++ value)))
                ob1) as [e2 ob2].
    cbn [fst snd] in *.
    change (fold_right (fun p rest => snd p ++ rest) EmptyString pieces)
      with (text_of pieces).
    rewrite <- append_assoc.
    destruct IH as (IHy & IHr & IHf). rewrite app_assoc. repeat split; assumption.
Qed.

(** X15.  A stream that stalls after its last piece.  The idle timer goes
    off [idle] milliseconds after that piece and cancels the reader.
    Where cancelling closes the stream, the pending read is fulfilled with
    [done]: the decoder flushes and returns, as at a normal end of the
    stream, and no error is thrown.  Where cancelling rejects the pending
    read with its reason, the decoder throws
    [Stream idle timeout after <idle>ms], and the event it was collecting
    is lost. *)
Theorem stalled_stream_by_runtime (idle : Z) (pieces : list (Z * string)) (w : World) :
  idle <> 0 ->
  in_time idle pieces ->
  let o := run (parseSSEStream (arrivals pieces) (Some idle)) w in
  clock (final o) = clock w + total_delay pieces + idle
  /\ match cancel_semantics w with
     | ClosesStream =>
         yields o = decode parse (text_of pieces) /\ result o = Returned tt
     | RejectsPendingRead =>
         yields o = complete_events parse (text_of pieces)
         /\ result o = Thrown (idle_timeout idle)
     end.
Proof.
  intros Hidle Hin o.
  assert (Harmed : timer_armed (Some idle) = Some idle).
  { cbn. destruct (Z.eqb_spec idle 0); congruence. }
  destruct (run_readLoop_arrivals [] EmptyString w Hidle Hin) as (Hy & Hr & Hf).
  cbn zeta in Hy, Hr, Hf. rewrite app_nil_r in Hy, Hr, Hf.
  cbn [split_lines removelast last lines_events fst snd append app] in Hy, Hr, Hf.
  change (GeminiApiClient.readLoop parse (arrivals pieces) (Some idle) EmptyString EmptyString)
    with (parseSSEStream (arrivals pieces) (Some idle)) in Hy, Hr, Hf.
  fold o in Hy, Hr, Hf.
  destruct (after_delivery_fields pieces w) as [Hclock Hsem].
  revert Hy Hr Hf.
  cbn [GeminiApiClient.readLoop run handle]. unfold reader_read. rewrite Harmed, Hsem.
  fold (complete_events parse (text_of pieces)) (pending_event parse (text_of pieces)).
  destruct (cancel_semantics w); cbn [cancelled_read].
  - intros Hy Hr Hf. rewrite Hf, Hr, Hy.
    assert (Hflush : forall ob w0,
              run (if truthy_string ob
                   then GeminiApiClient.yieldParsed parse ob else Ret tt) w0
              = mkOutcome (flush parse ob) (Returned tt) w0).
    { intros ob w0. unfold GeminiApiClient.yieldParsed, flush.
      destruct (truthy_string ob); [destruct (parse ob) |]; reflexivity. }
    rewrite Hflush. cbn [yields result final clock tick]. rewrite Hclock.
    split; [reflexivity |]. split; [| reflexivity].
    unfold decode, complete_events, pending_event.
    destruct (lines_events parse (removelast (split_lines (text_of pieces))) EmptyString).
    reflexivity.
  - cbn [JsValue_eqb String.eqb Ascii.eqb Bool.eqb andb run yields result final
         GeminiApiClient.show_timeout].
    change (JsValue_eqb (JsString "IdleTimeout") (JsString "IdleTimeout")) with true.
    cbv iota. cbn [run yields result final clock tick].
    intros Hy Hr Hf. rewrite Hf, Hr, Hy, app_nil_r. cbn [clock tick]. rewrite Hclock.
    repeat split.
Qed.

End StreamProperties.

(** ** The streaming request in every world *)

Section Attempts.
Context {Y : Type}.
Variable allowed : NetRequest -> Prop.

Lemma stream_calls_app l1 l2 :
  stream_calls (l1 ++ l2) = (stream_calls l1 + stream_calls l2)%nat.
Proof. unfold stream_calls. rewrite filter_app, length_app. reflexivity. Qed.

Lemma stream_calls_refresh l : Forall is_refresh l -> stream_calls l = 0%nat.
Proof.
  unfold stream_calls. induction 1 as [| r l Hr Hl IH]; [reflexivity |].
  destruct r; try contradiction. exact IH.
Qed.

Lemma attempts_nothing {A : Type} (n : nat) (w : World) (o : Outcome Y A) :
  result o <> Hangs -> requests (final o) = requests w -> attempts n allowed w o.
Proof.
  intros Hh Hr. split; [exact Hh |]. exists []. rewrite app_nil_r.
  repeat split; [exact Hr | constructor | cbn; lia].
Qed.

Lemma attempts_more {A : Type} (n n' : nat) (w : World) (o : Outcome Y A) :
  (n <= n')%nat -> attempts n allowed w o -> attempts n' allowed w o.
Proof.
  intros Hn (Hh & l & Hr & Hl & Hc). split; [exact Hh |]. exists l. repeat split; auto. lia.
Qed.

Lemma attempts_andThen {A B : Type} (n1 n2 : nat) (w : World) (o : Outcome Y A)
    (next : A -> World -> Outcome Y B) :
  attempts n1 allowed w o ->
  (forall a, result o = Returned a -> attempts n2 allowed (final o) (next a (final o))) ->
  attempts (n1 + n2) allowed w (andThen o next).
Proof.
  intros (Hh & l & Hr & Hl & Hc) Hnext. unfold andThen.
  destruct (result o) as [a | e |] eqn:E; [| | contradiction].
  - destruct (Hnext a eq_refl) as (Hh2 & l2 & Hr2 & Hl2 & Hc2).
    cbv zeta. cbn [result final]. split; [exact Hh2 |].
    exists (l ++ l2)%list. cbn [final]. rewrite Hr2, Hr, app_assoc, stream_calls_app.
    repeat split; [apply Forall_app; auto | lia].
  - cbn [result final]. split; [discriminate |].
    exists l. cbn [final]. repeat split; auto. lia.
Qed.

Lemma attempts_orElse {A : Type} (n1 n2 : nat) (w : World) (o : Outcome Y A)
    (handler : JsValue -> World -> Outcome Y A) :
  attempts n1 allowed w o ->
  (forall e, result o = Thrown e -> attempts n2 allowed (final o) (handler e (final o))) ->
  attempts (n1 + n2) allowed w (orElse o handler).
Proof.
  intros (Hh & l & Hr & Hl & Hc) Hnext. unfold orElse.
  destruct (result o) as [a | e |] eqn:E; [| | contradiction].
  - split; [rewrite E; discriminate |].
    exists l. cbn [final]. repeat split; auto. lia.
  - destruct (Hnext e eq_refl) as (Hh2 & l2 & Hr2 & Hl2 & Hc2).
    cbv zeta. cbn [result final]. split; [exact Hh2 |].
    exists (l ++ l2)%list. cbn [final]. rewrite Hr2, Hr, app_assoc, stream_calls_app.
    repeat split; [apply Forall_app; auto | lia].
Qed.

Lemma attempts_yielded {A : Type} (n : nat) (w : World) (y : Y) (o : Outcome Y A) :
  attempts n allowed w o -> attempts n allowed w (yielded y o).
Proof. intro H. exact H. Qed.

End Attempts.

Section StreamRequestProperties.
Variable env : Env.
Variable JSON_parse : string -> option Wire.Event.

Local Abbreviation request_stream := (GeminiApiClient.performNativeStreamRequest env JSON_parse).

(** What the body of the loop makes of an event that it reads without
    throwing. *)
Lemma run_emitChunk (modelId : string) (s : unit) (jsonData : Wire.Event) (w : World) :
  readable jsonData = true ->
  run (GeminiApiClient.emitChunk modelId s jsonData) w
  = mkOutcome (emitted modelId jsonData) (Returned tt) w.
Proof.
  unfold readable, emitted, GeminiApiClient.emitChunk.
  destruct jsonData as [| [response |]]; [discriminate | | reflexivity].
  destruct (Wire.candidates response) as [[| items] |]; [discriminate | | reflexivity].
  rewrite mapCandidates_no_null. intros ->. reflexivity.
Qed.

(** The loop over the events of a body, when it reads every event without
    throwing: the chunks are those of the events, in order, and the loop
    ends as the decoder ends. *)
Lemma run_forAwait_emit (g : Prog Wire.Event unit) (modelId : string) (w : World) :
  Forall (fun jsonData => readable jsonData = true) (yields (run g w)) ->
  run (forAwait g (GeminiApiClient.emitChunk modelId) tt) w
  = mkOutcome (flat_map (emitted modelId) (yields (run g w))) (result (run g w))
      (final (run g w)).
Proof.
  revert w. induction g as [[] | e | | y k IH | R op k IH]; intros w Hr; cbn [forAwait run].
  - reflexivity.
  - reflexivity.
  - reflexivity.
  - cbn [run yielded yields] in Hr. inversion Hr as [| y' ys Hy Hys]; subst.
    rewrite run_bind, run_emitChunk by exact Hy.
    unfold andThen. cbn [yielded yields result final flat_map].
    rewrite (IH w Hys). reflexivity.
  - cbn [run] in Hr. destruct (handle op w) as [r w']. apply IH. exact Hr.
Qed.

(** The loop over the events ends when the decoder does. *)
Lemma forAwait_emit_ends (g : Prog Wire.Event unit) (modelId : string) (w : World) :
  result (run g w) <> Hangs ->
  result (run (forAwait g (GeminiApiClient.emitChunk modelId) tt) w) <> Hangs.
Proof.
  revert w. induction g as [[] | e | | y k IH | R op k IH]; intros w Hg; cbn [forAwait run].
  - discriminate.
  - discriminate.
  - exact Hg.
  - cbn [run yielded result] in Hg. rewrite run_bind, result_andThen.
    destruct (emitChunk_shape modelId tt y) as [E | [(response & cands & E) | (e & E)]];
      rewrite E; cbn [run yielded result final]; try discriminate; apply IH; exact Hg.
  - cbn [run] in Hg. destruct (handle op w) as [r w']. apply IH. exact Hg.
Qed.

(** With the idle timer armed no read stays pending: the decoder ends. *)
Lemma readLoop_ends {J : Type} (parse : string -> option J) (stream : Body) (idle : Z)
    (buffer objectBuffer : string) (w : World) :
  idle <> 0 ->
  result (run (GeminiApiClient.readLoop parse stream (Some idle) buffer objectBuffer) w)
  <> Hangs.
Proof.
  intro Hidle. revert buffer objectBuffer w.
  assert (Harmed : timer_armed (Some idle) = Some idle).
  { cbn. destruct (Z.eqb_spec idle 0); congruence. }
  assert (Hflush : forall ob w,
            result (run (if truthy_string ob
                         then GeminiApiClient.yieldParsed parse ob else Ret tt) w)
            <> Hangs).
  { intros ob w. unfold GeminiApiClient.yieldParsed.
    destruct (truthy_string ob); [destruct (parse ob) |]; discriminate. }
  assert (Hthrow : forall (error : JsValue) w,
            result (run (Y := J) (A := unit)
                      (if JsValue_eqb error (JsString "IdleTimeout")
                       then Throw (newError ("Stream idle timeout after "
                                             ++ GeminiApiClient.show_timeout (Some idle)
                                             ++ "ms"))
                       else Throw error) w)
            <> Hangs).
  { intros error w. destruct (JsValue_eqb error _); discriminate. }
  assert (Hcancel : forall ob w0 w1,
            result (run (Y := J)
                      match cancelled_read (cancel_semantics w0) "IdleTimeout" with
                      | ReadRejected error =>
                          if JsValue_eqb error (JsString "IdleTimeout")
                          then Throw (newError ("Stream idle timeout after "
                                                ++ GeminiApiClient.show_timeout (Some idle)
                                                ++ "ms"))
                          else Throw error
                      | ReadPending => Hang
                      | ReadDone =>
                          if truthy_string ob
                          then GeminiApiClient.yieldParsed parse ob else Ret tt
                      | ReadValue value => Hang
                      end w1)
            <> Hangs).
  { intros ob w0 w1. destruct (cancel_semantics w0); cbn [cancelled_read].
    - apply Hflush.
    - apply Hthrow. }
  induction stream as [| e rest IH]; intros buffer objectBuffer w.
  - cbn [GeminiApiClient.readLoop run handle]. unfold reader_read. rewrite Harmed.
    apply Hcancel.
  - cbn [GeminiApiClient.readLoop run handle]. unfold reader_read. rewrite Harmed.
    destruct (idle <? event_delay e).
    + destruct (cancel_semantics w); cbn [cancelled_read]; [apply Hflush | apply Hthrow].
    + destruct e as [delay value | delay | delay err]; cbn [event_result event_delay].
      * rewrite run_bind, run_processLines, result_andThen. cbn [result final].
        apply IH.
      * apply Hflush.
      * apply Hthrow.
Qed.

Section Allowed.
Variable allowed : NetRequest -> Prop.
Hypothesis refresh_allowed : forall rt, allowed (ReqRefresh rt).

Lemma refresh_allowed_all l : Forall is_refresh l -> Forall allowed l.
Proof.
  apply Forall_impl. intros [rt | m b t | req t] H; try contradiction. apply refresh_allowed.
Qed.

(** A request sent, then what follows. *)
Lemma attempts_after {A : Type} (n : nat) (w w' : World) (req : StreamRequest)
    (bearer : option string) (o : Outcome GeminiNativeStreamChunk A) :
  requests w' = (requests w ++ [ReqStream req bearer])%list ->
  allowed (ReqStream req bearer) ->
  attempts n allowed w' o ->
  attempts (S n) allowed w o.
Proof.
  intros Hw Ha (Hh & l & Hr & Hl & Hc). split; [exact Hh |].
  exists (ReqStream req bearer :: l). rewrite Hr, Hw, <- app_assoc.
  repeat split; [constructor; assumption |].
  change (stream_calls (ReqStream req bearer :: l)) with (S (stream_calls l)). lia.
Qed.

Lemma clearTokenCache_attempts (w : World) :
  attempts (Y := GeminiNativeStreamChunk) 0 allowed w (run AuthManager.clearTokenCache w).
Proof.
  rewrite run_clearTokenCache. apply attempts_nothing; [discriminate |].
  apply requests_cleared.
Qed.

Lemma initializeAuth_attempts (w : World) :
  attempts (Y := GeminiNativeStreamChunk) 0 allowed w
    (run (AuthManager.initializeAuth env) w).
Proof.
  destruct (initializeAuth_facts (Y := GeminiNativeStreamChunk) env w)
    as (r & wf & l & Hrun & Hh & Hreq & Hl & _).
  rewrite Hrun. split; [exact Hh |]. exists l. cbn [final].
  repeat split; [exact Hreq | apply refresh_allowed_all; exact Hl |].
  rewrite stream_calls_refresh by exact Hl. lia.
Qed.

(** The loop over the body of a response sends nothing and ends. *)
Lemma streaming_attempts (stream : Body) (modelId : string) (w : World) :
  attempts 0 allowed w
    (run (forAwait (GeminiApiClient.parseSSEStream JSON_parse stream (Some IDLE_TIMEOUT_MS))
            (GeminiApiClient.emitChunk modelId) tt) w).
Proof.
  apply attempts_nothing.
  - apply forAwait_emit_ends, readLoop_ends. discriminate.
  - apply (streaming_same_but_clock JSON_parse stream modelId w).
Qed.

(** What an attempt marked as a retry does with the response. *)
Lemma respond_retried_attempts retry (streamRequest : StreamRequest) (modelId : string)
    (response : StreamReply) (w : World) :
  attempts 0 allowed w
    (run (GeminiApiClient.respond env JSON_parse retry streamRequest modelId true response) w).
Proof.
  unfold GeminiApiClient.respond. cbn [negb]. rewrite !andb_false_r.
  destruct (negb (ok (status response))).
  - apply attempts_nothing; [discriminate | reflexivity].
  - destruct (body response) as [stream |].
    + apply streaming_attempts.
    + apply attempts_nothing; [discriminate | reflexivity].
Qed.

Lemma exchange_requests (streamRequest : StreamRequest) (w : World) :
  requests (snd (exchange streamRequest w))
  = (requests w ++ [ReqStream streamRequest (accessToken w)])%list.
Proof.
  unfold exchange. cbn [handle].
  destruct (latency (next_reply (stream_replies w)) <? CONNECTION_TIMEOUT_MS); reflexivity.
Qed.

(** An attempt marked as a retry sends its request and ends. *)
Lemma retried_attempts (streamRequest : StreamRequest) (modelId : string) (w : World) :
  (forall bearer, allowed (ReqStream streamRequest bearer)) ->
  attempts 1 allowed w (run (retried env JSON_parse streamRequest modelId) w).
Proof.
  intro Ha. rewrite (run_retried env JSON_parse streamRequest modelId (fun _ _ => Hang)).
  rewrite run_tryBlock.
  pose proof (exchange_requests streamRequest w) as Hx.
  destruct (exchange streamRequest w) as [[response | e] w']; cbn [snd] in Hx.
  - eapply attempts_after; [exact Hx | apply Ha | apply respond_retried_attempts].
  - eapply attempts_after; [exact Hx | apply Ha |].
    apply attempts_nothing; [discriminate | reflexivity].
Qed.

End Allowed.

(** The first attempt, with what it may bring about. *)
Lemma first_attempt_attempts (streamRequest : StreamRequest) (modelId : string) (w : World) :
  attempts 3 (is_attempt env streamRequest modelId) w
    (run (request_stream 2%nat streamRequest modelId false) w).
Proof.
  set (allowed := is_attempt env streamRequest modelId).
  assert (Hrefresh : forall rt, allowed (ReqRefresh rt)) by (intro; exact I).
  assert (Hsame : forall bearer, allowed (ReqStream streamRequest bearer))
    by (intro; left; reflexivity).
  rewrite run_first_attempt.
  apply (attempts_orElse (n1 := 2) (n2 := 1)).
  - rewrite run_tryBlock.
    pose proof (exchange_requests streamRequest w) as Hx.
    destruct (exchange streamRequest w) as [[response | e] w']; cbn [snd] in Hx.
    2:{ eapply attempts_after; [exact Hx | apply Hsame |].
        apply attempts_nothing; [discriminate | reflexivity]. }
    eapply attempts_after; [exact Hx | apply Hsame |].
    unfold GeminiApiClient.respond.
    destruct (negb (ok (status response))).
    + destruct ((status response =? 401) && negb false).
      * rewrite run_bind.
        apply (attempts_andThen (n1 := 0) (n2 := 1));
          [apply clearTokenCache_attempts |]. intros _ _.
        rewrite run_bind.
        apply (attempts_andThen (n1 := 0) (n2 := 1));
          [apply initializeAuth_attempts; exact Hrefresh |]. intros _ _.
        apply retried_attempts; assumption.
      * destruct (AutoModelSwitchingHelper.isRateLimitStatus (status response) && negb false).
        2:{ apply attempts_nothing; [discriminate | reflexivity]. }
        destruct (AutoModelSwitchingHelper.getFallbackModel modelId) as [fallbackModel |] eqn:Ef.
        2:{ apply attempts_nothing; [discriminate | reflexivity]. }
        destruct (AutoModelSwitchingHelper.isEnabled env) eqn:Ee.
        2:{ apply attempts_nothing; [discriminate | reflexivity]. }
        cbn [run]. apply attempts_yielded. apply retried_attempts.
        intro bearer. right. split; [exact Ee |]. exists fallbackModel. auto.
    + destruct (body response) as [stream |].
      * apply (attempts_more (n := 0)); [lia |]. apply streaming_attempts.
      * apply attempts_nothing; [discriminate | reflexivity].
  - intros e _. unfold recover.
    destruct (GeminiApiClient.isAbortError e || _).
    + apply retried_attempts; assumption.
    + apply attempts_nothing; [discriminate | reflexivity].
Qed.

(** X16.  The streaming request in every world, with the switch off or
    for a model whose name is not one that [AUTO_SWITCH_MODEL_MAP]
    inherits from [Object.prototype]: it ends, by returning or by
    throwing; besides refresh requests it sends at most three streaming
    requests, each of them the request it was given or, with the switch
    on, that request with the substitute model in place of the model. *)
Theorem stream_request_in_every_world (streamRequest : StreamRequest) (modelId : string)
    (w : World) :
  AutoModelSwitchingHelper.isEnabled env = false
    \/ AutoModelSwitchingHelper.inherited modelId = false ->
  let o := run (request_stream 2%nat streamRequest modelId false) w in
  result o <> Hangs
  /\ exists l, requests (final o) = (requests w ++ l)%list
               /\ Forall (is_attempt env streamRequest modelId) l
               /\ (stream_calls l <= 3)%nat.
Proof.
  intros _ o.
  destruct (first_attempt_attempts streamRequest modelId w) as (Hh & l & Hr & Hl & Hc).
  split; [exact Hh |]. exists l. repeat split; assumption.
Qed.

(** With the switch off, or no substitute for the model, every chunk
    carries the model that was asked for. *)
Lemma one_model_yields (modelId : string) :
  AutoModelSwitchingHelper.shouldAttemptFallback env modelId = false ->
  forall fuel streamRequest isRetry,
    AllYields (fun chunk => modelVersion (data chunk) = modelId)
      (request_stream fuel streamRequest modelId isRetry).
Proof.
  intros Hoff fuel.
  induction fuel as [| fuel IH]; intros streamRequest isRetry;
    cbn [GeminiApiClient.performNativeStreamRequest].
  - exact I.
  - apply AllYields_bind; [cbn; auto |]. intro startTime.
    apply AllYields_tryCatch.
    + unfold GeminiApiClient.tryBlock, AuthManager.getAccessToken.
      apply AllYields_bind; [cbn; auto |]. intro token.
      apply AllYields_bind; [cbn; intros [r | e]; exact I |]. intro response.
      unfold GeminiApiClient.respond.
      destruct (negb (ok (status response))).
      * destruct ((status response =? 401) && negb isRetry).
        -- apply AllYields_bind; [apply clearTokenCache_silent |]. intros _.
           apply AllYields_bind; [apply initializeAuth_silent |]. intros _. apply IH.
        -- destruct (AutoModelSwitchingHelper.isRateLimitStatus (status response) && negb isRetry);
             [| exact I].
           unfold AutoModelSwitchingHelper.shouldAttemptFallback in Hoff.
           destruct (AutoModelSwitchingHelper.getFallbackModel modelId); [| exact I].
           destruct (AutoModelSwitchingHelper.isEnabled env); [discriminate Hoff | exact I].
      * destruct (body response); [| exact I].
        apply AllYields_forAwait. intros s y.
        destruct (emitChunk_shape modelId s y) as [E | [(response' & cands & E) | (e & E)]];
          rewrite E; cbn; auto.
    + intro e. unfold GeminiApiClient.catchBlock.
      apply AllYields_bind; [cbn; auto |]. intro now.
      destruct (negb isRetry && _); [apply IH | exact I].
Qed.

(** X17.  With the switch off, or for a model for which the lookup in
    [AUTO_SWITCH_MODEL_MAP] gives [null], the streaming request never asks
    another model and never announces a switch: every streaming request it
    sends is the request it was given, and every chunk carries the model
    that was asked for. *)
Theorem switch_off_means_one_model (streamRequest : StreamRequest) (modelId : string)
    (w : World) :
  AutoModelSwitchingHelper.shouldAttemptFallback env modelId = false ->
  let o := run (request_stream 2%nat streamRequest modelId false) w in
  Forall (fun chunk => modelVersion (data chunk) = modelId) (yields o)
  /\ exists l, requests (final o) = (requests w ++ l)%list
               /\ Forall (fun r => match r with
                                   | ReqRefresh _ => True
                                   | ReqStream req _ => req = streamRequest
                                   | ReqEndpoint _ _ _ => False
                                   end) l.
Proof.
  intros Hoff o. split.
  - apply AllYields_run, one_model_yields. exact Hoff.
  - destruct (first_attempt_attempts streamRequest modelId w) as (_ & l & Hr & Hl & _).
    exists l. split; [exact Hr |].
    revert Hl. apply Forall_impl. intros [rt | m b t | req t]; cbn; auto.
    intros [H | (He & fallbackModel & Hf & _)]; [exact H |].
    unfold AutoModelSwitchingHelper.shouldAttemptFallback in Hoff.
    rewrite He, Hf in Hoff. discriminate Hoff.
Qed.

Lemma exchange_timed_out (streamRequest : StreamRequest) (w : World) :
  connection_times_out w ->
  exchange streamRequest w = (Rejected AbortError, aborted streamRequest w).
Proof.
  unfold connection_times_out, exchange, aborted. intro H. cbn [handle].
  replace (latency (next_reply (stream_replies w)) <? CONNECTION_TIMEOUT_MS) with false
    by (symmetry; apply Z.ltb_ge; exact H).
  reflexivity.
Qed.

(** X18.  A connection that is not answered within the connection timeout
    is aborted and tried once more, however long that took; when the
    second connection is not answered in time either, the call throws the
    [AbortError], two hundred seconds after it began, having sent the
    request twice. *)
Theorem connection_timeout_is_retried_once (streamRequest : StreamRequest)
    (modelId : string) (w : World) :
  connection_times_out w ->
  let o := run (request_stream 2%nat streamRequest modelId false) w in
  o = run (retried env JSON_parse streamRequest modelId) (aborted streamRequest w)
  /\ (connection_times_out (aborted streamRequest w) ->
      yields o = [] /\ result o = Thrown AbortError
      /\ clock (final o) = clock w + 2 * CONNECTION_TIMEOUT_MS
      /\ requests (final o)
         = (requests w ++ [ReqStream streamRequest (accessToken w);
                           ReqStream streamRequest (accessToken w)])%list).
Proof.
  intros H o.
  assert (Ho : o = run (retried env JSON_parse streamRequest modelId)
                     (aborted streamRequest w)).
  { subst o. rewrite run_first_attempt, run_tryBlock, (exchange_timed_out streamRequest H).
    rewrite orElse_thrown. unfold recover. reflexivity. }
  split; [exact Ho |]. intro H'. rewrite Ho.
  rewrite (run_retried env JSON_parse streamRequest modelId (fun _ _ => Hang)).
  rewrite run_tryBlock, (exchange_timed_out streamRequest H').
  cbn [yields result final]. unfold aborted. cbn. rewrite <- app_assoc.
  repeat split. unfold CONNECTION_TIMEOUT_MS. lia.
Qed.

(** X19.  A streaming request that is answered with a body that the
    decoder reads to its end, every decoded event being one that the loop
    reads without throwing (no [null] event, no [candidates] that is not
    an array, no [null] candidate): the chunks are those of the decoded
    events that have candidates, one chunk for each, in the order of the
    events, and the request returns; one request was sent. *)
Theorem answered_stream_chunks (streamRequest : StreamRequest) (modelId : string)
    (w w' : World) (response : StreamReply) (stream : Body) :
  exchange streamRequest w = (Fulfilled response, w') ->
  ok (status response) = true ->
  body response = Some stream ->
  let decoded := run (GeminiApiClient.parseSSEStream JSON_parse stream (Some IDLE_TIMEOUT_MS))
                   w' in
  result decoded = Returned tt ->
  Forall (fun jsonData => readable jsonData = true) (yields decoded) ->
  let o := run (request_stream 2%nat streamRequest modelId false) w in
  o = mkOutcome (flat_map (emitted modelId) (yields decoded)) (Returned tt) (final decoded)
  /\ requests (final o) = (requests w ++ [ReqStream streamRequest (accessToken w)])%list.
Proof.
  intros Hx Hok Hb decoded Hd Hr o.
  assert (Ho : o = mkOutcome (flat_map (emitted modelId) (yields decoded)) (Returned tt)
                     (final decoded)).
  { subst o. rewrite run_first_attempt, run_tryBlock, Hx.
    unfold GeminiApiClient.respond. rewrite Hok, Hb. cbn [negb].
    rewrite run_forAwait_emit by exact Hr. fold decoded. rewrite Hd. reflexivity. }
  split; [exact Ho |]. rewrite Ho. cbn [final].
  pose proof (exchange_requests streamRequest w) as Hq. rewrite Hx in Hq. cbn [snd] in Hq.
  rewrite <- Hq. subst decoded.
  apply (reads_only_same_but_clock
           (GeminiApiClient.parseSSEStream JSON_parse stream (Some IDLE_TIMEOUT_MS)) w').
  apply readLoop_reads_only.
Qed.

(** X20.  [getCompletionNative] gives all or nothing.  It yields nothing
    itself; when the streaming request throws, [getCompletionNative]
    throws the same value, and the chunks that had arrived by then are
    not returned. *)
Theorem getCompletionNative_all_or_nothing {Y : Type} (modelId : string) (request : Json.t)
    (projectId : string) (e : JsValue) (w : World) :
  let prelude : Prog Y string :=
    (AuthManager.initializeAuth env ;; GeminiApiClient.discoverProjectId env)%prog in
  let streamed :=
    run (request_stream 2%nat
           (GeminiApiClient.buildNativeStreamRequest modelId projectId request) modelId false)
        (final (run prelude w)) in
  result (run prelude w) = Returned projectId ->
  result streamed = Thrown e ->
  run (GeminiApiClient.getCompletionNative (Y := Y) env JSON_parse modelId request) w
  = mkOutcome [] (Thrown e) (final streamed).
Proof.
  intros prelude streamed Hpre Hstream.
  assert (Hsilent : forall w0, yields (run prelude w0) = []).
  { intro w0. pose proof (@AllYields_run Y string (fun _ => False) prelude w0) as H.
    destruct (yields (run prelude w0)) as [| y ys]; [reflexivity |].
    assert (Hf : Forall (fun _ : Y => False) (y :: ys)).
    { apply H. apply AllYields_bind; [apply initializeAuth_silent |].
      intros _. apply discoverProjectId_silent. }
    inversion Hf; contradiction. }
  unfold GeminiApiClient.getCompletionNative.
  assert (Hall : forall (k : string -> Prog Y GeminiNativeResponse),
            run (AuthManager.initializeAuth env ;;
                 projectId0 <- GeminiApiClient.discoverProjectId env ;; k projectId0)%prog w
            = andThen (run prelude w) (fun projectId0 => run (k projectId0))).
  { intro k. subst prelude. rewrite !run_bind.
    unfold andThen.
    destruct (run (Y := Y) (AuthManager.initializeAuth env) w) as [ys [[] | e0 |] wf];
      cbn [yields result final]; try reflexivity.
    rewrite !run_bind. unfold andThen.
    destruct (run (Y := Y) (GeminiApiClient.discoverProjectId env) wf) as [ys' [p | e0 |] wf'];
      cbn [yields result final]; try reflexivity.
    rewrite app_assoc. reflexivity. }
  rewrite Hall. unfold andThen. rewrite Hpre, Hsilent. cbv zeta.
  rewrite run_bind, run_forAwait_fold. fold streamed. rewrite Hstream.
  reflexivity.
Qed.

Lemma statuses_all (f : Z -> bool) (first count : nat) :
  forallb f (statuses first count) = true ->
  forall status, Z.of_nat first <= status < Z.of_nat (first + count) -> f status = true.
Proof.
  intros H status Hs. rewrite forallb_forall in H. apply H.
  unfold statuses. rewrite <- (Z2Nat.id status) by lia.
  apply in_map, in_seq. lia.
Qed.

(** X21.  The error that a refused streaming request ends with names the
    status, and [isRateLimitError] reads the status back from it: for a
    status of three digits it holds of the error exactly when
    [isRateLimitStatus] holds of the status. *)
Theorem refused_stream_error (streamRequest : StreamRequest) (modelId : string)
    (w w' : World) (response : StreamReply) :
  exchange streamRequest w = (Fulfilled response, w') ->
  ok (status response) = false ->
  100 <= status response <= 999 ->
  let o := run (retried env JSON_parse streamRequest modelId) w in
  o = mkOutcome [] (Thrown (stream_failed (status response))) w'
  /\ AutoModelSwitchingHelper.isRateLimitError (stream_failed (status response))
     = AutoModelSwitchingHelper.isRateLimitStatus (status response).
Proof.
  intros Hx Hok Hs o. split.
  - subst o. rewrite (run_retried env JSON_parse streamRequest modelId (fun _ _ => Hang)).
    rewrite run_tryBlock, Hx. unfold GeminiApiClient.respond.
    rewrite Hok. cbn [negb]. rewrite !andb_false_r. reflexivity.
  - apply Bool.eqb_prop.
    apply (statuses_all
             (fun s => Bool.eqb (AutoModelSwitchingHelper.isRateLimitError (stream_failed s))
                         (AutoModelSwitchingHelper.isRateLimitStatus s))
             100 900); [vm_compute; reflexivity | lia].
Qed.

End StreamRequestProperties.

(** ** The sanitizer of tool schemas *)

Section SanitizerProperties.
Variable toLowerCase : string -> string.
Variable String_keys : string -> list string.

Local Abbreviation sanitize := (Schema.sanitizeSchemaForGemini toLowerCase String_keys).
Local Abbreviation filterRequired := (Schema.filterRequired String_keys).
Local Abbreviation lowerType := (Schema.lowerType toLowerCase).

Lemma sanitize_obj (fields : list (string * Json.t)) :
  sanitize (Json.Obj fields) = Json.Obj (lowerType (filterRequired (kept sanitize fields))).
Proof.
  cbn [Schema.sanitizeSchemaForGemini]. do 3 f_equal.
  induction fields as [| [key value] rest IH]; [reflexivity |].
  cbn [kept]. rewrite IH. reflexivity.
Qed.

(** *** Reading and setting properties *)

Lemma assoc_update_other (k k' : string) (v : Json.t) (l : list (string * Json.t)) :
  String.eqb k k' = false ->
  Json.assoc k' (Schema.update k v l) = Json.assoc k' l.
Proof.
  intro Hk. induction l as [| [k0 v0] l IH]; [reflexivity |].
  cbn [Schema.update Json.assoc]. rewrite IH.
  destruct (Json.assoc k' l); [reflexivity |].
  destruct (String.eqb k' k0) eqn:E; [| reflexivity].
  apply String.eqb_eq in E. subst k0. rewrite Hk. reflexivity.
Qed.

Lemma assoc_update_none (k : string) (v : Json.t) (l : list (string * Json.t)) :
  Json.assoc k l = None -> Json.assoc k (Schema.update k v l) = None.
Proof.
  induction l as [| [k0 v0] l IH]; [reflexivity |].
  cbn [Schema.update Json.assoc].
  destruct (Json.assoc k l); [discriminate |].
  destruct (String.eqb k k0); [discriminate |].
  intros _. rewrite IH by reflexivity. reflexivity.
Qed.

Lemma assoc_update_same (k : string) (v v0 : Json.t) (l : list (string * Json.t)) :
  Json.assoc k l = Some v0 ->
  Json.assoc k (Schema.update k v l) = Some v.
Proof.
  revert v0. induction l as [| [k1 v1] l IH]; [discriminate |].
  intro v0. cbn [Schema.update Json.assoc].
  destruct (Json.assoc k l) as [v2 |] eqn:Ea.
  - intros _. rewrite (IH v2 eq_refl). reflexivity.
  - destruct (String.eqb k k1) eqn:E; [| discriminate].
    intros _. rewrite (assoc_update_none k v l Ea). reflexivity.
Qed.

Lemma update_update (k : string) (v : Json.t) (l : list (string * Json.t)) :
  Schema.update k v (Schema.update k v l) = Schema.update k v l.
Proof.
  induction l as [| [k0 v0] l IH]; [reflexivity |].
  cbn [Schema.update]. rewrite IH. destruct (String.eqb k k0); reflexivity.
Qed.

Lemma update_comm (k k' : string) (v v' : Json.t) (l : list (string * Json.t)) :
  String.eqb k k' = false ->
  Schema.update k v (Schema.update k' v' l) = Schema.update k' v' (Schema.update k v l).
Proof.
  intro Hk. induction l as [| [k0 v0] l IH]; [reflexivity |].
  cbn [Schema.update]. rewrite IH.
  destruct (String.eqb k k0) eqn:E, (String.eqb k' k0) eqn:E'; try reflexivity.
  apply String.eqb_eq in E, E'. subst. rewrite String.eqb_refl in Hk. discriminate.
Qed.

(** A property of every entry that [update] keeps. *)
Lemma forallb_update (p : string * Json.t -> bool) (k : string) (v : Json.t)
    (l : list (string * Json.t)) :
  (forall k0 v0, p (k0, v0) = true -> p (k0, v) = true) ->
  forallb p l = true -> forallb p (Schema.update k v l) = true.
Proof.
  intros Hp. induction l as [| [k0 v0] l IH]; [reflexivity |].
  cbn [Schema.update forallb]. intro H. apply andb_true_iff in H. destruct H as [H0 Hl].
  rewrite (IH Hl), andb_true_r.
  destruct (String.eqb k k0); [exact (Hp _ _ H0) | exact H0].
Qed.

Lemma assoc_forallb (p : string * Json.t -> bool) (k : string) (v : Json.t)
    (l : list (string * Json.t)) :
  Json.assoc k l = Some v -> forallb p l = true -> p (k, v) = true.
Proof.
  induction l as [| [k0 v0] l IH]; [discriminate |].
  cbn [Json.assoc forallb]. intros Ha H. apply andb_true_iff in H. destruct H as [H0 Hl].
  destruct (Json.assoc k l) as [v1 |].
  - injection Ha as <-. exact (IH eq_refl Hl).
  - destruct (String.eqb k k0) eqn:E; [| discriminate].
    apply String.eqb_eq in E. subst k0. injection Ha as <-. exact H0.
Qed.

Lemma forallb_filter {A : Type} (p q : A -> bool) (l : list A) :
  forallb p l = true -> forallb p (filter q l) = true.
Proof.
  induction l as [| x l IH]; [reflexivity |].
  cbn [forallb filter]. intro H. apply andb_true_iff in H. destruct H as [Hx Hl].
  destruct (q x); cbn [forallb]; rewrite ?Hx; auto.
Qed.

Lemma forallb_filter_same {A : Type} (p : A -> bool) (l : list A) :
  forallb p (filter p l) = true.
Proof.
  induction l as [| x l IH]; [reflexivity |].
  cbn [filter]. destruct (p x) eqn:E; cbn [forallb]; rewrite ?E; auto.
Qed.

Lemma filter_filter {A : Type} (p : A -> bool) (l : list A) :
  filter p (filter p l) = filter p l.
Proof.
  induction l as [| x l IH]; [reflexivity |].
  cbn [filter]. destruct (p x) eqn:E; cbn [filter]; rewrite ?E, ?IH; reflexivity.
Qed.

(** *** The two steps after the loop *)

(** A property of the values that the two steps keep: it holds of the
    values that were there, of an array of some of the items of a value
    that was there, and of every string. *)
Section Steps.
Variable good : Json.t -> bool.
Hypothesis good_str : forall s, good (Json.Str s) = true.
Hypothesis good_some : forall items q,
  good (Json.Arr items) = true -> good (Json.Arr (filter q items)) = true.
Variable key_ok : string -> bool.

Local Abbreviation entry_ok :=
  (fun kv : string * Json.t => let '(key, value) := kv in key_ok key && good value).

Lemma filterRequired_keeps (l : list (string * Json.t)) :
  forallb entry_ok l = true -> forallb entry_ok (filterRequired l) = true.
Proof.
  intro H. unfold Schema.filterRequired.
  destruct (Json.assoc "properties" l) as [properties |]; [| exact H].
  destruct (Json.assoc "required" l) as [[| b | m e | s | required | fields] |] eqn:Er;
    try exact H.
  destruct (Json.truthy properties); [| exact H].
  pose proof (assoc_forallb entry_ok _ _ Er H) as Hr. cbn beta iota in Hr.
  apply andb_true_iff in Hr. destruct Hr as [_ Hr].
  apply forallb_update; [| exact H].
  intros k0 v0 H0. cbn beta iota in *. apply andb_true_iff in H0. destruct H0 as [Hk _].
  rewrite Hk. cbn [andb]. apply good_some. exact Hr.
Qed.

Lemma lowerType_keeps (l : list (string * Json.t)) :
  forallb entry_ok l = true -> forallb entry_ok (lowerType l) = true.
Proof.
  intro H. unfold Schema.lowerType.
  destruct (Json.assoc "type" l) as [[| b | m e | t | items | fields] |]; try exact H.
  apply forallb_update; [| exact H].
  intros k0 v0 H0. cbn beta iota in *. apply andb_true_iff in H0. destruct H0 as [Hk _].
  rewrite Hk. cbn [andb]. apply good_str.
Qed.

End Steps.

(** *** No unsupported key is left *)

Lemma clean_some (items : list Json.t) (q : Json.t -> bool) :
  clean (Json.Arr items) = true -> clean (Json.Arr (filter q items)) = true.
Proof. cbn [clean]. apply forallb_filter. Qed.

(** X22.  In what [sanitizeSchemaForGemini] returns no object, at any
    depth, has a key of [UNSUPPORTED_SCHEMA_KEYS] or a key that begins
    with [$]. *)
Theorem sanitized_schema_is_clean (schema : Json.t) : clean (sanitize schema) = true.
Proof.
  induction schema as [| b | m e | s | items IH | fields IH] using Json_nested_ind;
    try reflexivity.
  - cbn [Schema.sanitizeSchemaForGemini clean].
    induction IH as [| x items Hx _ IHitems]; [reflexivity |].
    cbn [map forallb]. rewrite Hx, IHitems. reflexivity.
  - rewrite sanitize_obj. cbn [clean].
    apply (@lowerType_keeps clean (fun _ => eq_refl)
             (fun key => negb (Schema.unsupported key))).
    apply (@filterRequired_keeps clean clean_some
             (fun key => negb (Schema.unsupported key))).
    induction IH as [| [key value] fields Hv _ IHfields]; [reflexivity |].
    cbn [kept]. destruct (Schema.unsupported key) eqn:Eu; [exact IHfields |].
    cbn [forallb]. rewrite Eu. cbn [snd] in Hv. rewrite Hv, IHfields. reflexivity.
Qed.

(** *** [required] stays within [properties] *)

Lemma required_ok_some (items : list Json.t) (q : Json.t -> bool) :
  required_ok String_keys (Json.Arr items) = true ->
  required_ok String_keys (Json.Arr (filter q items)) = true.
Proof. cbn [required_ok]. apply forallb_filter. Qed.

Lemma required_within_filterRequired (l : list (string * Json.t)) :
  required_within String_keys (filterRequired l) = true.
Proof.
  unfold Schema.filterRequired, required_within.
  destruct (Json.assoc "properties" l) as [properties |] eqn:Ep.
  2:{ rewrite Ep. reflexivity. }
  destruct (Json.assoc "required" l) as [[| b | m e | s | required | fields] |] eqn:Er;
    try (rewrite Ep, Er; reflexivity).
  destruct (Json.truthy properties) eqn:Et.
  2:{ rewrite Ep, Er, Et. reflexivity. }
  rewrite (assoc_update_other "required" "properties" _ l eq_refl), Ep.
  rewrite (assoc_update_same "required" _ l Er), Et.
  apply forallb_filter_same.
Qed.

Lemma required_within_lowerType (l : list (string * Json.t)) :
  required_within String_keys (lowerType l) = required_within String_keys l.
Proof.
  unfold Schema.lowerType.
  destruct (Json.assoc "type" l) as [[| b | m e | t | items | fields] |]; try reflexivity.
  unfold required_within.
  rewrite (assoc_update_other "type" "properties" _ l eq_refl).
  rewrite (assoc_update_other "type" "required" _ l eq_refl).
  reflexivity.
Qed.

(** X23.  In what [sanitizeSchemaForGemini] returns, every object, at any
    depth, that has a truthy [properties] and an array for [required] has
    in [required] only strings that are keys of its [properties]. *)
Theorem sanitized_schema_requires_properties (schema : Json.t) :
  required_ok String_keys (sanitize schema) = true.
Proof.
  induction schema as [| b | m e | s | items IH | fields IH] using Json_nested_ind;
    try reflexivity.
  - cbn [Schema.sanitizeSchemaForGemini required_ok].
    induction IH as [| x items Hx _ IHitems]; [reflexivity |].
    cbn [map forallb]. rewrite Hx, IHitems. reflexivity.
  - rewrite sanitize_obj. cbn [required_ok].
    rewrite required_within_lowerType, required_within_filterRequired, andb_true_r.
    pose proof (@lowerType_keeps (required_ok String_keys) (fun _ => eq_refl)
                  (fun _ => true)) as Hl.
    pose proof (@filterRequired_keeps (required_ok String_keys)
                  required_ok_some (fun _ => true)) as Hf.
    cbn [andb] in Hl, Hf. apply Hl, Hf.
    induction IH as [| [key value] fields Hv _ IHfields]; [reflexivity |].
    cbn [kept]. destruct (Schema.unsupported key); [exact IHfields |].
    cbn [forallb]. cbn [snd] in Hv. rewrite Hv, IHfields. reflexivity.
Qed.

(** *** Sanitizing twice *)

(** The entries the loop keeps as they are: keys that are supported, with
    values that the sanitizer does not change. *)
Lemma kept_fixed (l : list (string * Json.t)) :
  forallb (fun kv => let '(key, _) := kv in negb (Schema.unsupported key)) l = true ->
  Forall (fun kv => sanitize (snd kv) = snd kv) l ->
  kept sanitize l = l.
Proof.
  intros Hk Hv. induction Hv as [| [key value] l Hx _ IH]; [reflexivity |].
  cbn [forallb] in Hk. apply andb_true_iff in Hk. destruct Hk as [Hkey Hl].
  apply negb_true_iff in Hkey. cbn [kept]. rewrite Hkey. cbn [snd] in Hx.
  rewrite Hx, (IH Hl). reflexivity.
Qed.

Lemma Forall_update (P : Json.t -> Prop) (k : string) (v : Json.t)
    (l : list (string * Json.t)) :
  P v -> Forall (fun kv => P (snd kv)) l -> Forall (fun kv => P (snd kv)) (Schema.update k v l).
Proof.
  intros Hv. induction 1 as [| [k0 v0] l H0 _ IH]; [constructor |].
  cbn [Schema.update]. constructor; [| exact IH].
  cbn [snd] in *. destruct (String.eqb k k0); assumption.
Qed.

Lemma assoc_Forall (P : Json.t -> Prop) (k : string) (v : Json.t)
    (l : list (string * Json.t)) :
  Json.assoc k l = Some v -> Forall (fun kv => P (snd kv)) l -> P v.
Proof.
  intros Ha H. induction H as [| [k0 v0] l H0 _ IH]; [discriminate |].
  cbn [Json.assoc] in Ha. destruct (Json.assoc k l) as [v1 |].
  - injection Ha as <-. exact (IH eq_refl).
  - destruct (String.eqb k k0); [| discriminate]. injection Ha as <-. exact H0.
Qed.

Lemma sanitize_some (items : list Json.t) (q : Json.t -> bool) :
  sanitize (Json.Arr items) = Json.Arr items ->
  sanitize (Json.Arr (filter q items)) = Json.Arr (filter q items).
Proof.
  cbn [Schema.sanitizeSchemaForGemini]. intro H. injection H as H. f_equal.
  induction items as [| x items IH]; [reflexivity |].
  cbn [map] in H. injection H as Hx Hitems.
  cbn [filter]. destruct (q x); cbn [map]; rewrite ?Hx, (IH Hitems); reflexivity.
Qed.

Lemma keys_update (p : string -> bool) (k : string) (v : Json.t) (l : list (string * Json.t)) :
  forallb (fun kv => let '(key, _) := kv in p key) (Schema.update k v l)
  = forallb (fun kv => let '(key, _) := kv in p key) l.
Proof.
  induction l as [| [k0 v0] l IH]; [reflexivity |].
  cbn [Schema.update forallb]. rewrite IH. reflexivity.
Qed.

Lemma keys_kept (f : Json.t -> Json.t) (l : list (string * Json.t)) :
  forallb (fun kv => let '(key, _) := kv in negb (Schema.unsupported key)) (kept f l) = true.
Proof.
  induction l as [| [key value] l IH]; [reflexivity |].
  cbn [kept]. destruct (Schema.unsupported key) eqn:E; [exact IH |].
  cbn [forallb]. rewrite E, IH. reflexivity.
Qed.

Lemma filterRequired_twice (l : list (string * Json.t)) :
  filterRequired (filterRequired l) = filterRequired l.
Proof.
  unfold Schema.filterRequired at 2.
  destruct (Json.assoc "properties" l) as [properties |] eqn:Ep.
  2:{ unfold Schema.filterRequired. rewrite Ep. reflexivity. }
  destruct (Json.assoc "required" l) as [[| b | m e | s | required | fields] |] eqn:Er;
    try (unfold Schema.filterRequired; rewrite Ep, Er; reflexivity).
  destruct (Json.truthy properties) eqn:Et.
  2:{ unfold Schema.filterRequired. rewrite Ep, Er, Et. reflexivity. }
  cbv zeta.
  assert (Hf : filterRequired l
               = Schema.update "required"
                   (Json.Arr (filter (Schema.named (Schema.Object_keys String_keys properties))
                                required)) l).
  { unfold Schema.filterRequired. rewrite Ep, Er, Et. reflexivity. }
  rewrite Hf. unfold Schema.filterRequired.
  rewrite (assoc_update_other "required" "properties" _ l eq_refl), Ep.
  rewrite (assoc_update_same "required" _ l Er), Et.
  cbv zeta. rewrite filter_filter. apply update_update.
Qed.

Lemma filterRequired_lowerType (l : list (string * Json.t)) :
  filterRequired (lowerType l) = lowerType (filterRequired l).
Proof.
  unfold Schema.lowerType at 1.
  destruct (Json.assoc "type" l) as [[| b | m e | t | items | fields] |] eqn:Et;
    try (unfold Schema.filterRequired, Schema.lowerType;
         destruct (Json.assoc "properties" l) as [properties |]; [| rewrite Et; reflexivity];
         destruct (Json.assoc "required" l) as [[| b' | m' e' | s' | required | fields'] |];
         try (rewrite Et; reflexivity);
         destruct (Json.truthy properties); [| rewrite Et; reflexivity];
         rewrite (assoc_update_other "required" "type" _ l eq_refl), Et; reflexivity).
  unfold Schema.filterRequired.
  rewrite (assoc_update_other "type" "properties" _ l eq_refl).
  rewrite (assoc_update_other "type" "required" _ l eq_refl).
  destruct (Json.assoc "properties" l) as [properties |].
  2:{ unfold Schema.lowerType. rewrite Et. reflexivity. }
  destruct (Json.assoc "required" l) as [[| b' | m' e' | s' | required | fields'] |];
    try (unfold Schema.lowerType; rewrite Et; reflexivity).
  destruct (Json.truthy properties).
  2:{ unfold Schema.lowerType. rewrite Et. reflexivity. }
  cbv zeta. unfold Schema.lowerType.
  rewrite (assoc_update_other "required" "type" _ l eq_refl), Et.
  apply (update_comm "required" "type" _ _ l eq_refl).
Qed.

Lemma lowerType_twice (l : list (string * Json.t)) :
  (forall s, toLowerCase (toLowerCase s) = toLowerCase s) ->
  lowerType (lowerType l) = lowerType l.
Proof.
  intro Hlower. unfold Schema.lowerType at 2.
  destruct (Json.assoc "type" l) as [[| b | m e | t | items | fields] |] eqn:Et;
    try (unfold Schema.lowerType; rewrite Et; reflexivity).
  unfold Schema.lowerType. rewrite (assoc_update_same "type" _ l Et), Hlower, Et.
  apply update_update.
Qed.

(** X24.  [sanitizeSchemaForGemini] is idempotent, [toLowerCase] being
    so: a schema that has been sanitized is not changed by being
    sanitized again. *)
Theorem sanitizing_twice_is_sanitizing_once (schema : Json.t) :
  (forall s, toLowerCase (toLowerCase s) = toLowerCase s) ->
  sanitize (sanitize schema) = sanitize schema.
Proof.
  intro Hlower.
  induction schema as [| b | m e | s | items IH | fields IH] using Json_nested_ind;
    try reflexivity.
  - cbn [Schema.sanitizeSchemaForGemini]. f_equal.
    induction IH as [| x items Hx _ IHitems]; [reflexivity |].
    cbn [map]. rewrite Hx, IHitems. reflexivity.
  - rewrite !sanitize_obj. f_equal.
    set (l0 := kept sanitize fields).
    assert (Hfixed0 : Forall (fun kv => sanitize (snd kv) = snd kv) l0).
    { subst l0. induction IH as [| [key value] fields Hv _ IHfields]; [constructor |].
      cbn [kept]. destruct (Schema.unsupported key); [exact IHfields |].
      constructor; [exact Hv | exact IHfields]. }
    assert (Hfixed1 : Forall (fun kv => sanitize (snd kv) = snd kv) (filterRequired l0)).
    { unfold Schema.filterRequired.
      destruct (Json.assoc "properties" l0) as [properties |]; [| exact Hfixed0].
      destruct (Json.assoc "required" l0) as [[| b | m e | s | required | fields'] |] eqn:Er;
        try exact Hfixed0.
      destruct (Json.truthy properties); [| exact Hfixed0].
      apply (Forall_update (fun v => sanitize v = v)); [| exact Hfixed0].
      apply sanitize_some.
      exact (assoc_Forall (fun v => sanitize v = v) _ Er Hfixed0). }
    assert (Hfixed2 : Forall (fun kv => sanitize (snd kv) = snd kv)
                        (lowerType (filterRequired l0))).
    { unfold Schema.lowerType.
      destruct (Json.assoc "type" (filterRequired l0))
        as [[| b | m e | t | items | fields'] |]; try exact Hfixed1.
      apply (Forall_update (fun v => sanitize v = v)); [reflexivity | exact Hfixed1]. }
    assert (Hkeys : forallb (fun kv => let '(key, _) := kv in negb (Schema.unsupported key))
                      (lowerType (filterRequired l0)) = true).
    { assert (H1 : forallb (fun kv => let '(key, _) := kv in negb (Schema.unsupported key))
                     (filterRequired l0) = true).
      { unfold Schema.filterRequired.
        destruct (Json.assoc "properties" l0) as [properties |]; [| apply keys_kept].
        destruct (Json.assoc "required" l0) as [[| b | m e | s | required | fields'] |];
          try apply keys_kept.
        destruct (Json.truthy properties); [| apply keys_kept].
        rewrite (keys_update (fun key => negb (Schema.unsupported key))). apply keys_kept. }
      unfold Schema.lowerType.
      destruct (Json.assoc "type" (filterRequired l0))
        as [[| b | m e | t | items | fields'] |]; try exact H1.
      rewrite (keys_update (fun key => negb (Schema.unsupported key))). exact H1. }
    rewrite (kept_fixed Hkeys Hfixed2).
    rewrite filterRequired_lowerType, filterRequired_twice.
    apply lowerType_twice. exact Hlower.
Qed.

End SanitizerProperties.

(** ** The API key middleware *)

Section MiddlewareProperties.
Variable Bearer : string -> option string.

(** X25.  With an API key configured, a request to a path that is not
    public is handed on only when it presents that key, and the first
    place that holds a key decides: the [x-goog-api-key] header, else the
    [key] query parameter, else the [Authorization: Bearer] header.  A
    header [x-goog-api-key] that is not empty is final: the request is
    handed on when it is the key and refused as [Invalid API key] when it
    is not, whatever the other two places hold. *)
Theorem api_key_is_enforced (key : string) (req : Middleware.Request) :
  truthy_string key = true ->
  existsb (fun endpoint => String.eqb (Middleware.path req) endpoint)
    Middleware.publicEndpoints = false ->
  let handled := Middleware.geminiApiKeyAuth (Some key) Bearer req in
  (handled = Middleware.Next ->
   Middleware.header_x_goog_api_key req = Some key
   \/ (truthy_opt (Middleware.header_x_goog_api_key req) = false
       /\ Middleware.query_key req = Some key)
   \/ (truthy_opt (Middleware.header_x_goog_api_key req) = false
       /\ truthy_opt (Middleware.query_key req) = false
       /\ exists authHeader,
            Middleware.header_Authorization req = Some authHeader
            /\ Bearer authHeader = Some key))
  /\ (forall provided,
        Middleware.header_x_goog_api_key req = Some provided ->
        truthy_string provided = true ->
        handled = if String.eqb provided key then Middleware.Next
                  else Middleware.Unauthenticated "Invalid API key").
Proof.
  intros Hkey Hpath handled. subst handled.
  unfold Middleware.geminiApiKeyAuth. rewrite Hpath, Hkey.
  destruct req as [p hx q ha]. cbn [Middleware.header_x_goog_api_key Middleware.query_key
                                    Middleware.header_Authorization].
  split.
  - destruct hx as [k |], q as [qk |], ha as [h |];
      repeat (cbv zeta; cbn [truthy_opt negb];
              match goal with
              | |- context [truthy_string ?x] =>
                  let E := fresh "E" in destruct (truthy_string x) eqn:E
              | |- context [Bearer ?x] =>
                  let E := fresh "E" in destruct (Bearer x) eqn:E
              | |- context [String.eqb ?a ?b] => destruct (String.eqb_spec a b)
              end);
      cbv zeta; cbn [truthy_opt negb]; intro H; try discriminate H; subst;
      first [ solve [left; reflexivity]
            | solve [right; left; split; reflexivity]
            | solve [right; right; repeat split; eauto] ].
  - intros provided Hh Hp. cbn [Middleware.header_x_goog_api_key] in Hh. subst hx.
    cbv zeta. cbn [truthy_opt]. rewrite !Hp. cbn [negb truthy_opt]. rewrite ?Hp.
    cbn [negb]. rewrite ?Hp. cbn [negb].
    destruct (String.eqb provided key); reflexivity.
Qed.

End MiddlewareProperties.

(** ** The transformer and the decoder *)

Section TransformerProperties.
Context {J : Type}.
Variable JSON_stringify : GeminiNativeResponse -> string.
Variable parse : string -> option J.
Variable read : GeminiNativeResponse -> J.

Local Abbreviation transform := (GeminiNativeStreamTransformer.transform JSON_stringify).

(** The output for a sequence of chunks is a text of whole events, one
    for each native chunk. *)
Lemma transformed_frames (chunks : list GeminiNativeStreamChunk) :
  concatenated (flat_map transform chunks)
  = frames_text (map (fun chunk => [JSON_stringify (data chunk)])
                   (filter native_chunk chunks)).
Proof.
  induction chunks as [| chunk chunks IH]; [reflexivity |].
  cbn [flat_map filter]. unfold GeminiNativeStreamTransformer.transform at 1, native_chunk at 1.
  destruct (String.eqb (chunk_type chunk) "gemini_native").
  - cbn [app concatenated fold_right map]. fold (concatenated (flat_map transform chunks)).
    rewrite IH. unfold frames_text. cbn [flat_map frame_lines map app unlines fold_right].
    rewrite !append_assoc. reflexivity.
  - cbn [app]. exact IH.
Qed.

(** X26.  What the transformer writes, the decoder of the client reads
    back.  Take chunks for the data of which [JSON.stringify] gives a text
    that is not empty and has no line feed, which [JSON.parse] reads as
    [read] of the data: the output for the chunks, delivered in time
    however it is cut, is decoded into the data of the native chunks, one
    event for each, in order. *)
Theorem transformed_stream_is_decodable (idle : Z) (pieces : list (Z * string))
    (closing : Z) (w : World) (chunks : list GeminiNativeStreamChunk) :
  Forall (fun chunk =>
            single_line (JSON_stringify (data chunk)) = true
            /\ truthy_string (JSON_stringify (data chunk)) = true
            /\ parse (JSON_stringify (data chunk)) = Some (read (data chunk)))
         (filter native_chunk chunks) ->
  idle <> 0 ->
  in_time idle pieces -> closing <= idle ->
  text_of pieces = concatenated (flat_map transform chunks) ->
  let o := run (GeminiApiClient.parseSSEStream parse
                  (arrivals pieces ++ [Closes closing])%list (Some idle)) w in
  yields o = map (fun chunk => read (data chunk)) (filter native_chunk chunks)
  /\ result o = Returned tt.
Proof.
  intros Hrt Hidle Hin Hc Ht.
  destruct (parseSSEStream_decode parse w Hidle Hin Hc) as [Hy Hr].
  cbn zeta in *. rewrite Hy, Hr, Ht, transformed_frames. split; [| reflexivity].
  rewrite decode_frames.
  - induction Hrt as [| chunk l (Hl & Htr & Hp) _ IH]; [reflexivity |].
    cbn [map flat_map joined fold_right]. rewrite append_empty_r, IH.
    unfold flush. rewrite Htr, Hp. reflexivity.
  - induction Hrt as [| chunk l (Hl & _) _ IH]; constructor; auto.
Qed.

End TransformerProperties.

(** * More concrete runs *)

(** X1 at the configured environment, with nothing cached. *)
Lemma initializeAuth_in_every_world_witness :
  let o := run (Y := Empty_set) (AuthManager.initializeAuth configured) quiet in
  yields o = []
  /\ ((result o = Returned tt /\ exists t, accessToken (final o) = Some t)
      \/ exists e, result o = Thrown e /\ error_with_prefix "Authentication failed: " e)
  /\ exists l, requests (final o) = (requests quiet ++ l)%list
               /\ Forall is_refresh l /\ (List.length l <= 2)%nat.
Proof.
  exact (@initializeAuth_in_every_world Empty_set configured (SeedJson seed) quiet eq_refl).
Defined.

(** X2 at a stale cache, a refresh that is answered, and a seed that does
    not parse. *)
Lemma stale_cache_is_refreshed_witness :
  let o := run (Y := Empty_set) (AuthManager.initializeAuth malformed_seed) refreshing in
  let kept := refreshed_record renewed "cached-refresh" (clock refreshing + 200) in
  yields o = [] /\ result o = Returned tt
  /\ accessToken (final o) = Some "new-access"
  /\ tokenFile (final o) = Some (TokenJson kept)
  /\ CachedTokenData.expiry_date kept = clock refreshing + 200 + 3600 * 1000
  /\ (truthy_opt (TokenRefreshResponse.refresh_token renewed) = false ->
      CachedTokenData.refresh_token kept = Some "cached-refresh")
  /\ requests (final o) = (requests refreshing ++ [ReqRefresh "cached-refresh"])%list
  /\ refresh_replies (final o) = [].
Proof.
  apply (@stale_cache_is_refreshed Empty_set malformed_seed SeedMalformed refreshing
           cached_stale "cached-refresh" 200 renewed []).
  - reflexivity.
  - reflexivity.
  - reflexivity.
  - vm_compute. discriminate.
  - reflexivity.
  - reflexivity.
  - reflexivity.
Defined.

(** X3 at a store that fails and the fresh seed. *)
Lemma storage_failure_is_tolerated_witness :
  let w := with_storage_fails true quiet in
  run (Y := Empty_set) (AuthManager.initializeAuth configured) w
  = mkOutcome [] (Returned tt) (set_accessToken (Some "seed-access") w).
Proof.
  apply (proj1 (@storage_failure_is_tolerated Empty_set configured seed
                  (with_storage_fails true quiet) eq_refl eq_refl)).
  vm_compute. reflexivity.
Defined.

(** X7 at a call that is answered with the project. *)
Lemma callEndpoint_answered_witness :
  let o1 := run (Y := Empty_set) (AuthManager.initializeAuth configured) answering in
  let o := run (Y := Empty_set)
             (AuthManager.callEndpoint configured 2 "loadCodeAssist" loadCodeAssist_body false)
             answering in
  yields o = []
  /\ result o = call_result (Fulfilled (mkEndpointReply 200 project_reply))
  /\ (exists t, accessToken (final o1) = Some t)
  /\ requests (final o)
     = (requests (final o1)
        ++ [ReqEndpoint "loadCodeAssist" loadCodeAssist_body (accessToken (final o1))])%list
  /\ clock (final o) = clock (final o1) + 50
  /\ endpoint_replies (final o) = [].
Proof.
  apply (@callEndpoint_answered Empty_set configured "loadCodeAssist" loadCodeAssist_body
           false answering 50 (Fulfilled (mkEndpointReply 200 project_reply)) []).
  - vm_compute. reflexivity.
  - reflexivity.
  - reflexivity.
Defined.

(** X8 at a 401 followed by the answer. *)
Lemma unauthorized_call_reuses_fresh_seed_witness :
  let o1 := run (Y := Empty_set) (AuthManager.initializeAuth configured) unauthorized_once in
  let o := run (Y := Empty_set)
             (AuthManager.callEndpoint configured 2 "loadCodeAssist" loadCodeAssist_body false)
             unauthorized_once in
  result o = call_result (Fulfilled (mkEndpointReply 200 project_reply))
  /\ requests (final o)
     = (requests (final o1)
        ++ [ReqEndpoint "loadCodeAssist" loadCodeAssist_body (accessToken (final o1));
            ReqEndpoint "loadCodeAssist" loadCodeAssist_body
              (Some (OAuth2Credentials.access_token seed))])%list
  /\ accessToken (final o) = Some (OAuth2Credentials.access_token seed)
  /\ tokenFile (final o) = Some (TokenJson (seed_record seed (clock (final o1) + 50))).
Proof.
  apply (@unauthorized_call_reuses_fresh_seed Empty_set configured "loadCodeAssist"
           loadCodeAssist_body unauthorized_once seed 50 50 "expired"
           (Fulfilled (mkEndpointReply 200 project_reply)) []).
  - reflexivity.
  - reflexivity.
  - vm_compute. reflexivity.
  - reflexivity.
  - vm_compute. reflexivity.
Defined.

(** X9 at a discovery that the endpoint answers. *)
Lemma discoverProjectId_is_remembered_witness :
  let o := run (Y := Empty_set) (GeminiApiClient.discoverProjectId discovering) answering in
  run (Y := Empty_set) (GeminiApiClient.discoverProjectId discovering) (final o)
  = mkOutcome [] (Returned "p-9") (final o).
Proof.
  apply (@discoverProjectId_is_remembered Empty_set discovering answering "p-9").
  vm_compute. reflexivity.
Defined.

Lemma arrivals_in_time : 5 <= IDLE_TIMEOUT_MS.
Proof. vm_compute. discriminate. Qed.

Lemma idle_armed : IDLE_TIMEOUT_MS <> 0.
Proof. discriminate. Qed.

(** X11 at the frame of C4, in two reads and in one. *)
Lemma decoding_ignores_chunking_witness :
  yields (run (GeminiApiClient.parseSSEStream Json.parse
                 (arrivals [(5, frame_a); (5, nl)] ++ [Closes 5])%list
                 (Some IDLE_TIMEOUT_MS)) quiet)
  = yields (run (GeminiApiClient.parseSSEStream Json.parse
                   (arrivals [(5, (frame_a ++ nl)%string)] ++ [Closes 5])%list
                   (Some IDLE_TIMEOUT_MS)) quiet).
Proof.
  apply (@decoding_ignores_chunking Json.t Json.parse IDLE_TIMEOUT_MS
           [(5, frame_a); (5, nl)] [(5, (frame_a ++ nl)%string)] 5 5 quiet quiet).
  - exact idle_armed.
  - repeat (constructor; [exact arrivals_in_time |]). constructor.
  - exact arrivals_in_time.
  - repeat (constructor; [exact arrivals_in_time |]). constructor.
  - exact arrivals_in_time.
  - reflexivity.
Defined.

(** X12 at the frame of C4. *)
Lemma frames_are_decoded_witness :
  let o := run (GeminiApiClient.parseSSEStream Json.parse
                  (arrivals [(5, frame_a); (5, nl)] ++ [Closes 5])%list
                  (Some IDLE_TIMEOUT_MS)) quiet in
  yields o = flat_map (fun payloads => flush Json.parse (joined payloads)) [[payload_a]]
  /\ result o = Returned tt.
Proof.
  apply (@frames_are_decoded Json.t Json.parse IDLE_TIMEOUT_MS
           [(5, frame_a); (5, nl)] 5 quiet [[payload_a]]).
  - exact idle_armed.
  - repeat (constructor; [exact arrivals_in_time |]). constructor.
  - exact arrivals_in_time.
  - repeat constructor.
  - reflexivity.
Defined.

(** X13 at a second [data: ] line that no line feed closes. *)
Lemma unterminated_line_is_dropped_witness :
  yields (run (GeminiApiClient.parseSSEStream Json.parse
                 (arrivals [(5, frame_a); (5, "data: 2")] ++ [Closes 5])%list
                 (Some IDLE_TIMEOUT_MS)) quiet)
  = yields (run (GeminiApiClient.parseSSEStream Json.parse
                   (arrivals [(5, frame_a)] ++ [Closes 5])%list
                   (Some IDLE_TIMEOUT_MS)) quiet).
Proof.
  apply (@unterminated_line_is_dropped Json.t Json.parse IDLE_TIMEOUT_MS
           [(5, frame_a); (5, "data: 2")] [(5, frame_a)] 5 5 quiet quiet
           ("data: " ++ payload_a) "data: 2").
  - exact idle_armed.
  - repeat (constructor; [exact arrivals_in_time |]). constructor.
  - exact arrivals_in_time.
  - repeat (constructor; [exact arrivals_in_time |]). constructor.
  - exact arrivals_in_time.
  - reflexivity.
  - reflexivity.
  - reflexivity.
Defined.

(** X14 at a comment line before the frame. *)
Lemma other_lines_are_ignored_witness :
  yields (run (GeminiApiClient.parseSSEStream Json.parse
                 (arrivals [(5, (": ping" ++ nl)%string); (5, (frame_a ++ nl)%string)] ++ [Closes 5])%list
                 (Some IDLE_TIMEOUT_MS)) quiet)
  = yields (run (GeminiApiClient.parseSSEStream Json.parse
                   (arrivals [(5, (frame_a ++ nl)%string)] ++ [Closes 5])%list
                   (Some IDLE_TIMEOUT_MS)) quiet).
Proof.
  apply (@other_lines_are_ignored Json.t Json.parse IDLE_TIMEOUT_MS
           [(5, (": ping" ++ nl)%string); (5, (frame_a ++ nl)%string)] [(5, (frame_a ++ nl)%string)] 5 5 quiet quiet
           [] ": ping" (frame_a ++ nl)).
  - exact idle_armed.
  - repeat (constructor; [exact arrivals_in_time |]). constructor.
  - exact arrivals_in_time.
  - repeat (constructor; [exact arrivals_in_time |]). constructor.
  - exact arrivals_in_time.
  - constructor.
  - reflexivity.
  - reflexivity.
  - reflexivity.
  - reflexivity.
  - reflexivity.
Defined.

(** X15 at a stream that sends one line and stalls. *)
Lemma stalled_stream_by_runtime_witness :
  let o := run (GeminiApiClient.parseSSEStream Json.parse (arrivals [(5, frame_a)])
                  (Some IDLE_TIMEOUT_MS)) quiet in
  clock (final o) = clock quiet + total_delay [(5, frame_a)] + IDLE_TIMEOUT_MS
  /\ match cancel_semantics quiet with
     | ClosesStream =>
         yields o = decode Json.parse (text_of [(5, frame_a)]) /\ result o = Returned tt
     | RejectsPendingRead =>
         yields o = complete_events Json.parse (text_of [(5, frame_a)])
         /\ result o = Thrown (idle_timeout IDLE_TIMEOUT_MS)
     end.
Proof.
  apply (@stalled_stream_by_runtime Json.t Json.parse IDLE_TIMEOUT_MS [(5, frame_a)] quiet).
  - exact idle_armed.
  - repeat (constructor; [exact arrivals_in_time |]). constructor.
Defined.

(** The lookup of a name that the map inherits is not [null], so
    [shouldAttemptFallback] holds of it when the switch is on. *)
Lemma inherited_name_is_not_null :
  AutoModelSwitchingHelper.shouldAttemptFallback configured "constructor" = true
  /\ AutoModelSwitchingHelper.shouldAttemptFallback configured "gemini-1.5-pro" = false
  /\ AutoModelSwitchingHelper.shouldAttemptFallback switched_off "constructor" = false.
Proof. vm_compute. repeat split. Qed.

(** An event that is [null] makes the loop over the events throw a
    [TypeError]; it comes within five seconds of the start, so the request
    is made once more. *)
Lemma null_event_is_retried :
  let o := run (GeminiApiClient.performNativeStreamRequest configured parse_event 2
                  (ask pro) pro false) null_event in
  yields o = [text_chunk pro "hello" "STOP"]
  /\ result o = Returned tt
  /\ sent_models (final o) = [pro; pro].
Proof. vm_compute. repeat split. Qed.

(** X5 at the stale cache. *)
Lemma cleared_cache_reads_as_empty_witness :
  let o := run (Y := Empty_set)
             (AuthManager.clearTokenCache ;; AuthManager.getTokenFromFile)%prog stale_cache in
  yields o = []
  /\ result o = Returned None
  /\ tokenFile (final o) = Some NotJson
  /\ requests (final o) = requests stale_cache
  /\ accessToken (final o) = accessToken stale_cache.
Proof.
  exact (@cleared_cache_reads_as_empty Empty_set stale_cache eq_refl).
Defined.

(** X16 at a model that is rate-limited, and its substitute too. *)
Lemma stream_request_in_every_world_witness :
  let o := run (GeminiApiClient.performNativeStreamRequest configured parse_event 2
                  (ask pro) pro false) both_limited in
  result o <> Hangs
  /\ exists l, requests (final o) = (requests both_limited ++ l)%list
               /\ Forall (is_attempt configured (ask pro) pro) l
               /\ (stream_calls l <= 3)%nat.
Proof.
  apply (@stream_request_in_every_world configured parse_event (ask pro) pro both_limited).
  right. reflexivity.
Defined.

(** X17 at a rate-limited model, the switch being off. *)
Lemma switch_off_means_one_model_witness :
  let o := run (GeminiApiClient.performNativeStreamRequest switched_off parse_event 2
                  (ask pro) pro false) limited_once in
  Forall (fun chunk => modelVersion (data chunk) = pro) (yields o)
  /\ exists l, requests (final o) = (requests limited_once ++ l)%list
               /\ Forall (fun r => match r with
                                   | ReqRefresh _ => True
                                   | ReqStream req _ => req = ask pro
                                   | ReqEndpoint _ _ _ => False
                                   end) l.
Proof.
  apply (@switch_off_means_one_model switched_off parse_event (ask pro) pro limited_once).
  reflexivity.
Defined.

(** X18 at two connections that are not answered in time. *)
Lemma connection_timeout_is_retried_once_witness :
  let o := run (GeminiApiClient.performNativeStreamRequest configured parse_event 2
                  (ask pro) pro false) unreachable in
  yields o = [] /\ result o = Thrown AbortError
  /\ clock (final o) = clock unreachable + 2 * CONNECTION_TIMEOUT_MS
  /\ requests (final o)
     = (requests unreachable ++ [ReqStream (ask pro) (accessToken unreachable);
                                 ReqStream (ask pro) (accessToken unreachable)])%list.
Proof.
  apply (@connection_timeout_is_retried_once configured parse_event (ask pro) pro unreachable).
  - vm_compute. discriminate.
  - vm_compute. discriminate.
Defined.

(** X19 at a stream of three events. *)
Lemma answered_stream_chunks_witness :
  let o := run (GeminiApiClient.performNativeStreamRequest configured parse_event 2
                  (ask pro) pro false) three_chunks in
  yields o = [text_chunk pro "one" "OTHER"; text_chunk pro "two" "STOP";
              text_chunk pro "three" "MAX_TOKENS"]
  /\ result o = Returned tt
  /\ requests (final o)
     = (requests three_chunks ++ [ReqStream (ask pro) (accessToken three_chunks)])%list.
Proof.
  destruct (@answered_stream_chunks configured parse_event (ask pro) pro three_chunks
              (snd (exchange (ask pro) three_chunks))
              (mkStreamReply 200 EmptyString
                 (Some [Arrives 5 (text_event "one" "OTHER"); Arrives 5 (text_event "two" "STOP");
                        Arrives 5 (text_event "three" "MAX_TOKENS"); Closes 5]))
              [Arrives 5 (text_event "one" "OTHER"); Arrives 5 (text_event "two" "STOP");
               Arrives 5 (text_event "three" "MAX_TOKENS"); Closes 5]
              eq_refl eq_refl eq_refl) as [Ho Hq].
  - vm_compute. reflexivity.
  - vm_compute. repeat constructor.
  - cbv zeta. rewrite Ho. split; [vm_compute; reflexivity |]. split; [reflexivity |].
    rewrite <- Ho. exact Hq.
Defined.

(** X20 at a 500 that comes after six seconds. *)
Lemma getCompletionNative_all_or_nothing_witness :
  run (Y := Empty_set)
    (GeminiApiClient.getCompletionNative configured parse_event pro (Json.Obj [])) failing_late
  = mkOutcome [] (Thrown (stream_failed 500))
      (final (run (GeminiApiClient.performNativeStreamRequest configured parse_event 2
                     (GeminiApiClient.buildNativeStreamRequest pro "project-1" (Json.Obj []))
                     pro false)
                  (final (run (Y := Empty_set)
                            (AuthManager.initializeAuth configured ;;
                             GeminiApiClient.discoverProjectId configured)%prog
                            failing_late)))).
Proof.
  apply (@getCompletionNative_all_or_nothing configured parse_event Empty_set pro
           (Json.Obj []) "project-1" (stream_failed 500) failing_late).
  - vm_compute. reflexivity.
  - vm_compute. reflexivity.
Defined.

(** X21 at a 429. *)
Lemma refused_stream_error_witness :
  let o := run (retried configured parse_event (ask pro) pro) limited in
  o = mkOutcome [] (Thrown (stream_failed 429)) (snd (exchange (ask pro) limited))
  /\ AutoModelSwitchingHelper.isRateLimitError (stream_failed 429)
     = AutoModelSwitchingHelper.isRateLimitStatus 429.
Proof.
  apply (@refused_stream_error configured parse_event (ask pro) pro limited
           (snd (exchange (ask pro) limited)) (mkStreamReply 429 "refused" None)).
  - reflexivity.
  - reflexivity.
  - vm_compute. split; discriminate.
Defined.

Lemma lower_ascii_twice (c : ascii) : lower_ascii (lower_ascii c) = lower_ascii c.
Proof. destruct c as [[] [] [] [] [] [] [] []]; reflexivity. Qed.

Lemma lower_twice (s : string) : lower (lower s) = lower s.
Proof.
  induction s as [| c s IH]; [reflexivity |].
  cbn [lower]. rewrite lower_ascii_twice, IH. reflexivity.
Qed.

(** X24 at a tool schema, with [toLowerCase] on ASCII. *)
Lemma sanitizing_twice_is_sanitizing_once_witness :
  Schema.sanitizeSchemaForGemini lower indices
    (Schema.sanitizeSchemaForGemini lower indices tool_schema)
  = Schema.sanitizeSchemaForGemini lower indices tool_schema.
Proof.
  exact (@sanitizing_twice_is_sanitizing_once lower indices tool_schema lower_twice).
Defined.

(** X25 at a request that carries the key in the query. *)
Lemma api_key_is_enforced_witness :
  let handled := Middleware.geminiApiKeyAuth (Some "secret") (fun _ => None) keyed_request in
  (handled = Middleware.Next ->
   Middleware.header_x_goog_api_key keyed_request = Some "secret"
   \/ (truthy_opt (Middleware.header_x_goog_api_key keyed_request) = false
       /\ Middleware.query_key keyed_request = Some "secret")
   \/ (truthy_opt (Middleware.header_x_goog_api_key keyed_request) = false
       /\ truthy_opt (Middleware.query_key keyed_request) = false
       /\ exists authHeader,
            Middleware.header_Authorization keyed_request = Some authHeader
            /\ (fun _ : string => @None string) authHeader = Some "secret"))
  /\ (forall provided,
        Middleware.header_x_goog_api_key keyed_request = Some provided ->
        truthy_string provided = true ->
        handled = if String.eqb provided "secret" then Middleware.Next
                  else Middleware.Unauthenticated "Invalid API key").
Proof.
  apply (@api_key_is_enforced (fun _ => None) "secret" keyed_request).
  - reflexivity.
  - reflexivity.
Defined.

(** X26 at three chunks, one of them with token counts and one that is not
    native, written by [stringify] and read by [Json.parse]; the output
    arrives cut in the middle of the first event. *)
Lemma transformed_stream_is_decodable_witness :
  let o := run (GeminiApiClient.parseSSEStream Json.parse
                  (arrivals (cut_at 40 (concatenated
                     (flat_map (GeminiNativeStreamTransformer.transform stringify)
                        sample_chunks))) ++ [Closes 5])%list
                  (Some IDLE_TIMEOUT_MS)) quiet in
  yields o = map (fun chunk => json_of_response (data chunk))
               (filter native_chunk sample_chunks)
  /\ result o = Returned tt.
Proof.
  apply (@transformed_stream_is_decodable Json.t stringify Json.parse json_of_response
           IDLE_TIMEOUT_MS
           (cut_at 40 (concatenated
              (flat_map (GeminiNativeStreamTransformer.transform stringify) sample_chunks)))
           5 quiet sample_chunks).
  - change (filter native_chunk sample_chunks)
      with [text_chunk pro "one" "OTHER"; counted_chunk].
    repeat (constructor; [split; [| split]; vm_compute; reflexivity |]). constructor.
  - exact idle_armed.
  - unfold cut_at. repeat (constructor; [exact arrivals_in_time |]). constructor.
  - exact arrivals_in_time.
  - vm_compute. reflexivity.
Defined.

(** X27 at a 500 that comes after six seconds. *)
Lemma late_failure_is_final_witness :
  run (GeminiApiClient.performNativeStreamRequest configured parse_event 2
         (ask pro) pro false) failing_late
  = run (retried configured parse_event (ask pro) pro) failing_late.
Proof.
  apply (@late_failure_is_final configured parse_event (ask pro) pro failing_late
           (stream_failed 500)).
  - reflexivity.
  - reflexivity.
  - reflexivity.
  - vm_compute. discriminate.
Defined.

(** X28 at a line that comes after the timer has gone off. *)
Lemma idle_timer_never_throws_witness :
  result (run (GeminiApiClient.readLoop Json.parse [Arrives 200000 frame_a]
                 (Some IDLE_TIMEOUT_MS) EmptyString EmptyString) quiet)
  = Returned tt.
Proof.
  apply (@idle_timer_never_throws Json.t Json.parse [Arrives 200000 frame_a]
           IDLE_TIMEOUT_MS EmptyString EmptyString quiet).
  - reflexivity.
  - exact idle_armed.
  - repeat constructor.
Defined.

(** X30 at a stale cache and a refresh that is refused. *)
Lemma initializeAuth_fresh_seed_after_failed_refresh_witness :
  let o := run (Y := Empty_set) (AuthManager.initializeAuth configured) refusing_refresh in
  result o = Returned tt
  /\ accessToken (final o) = Some (OAuth2Credentials.access_token seed)
  /\ tokenFile (final o) = Some (TokenJson (seed_record seed (clock refusing_refresh + 200)))
  /\ requests (final o) = (requests refusing_refresh ++ [ReqRefresh "cached-refresh"])%list.
Proof.
  apply (@initializeAuth_fresh_seed_after_failed_refresh Empty_set configured
           refusing_refresh cached_stale "cached-refresh" seed 200 "invalid_grant" []).
  - reflexivity.
  - reflexivity.
  - vm_compute. discriminate.
  - reflexivity.
  - reflexivity.
  - reflexivity.
  - reflexivity.
  - vm_compute. reflexivity.
Defined.

